(** * downtik: the API data-fusion layer and the download orchestrators

    A shallow embedding of the control flow of
    - [src/js/modules/api.js] (class [APIManager]: rate limiter, response
      cache, the two fetchers, the fusion of their payloads),
    - [src/js/modules/download/media-downloader.js] ([MediaDownloader]),
    - [src/js/modules/download/image-downloader.js] ([ImageDownloader]),
    - [src/js/modules/download.js] ([DownloadManager]),
    - the helpers of [utils.js], [validators.js] and [constants.js]
      they call,
    followed by the properties proved about them.

    Conventions.
    - A JavaScript string is a [string]; a value that is a string or
      [undefined]/[null] is a [string] as well, the empty string standing
      for every falsy value (the code only ever tests such values with
      [||], [&&], [!] and [if]).  A key that an object may lack is an
      [option].
    - [Date.now()] and every number of milliseconds is a [Z].
    - An [async] function is a state-and-exception computation ([M]): the
      state holds the clock and the log of the effects that reached the
      outside (requests, timers, DOM clicks, notifications); a rejected
      promise is [Thrown] with the message of its [Error].
    - What the network and the browser answer is not decided by the
      program: it is read from an environment ([Env]) that may depend on
      everything that happened before. *)

From Stdlib Require Import ZArith Lia List Bool.
From Stdlib Require Import Strings.String Strings.Ascii.
From Stdlib Require Import Numbers.DecimalString Numbers.DecimalNat.
From stdpp Require Import base option list gmap strings.

Open Scope string_scope.
Open Scope Z_scope.

(** ** JavaScript strings *)

Module Js.

Definition nl : string := String (ascii_of_nat 10) EmptyString.

(** Truthiness of a string-or-undefined value. *)
Definition truthy (s : string) : bool := negb (String.eqb s "").

(** [a || b] on such values. *)
Definition or_else (a b : string) : string := if truthy a then a else b.

(** [s.includes(sub)] *)
Definition includes (s sub : string) : bool :=
  match String.index 0 sub s with Some _ => true | None => false end.

(** [s.startsWith(p)] *)
Definition startsWith (s p : string) : bool := String.prefix p s.

(** [s.endsWith(p)] *)
Definition endsWith (s p : string) : bool :=
  let n := String.length s in
  let k := String.length p in
  (k <=? n)%nat && String.eqb (String.substring (n - k) k s) p.

(** Template-literal rendering of a non-negative integer. *)
Definition string_of_nat (n : nat) : string :=
  NilEmpty.string_of_uint (Nat.to_uint n).

(** [s.toLowerCase()], on the ASCII letters. *)
Definition lower_ascii (c : ascii) : ascii :=
  let n := nat_of_ascii c in
  if ((65 <=? n) && (n <=? 90))%nat then ascii_of_nat (n + 32) else c.

Fixpoint toLowerCase (s : string) : string :=
  match s with
  | EmptyString => EmptyString
  | String c r => String (lower_ascii c) (toLowerCase r)
  end.

(** [s.trim()], on the ASCII white space and line terminators. *)
Definition is_space (c : ascii) : bool :=
  let n := nat_of_ascii c in
  ((n =? 32) || ((9 <=? n) && (n <=? 13)))%nat.

Fixpoint trimStart (s : string) : string :=
  match s with
  | EmptyString => EmptyString
  | String c r => if is_space c then trimStart r else s
  end.

Fixpoint trimEnd (s : string) : string :=
  match s with
  | EmptyString => EmptyString
  | String c r =>
      match trimEnd r with
      | EmptyString => if is_space c then EmptyString else String c EmptyString
      | r' => String c r'
      end
  end.

Definition trim (s : string) : string := trimEnd (trimStart s).

End Js.

(** ** Numbers

    The arithmetic of JavaScript is that of IEEE 754 doubles.  A positive
    finite double is written [(m, e)] for [m * 2^e]; the functions below
    are exact on the normal range, which is all that the program reaches
    with them. *)

Module Double.

(** The double nearest to [p / q], ties to even, for positive integers
    [p] and [q]: the quotient is computed with eleven bits or more beyond
    the 53 that are kept, and a sticky bit for the remainder. *)
Definition nearest (p q : Z) : Z * Z :=
  let s := 64 + Z.log2 q in
  let t := (p * 2 ^ s) / q in
  let sticky := negb ((p * 2 ^ s) mod q =? 0) in
  let d := Z.log2 t + 1 - 53 in
  let m := t / 2 ^ d in
  let rest := t mod 2 ^ d in
  let half := 2 ^ (d - 1) in
  let up := (half <? rest) || ((rest =? half) && (sticky || Z.odd m)) in
  ((if up then m + 1 else m), d - s).

(** [k * x] for a positive integer [k]. *)
Definition times (k : Z) (x : Z * Z) : Z * Z :=
  let '(m, e) := nearest (k * x.1) 1 in (m, e + x.2).

(** [Math.round(x)]: the nearest integer, a half going up. *)
Definition round (x : Z * Z) : Z :=
  if 0 <=? x.2 then x.1 * 2 ^ x.2
  else (2 * x.1 + 2 ^ (- x.2)) / 2 ^ (1 - x.2).

End Double.

(** ** Promises as state-and-exception computations *)

Inductive result (A : Type) : Type :=
| Returned (a : A)
| Thrown (message : string).
Arguments Returned {A} a.
Arguments Thrown {A} message.

Definition M (S A : Type) : Type := S -> result A * S.

Definition ret {S A} (a : A) : M S A := fun s => (Returned a, s).

Definition throw {S A} (message : string) : M S A :=
  fun s => (Thrown message, s).

Definition bind {S A B} (m : M S A) (k : A -> M S B) : M S B :=
  fun s =>
    match m s with
    | (Returned a, s') => k a s'
    | (Thrown e, s') => (Thrown e, s')
    end.

(** [try { m } catch (error) { h error.message }] *)
Definition try_catch {S A} (m : M S A) (h : string -> M S A) : M S A :=
  fun s =>
    match m s with
    | (Returned a, s') => (Returned a, s')
    | (Thrown e, s') => h e s'
    end.

(** [try { m } finally { f }], for an [f] that does not throw. *)
Definition try_finally {S A} (m : M S A) (f : S -> S) : M S A :=
  fun s => let '(r, s') := m s in (r, f s').

Definition gets {S A} (f : S -> A) : M S A := fun s => (Returned (f s), s).

Definition modify {S} (f : S -> S) : M S unit := fun s => (Returned tt, f s).

Declare Scope js_scope.
Delimit Scope js_scope with js.
Notation "x <- m ;; k" := (bind m (fun x => k))
  (at level 100, m at next level, right associativity) : js_scope.
Notation "m ;;; k" := (bind m (fun _ => k))
  (at level 100, right associativity) : js_scope.
Open Scope js_scope.

(** ** The JavaScript [Map]: keys in insertion order *)

Module JsMap.
Section JsMap.
Context {K V : Type} `{EqDecision K}.

Definition t : Type := list (K * V).

Definition has_key (k : K) (kv : K * V) : bool := bool_decide (kv.1 = k).

(** [m.get(k)] *)
Definition get (k : K) (m : t) : option V :=
  match List.find (has_key k) m with
  | Some kv => Some kv.2
  | None => None
  end.

(** [m.set(k, v)]: an existing key keeps its place, a new one goes last. *)
Fixpoint set (k : K) (v : V) (m : t) : t :=
  match m with
  | [] => [(k, v)]
  | kv :: r => if has_key k kv then (k, v) :: r else kv :: set k v r
  end.

(** [m.delete(k)] *)
Definition delete (k : K) (m : t) : t :=
  List.filter (fun kv => negb (has_key k kv)) m.

(** [m.size] *)
Definition size (m : t) : nat := List.length m.

(** [[...m.keys()]] *)
Definition keys (m : t) : list K := List.map fst m.

(** [m.keys().next().value] *)
Definition first_key (m : t) : option K := List.hd_error (keys m).

End JsMap.
Arguments t : clear implicits.
End JsMap.

(** ** The platform's [URL] class

    [new URL(s)] for an absolute URL; there is no base URL, so a string
    without a scheme does not parse.  The model covers what the program
    relies on: the scheme, the authority (credentials, host, port), the
    path, the query and the fragment, and the list of name/value pairs that
    [searchParams] reads off the query and writes back to it.

    It is the parser of the URL standard on addresses written with a
    registered name as host and without characters that the parser would
    rewrite.  Outside of them it departs from the standard: the host is
    only put in lower case and checked for forbidden characters, so that a
    dotted number out of range is accepted where the standard refuses it,
    and an address in brackets or a host with percent-encoded or non-ASCII
    characters is refused or kept as written where the standard accepts and
    rewrites it; the path is kept as written, with its dot segments and
    backslashes; and the characters that the standard percent-encodes in the
    credentials, the path and the fragment are kept as written.  The query
    is kept as written by [parse] and rewritten by [searchParams_delete]. *)

Module Url.

Record t : Type := mk {
  protocol : string;            (* scheme with its colon, lower case *)
  has_authority : bool;
  userinfo : string;
  hostname : string;
  port : string;
  pathname : string;
  query : option string;        (* without the question mark *)
  fragment : option string      (* without the hash sign *)
}.

(** Longest prefix of [s] whose characters fail [stop], and the rest. *)
Fixpoint break (stop : ascii -> bool) (s : string) : string * string :=
  match s with
  | EmptyString => (EmptyString, EmptyString)
  | String c r =>
      if stop c then (EmptyString, s)
      else let '(a, b) := break stop r in (String c a, b)
  end.

Fixpoint dropWhile (p : ascii -> bool) (s : string) : string :=
  match s with
  | EmptyString => EmptyString
  | String c r => if p c then dropWhile p r else s
  end.

Fixpoint forallb_string (p : ascii -> bool) (s : string) : bool :=
  match s with
  | EmptyString => true
  | String c r => p c && forallb_string p r
  end.

(** The part of [s] after the last [c], with what precedes it. *)
Fixpoint split_last (c : ascii) (s : string) : option (string * string) :=
  match s with
  | EmptyString => None
  | String d r =>
      match split_last c r with
      | Some (a, b) => Some (String d a, b)
      | None => if Ascii.eqb d c then Some (EmptyString, r) else None
      end
  end.

Definition is_char (c : ascii) (d : ascii) : bool := Ascii.eqb c d.

Definition is_alpha (c : ascii) : bool :=
  let n := nat_of_ascii c in
  (((65 <=? n) && (n <=? 90)) || ((97 <=? n) && (n <=? 122)))%nat.

Definition is_digit (c : ascii) : bool :=
  let n := nat_of_ascii c in ((48 <=? n) && (n <=? 57))%nat.

Definition is_scheme_char (c : ascii) : bool :=
  is_alpha c || is_digit c || is_char "+" c || is_char "-" c || is_char "." c.

Definition is_slash (c : ascii) : bool := is_char "/" c || is_char "\" c.

Definition special_scheme (scheme : string) : bool :=
  existsb (String.eqb scheme) ["http"; "https"; "ftp"; "ws"; "wss"].

Definition forbidden_host_char (c : ascii) : bool :=
  Js.is_space c || (nat_of_ascii c <? 32)%nat ||
  existsb (fun d => is_char d c) ["<"; ">"; "["; "\"; "]"; "^"; "|"]%char.

Definition tail (s : string) : string :=
  match s with EmptyString => EmptyString | String _ r => r end.

(** Scheme and remainder: a letter, then letters, digits, [+], [-], [.],
    then a colon. *)
Definition parse_scheme (s : string) : option (string * string) :=
  match s with
  | String c _ =>
      if is_alpha c then
        match break (fun d => negb (is_scheme_char d)) s with
        | (scheme, String ":" rest) => Some (Js.toLowerCase scheme, rest)
        | _ => None
        end
      else None
  | EmptyString => None
  end.

(** Path, query and fragment of what follows the authority. *)
Definition parse_tail (special : bool) (s : string)
  : string * option string * option string :=
  let '(path, r1) := break (fun c => is_char "?" c || is_char "#" c) s in
  let path := if special && String.eqb path "" then "/" else path in
  match r1 with
  | String "?" r2 =>
      let '(q, r3) := break (is_char "#") r2 in
      (path, Some q, match r3 with String _ f => Some f | _ => None end)
  | String _ f => (path, None, Some f)
  | EmptyString => (path, None, None)
  end.

(** The input without its leading and trailing C0 controls and spaces, and
    without any tab or newline. *)
Definition is_c0_or_space (c : ascii) : bool := (nat_of_ascii c <=? 32)%nat.

Definition is_tab_or_newline (c : ascii) : bool :=
  let n := nat_of_ascii c in ((n =? 9) || (n =? 10) || (n =? 13))%nat.

Fixpoint dropEnd (p : ascii -> bool) (s : string) : string :=
  match s with
  | EmptyString => EmptyString
  | String c r =>
      match dropEnd p r with
      | EmptyString => if p c then EmptyString else String c EmptyString
      | r' => String c r'
      end
  end.

Fixpoint remove (p : ascii -> bool) (s : string) : string :=
  match s with
  | EmptyString => EmptyString
  | String c r => if p c then remove p r else String c (remove p r)
  end.

Definition strip (input : string) : string :=
  remove is_tab_or_newline (dropEnd is_c0_or_space (dropWhile is_c0_or_space input)).

(** The number that the digits of a port denote. *)
Definition port_number (digits : string) : N :=
  match NilEmpty.uint_of_string digits with
  | Some u => N.of_uint u
  | None => 0%N
  end.

Definition default_port (scheme : string) : option N :=
  if String.eqb scheme "http" || String.eqb scheme "ws" then Some 80%N
  else if String.eqb scheme "https" || String.eqb scheme "wss" then Some 443%N
  else if String.eqb scheme "ftp" then Some 21%N
  else None.

(** The port of the URL record: none when no port is written or when it is
    the default port of the scheme, else the number in decimal. *)
Definition port_of (scheme digits : string) : string :=
  if String.eqb digits "" then ""
  else if bool_decide (default_port scheme = Some (port_number digits)) then ""
  else NilEmpty.string_of_uint (N.to_uint (port_number digits)).

Definition parse (input : string) : option t :=
  match parse_scheme (strip input) with
  | None => None
  | Some (scheme, rest) =>
      let special := special_scheme scheme in
      let after :=
        if special then Some (dropWhile is_slash rest)
        else if Js.startsWith rest "//" then Some (tail (tail rest))
        else None in
      match after with
      | None =>
          let '(path, q, f) := parse_tail false rest in
          Some (mk (scheme +:+ ":") false "" "" "" path q f)
      | Some a =>
          let stop c := is_char "/" c || is_char "?" c || is_char "#" c
                        || (special && is_char "\" c) in
          let '(authority, r1) := break stop a in
          let '(cred, hostport) :=
            match split_last "@" authority with
            | Some (u, hp) => (u, hp)
            | None => ("", authority)
            end in
          let '(host, prt) :=
            match split_last ":" hostport with
            | Some (h, p) => (h, p)
            | None => (hostport, "")
            end in
          let host := if special then Js.toLowerCase host else host in
          if special && String.eqb host "" then None
          else if negb (forallb_string is_digit prt) then None
          else if (65535 <? port_number prt)%N then None
          else if negb (forallb_string (fun c => negb (forbidden_host_char c)) host)
          then None
          else
            let '(path, q, f) := parse_tail special r1 in
            Some (mk (scheme +:+ ":") true cred host (port_of scheme prt) path q f)
      end
  end.

(** [url.toString()] *)
Definition toString (u : t) : string :=
  protocol u
  +:+ (if has_authority u then
         "//" +:+ (if Js.truthy (userinfo u) then userinfo u +:+ "@" else "")
         +:+ hostname u
         +:+ (if Js.truthy (port u) then ":" +:+ port u else "")
       else "")
  +:+ pathname u
  +:+ match query u with Some q => "?" +:+ q | None => "" end
  +:+ match fragment u with Some f => "#" +:+ f | None => "" end.

(** *** [URLSearchParams]

    The pairs are read off the query by the application/x-www-form-urlencoded
    parser and written back by its serializer.  Strings are sequences of
    UTF-8 bytes, as everywhere. *)

Fixpoint split_on (fuel : nat) (c : ascii) (s : string) : list string :=
  match fuel with
  | O => [s]
  | S fuel' =>
      match break (is_char c) s with
      | (a, String _ r) => a :: split_on fuel' c r
      | (a, EmptyString) => [a]
      end
  end.

Definition hex_value (c : ascii) : option nat :=
  let n := nat_of_ascii c in
  if ((48 <=? n) && (n <=? 57))%nat then Some (n - 48)%nat
  else if ((65 <=? n) && (n <=? 70))%nat then Some (n - 55)%nat
  else if ((97 <=? n) && (n <=? 102))%nat then Some (n - 87)%nat
  else None.

Definition hex_digit (n : nat) : ascii :=
  if (n <? 10)%nat then ascii_of_nat (48 + n) else ascii_of_nat (55 + n).

(** Percent-decoding: a percent sign followed by two hexadecimal digits is
    the byte that they denote. *)
Fixpoint percent_decode (s : string) : string :=
  match s with
  | EmptyString => EmptyString
  | String c r =>
      match r with
      | String a (String b r') =>
          match is_char "%" c, hex_value a, hex_value b with
          | true, Some x, Some y =>
              String (ascii_of_nat (16 * x + y)) (percent_decode r')
          | _, _, _ => String c (percent_decode r)
          end
      | _ => String c (percent_decode r)
      end
  end.

Fixpoint plus_to_space (s : string) : string :=
  match s with
  | EmptyString => EmptyString
  | String c r => String (if is_char "+" c then " "%char else c) (plus_to_space r)
  end.

(** The replacement character U+FFFD, in UTF-8. *)
Definition replacement : string :=
  String (ascii_of_nat 239) (String (ascii_of_nat 191) (String (ascii_of_nat 189) "")).

(** UTF-8 decoding followed by UTF-8 encoding: a well-formed sequence is
    kept and each ill-formed one becomes U+FFFD.  [pending] holds the bytes
    of the sequence being read, [needed] the number of bytes that it still
    lacks, [lower] and [upper] the bounds of its next byte. *)
Fixpoint utf8 (pending : string) (needed lower upper : nat) (s : string) : string :=
  let start (b : ascii) (rest : string) : string :=
    let n := nat_of_ascii b in
    if (n <=? 127)%nat then String b (utf8 "" 0 128 191 rest)
    else if ((194 <=? n) && (n <=? 223))%nat
    then utf8 (String b "") 1 128 191 rest
    else if ((224 <=? n) && (n <=? 239))%nat
    then utf8 (String b "") 2 (if (n =? 224)%nat then 160 else 128)
              (if (n =? 237)%nat then 159 else 191) rest
    else if ((240 <=? n) && (n <=? 244))%nat
    then utf8 (String b "") 3 (if (n =? 240)%nat then 144 else 128)
              (if (n =? 244)%nat then 143 else 191) rest
    else replacement +:+ utf8 "" 0 128 191 rest in
  match s with
  | EmptyString => if (needed =? 0)%nat then "" else replacement
  | String b rest =>
      match needed with
      | O => start b rest
      | S k =>
          let n := nat_of_ascii b in
          if ((lower <=? n) && (n <=? upper))%nat then
            match k with
            | O => pending +:+ String b (utf8 "" 0 128 191 rest)
            | _ => utf8 (pending +:+ String b "") k 128 191 rest
            end
          else replacement +:+ start b rest
      end
  end.

(** A name or a value of the query, decoded. *)
Definition form_decode (s : string) : string :=
  utf8 "" 0 128 191 (percent_decode (plus_to_space s)).

(** A name or a value, encoded: the letters, the digits and [*-._] stay,
    a space becomes a plus sign and any other byte is percent-encoded. *)
Fixpoint form_encode (s : string) : string :=
  match s with
  | EmptyString => EmptyString
  | String c r =>
      let n := nat_of_ascii c in
      if is_alpha c || is_digit c || is_char "*" c || is_char "-" c
         || is_char "." c || is_char "_" c
      then String c (form_encode r)
      else if is_char " " c then String "+" (form_encode r)
      else String "%" (String (hex_digit (n / 16))
                         (String (hex_digit (n mod 16)) (form_encode r)))
  end.

Definition parse_pair (s : string) : string * string :=
  match break (is_char "=") s with
  | (n, String _ v) => (form_decode n, form_decode v)
  | (n, EmptyString) => (form_decode n, "")
  end.

Definition searchParams (u : t) : list (string * string) :=
  match query u with
  | None => []
  | Some q =>
      List.map parse_pair
        (List.filter Js.truthy (split_on (String.length q) "&" q))
  end.

Fixpoint serialize (ps : list (string * string)) : string :=
  match ps with
  | [] => ""
  | [(n, v)] => form_encode n +:+ "=" +:+ form_encode v
  | (n, v) :: r => form_encode n +:+ "=" +:+ form_encode v +:+ "&" +:+ serialize r
  end.

(** [url.searchParams.delete(name)]: the pairs named [name] go, and the
    query of the URL is rewritten from the pairs that stay, whether a pair
    went or not. *)
Definition searchParams_delete (name : string) (u : t) : t :=
  let ps := List.filter (fun p => negb (String.eqb p.1 name)) (searchParams u) in
  mk (protocol u) (has_authority u) (userinfo u) (hostname u) (port u)
     (pathname u)
     (match ps with [] => None | _ => Some (serialize ps) end)
     (fragment u).

End Url.

(** ** constants.js *)

Module Constants.

Definition TIMEOUT : Z := 15000.
Definition MIN_INTERVAL : Z := 2000.
Definition MAX_REQUESTS_PER_MINUTE : nat := 30.
Definition TIKTOK_DOMAINS : list string :=
  ["tiktok.com"; "vm.tiktok.com"; "vt.tiktok.com"].
Definition CONCURRENT_DOWNLOADS : nat := 3.
Definition DOWNLOAD_TIMEOUT : Z := 30000.
Definition INVALID_URL : string := "Vui lòng nhập link TikTok hợp lệ".
Definition API_ERROR : string := "Không thể tải thông tin video từ API".

(** [REGEX_PATTERNS.TIKTOK_URL]:
    [/^https?:\/\/(?:www\.|vm\.|vt\.|m\.)?tiktok\.com\/.+/i].
    The dot refuses the line terminators: LF, CR, U+2028 and U+2029 (in
    UTF-8 the bytes E2 80 A8 and E2 80 A9). *)
Definition line_terminator_ahead (s : string) : bool :=
  match s with
  | String c r =>
      let n := nat_of_ascii c in
      ((n =? 10) || (n =? 13))%nat ||
      match r with
      | String d (String e _) =>
          ((n =? 226) && (nat_of_ascii d =? 128)
           && ((nat_of_ascii e =? 168) || (nat_of_ascii e =? 169)))%nat
      | _ => false
      end
  | EmptyString => false
  end.

Definition drop (n : nat) (s : string) : string :=
  String.substring n (String.length s - n) s.

Definition TIKTOK_URL_test (s : string) : bool :=
  let l := Js.toLowerCase s in
  existsb (fun scheme =>
    existsb (fun sub =>
      let p := scheme +:+ sub +:+ "tiktok.com/" in
      Js.startsWith l p
      && Js.truthy (drop (String.length p) s)
      && negb (line_terminator_ahead (drop (String.length p) s)))
      ["www."; "vm."; "vt."; "m."; ""])
    ["http://"; "https://"].

End Constants.

(** ** validators.js *)

Module Validators.

Record UrlValidation : Type := {
  isValid : bool;
  error : option string;
  cleanUrl : option string
}.

Definition invalid : UrlValidation :=
  {| isValid := false; error := Some Constants.INVALID_URL; cleanUrl := None |}.

(** [isNotEmpty(str)] *)
Definition isNotEmpty (s : string) : bool := Js.truthy (Js.trim s).

(** The domain test of [validateTikTokUrl]. *)
Definition isValidDomain (hostname : string) : bool :=
  existsb (fun domain =>
    String.eqb hostname domain || Js.endsWith hostname ("." +:+ domain))
    Constants.TIKTOK_DOMAINS.

Definition validateTikTokUrl (url : string) : UrlValidation :=
  let cleanUrl := Js.trim url in
  if negb (isNotEmpty cleanUrl) then invalid
  else
    let normalizedUrl :=
      if negb (Js.startsWith cleanUrl "http") then "https://" +:+ cleanUrl
      else cleanUrl in
    match Url.parse normalizedUrl with
    | None => invalid
    | Some urlObj =>
        let hostname := Js.toLowerCase (Url.hostname urlObj) in
        if negb (isValidDomain hostname) then invalid
        else if negb (Constants.TIKTOK_URL_test normalizedUrl) then invalid
        else {| isValid := true; error := None; cleanUrl := Some normalizedUrl |}
    end.

Definition isValidTikTokUrl (url : string) : bool :=
  isValid (validateTikTokUrl url).

(** [isValidUrl(url)] *)
Definition isValidUrl (url : string) : bool :=
  match Url.parse url with Some _ => true | None => false end.

End Validators.

(** ** The world outside the program *)

Record Blob : Type := { blob_size : nat; blob_type : string }.

(** What [fetch] resolves with, as far as the program looks at it. *)
Record Response : Type := {
  res_ok : bool;
  res_status : nat;
  res_statusText : string;
  res_text : string;            (* [await response.text()], [''] on failure *)
  res_blob : Blob               (* [await response.blob()] *)
}.

(** The body of a JSON API answer: [success] is [result.code === 0] for
    TikWM and [result.status === 'success'] for TikVid, [msg] is
    [result.msg] resp. [result.message]. *)
Inductive ApiBody (D : Type) : Type :=
| MalformedJson (message : string)
| Json (success : bool) (msg : string) (data : D).
Arguments MalformedJson {D} message.
Arguments Json {D} success msg data.

Record ApiResponse (D : Type) : Type := {
  api_ok : bool;
  api_status : nat;
  api_body : ApiBody D
}.
Arguments api_ok {D}. Arguments api_status {D}. Arguments api_body {D}.

(** A promise settled by the outside: rejected with a message, or
    resolved. *)
Inductive Reply (A : Type) : Type :=
| Rejected (message : string)
| Resolved (a : A).
Arguments Rejected {A} message.
Arguments Resolved {A} a.

Inductive request : Type :=
| ReqTikWM (url : string)                    (* metadata API *)
| ReqTikVidProxy (url : string)              (* download-link API *)
| ReqProxyHealth                             (* health probe of the proxy *)
| ReqProxyDownload (url filename : string)   (* binary proxy *)
| ReqNoCors (url : string)                   (* fetch, mode no-cors *)
| ReqCors (url : string)                     (* fetch, mode cors *)
| ReqCanvas (url : string).                  (* image loaded into a canvas *)

Inductive dom_action : Type :=
| DirectLink (url filename : string)   (* anchor on the URL itself, clicked *)
| SaveBlob (filename : string) (b : Blob)           (* anchor on an object URL *)
| SaveArchive (filename : string) (files : gmap string Blob)
| WindowOpen (url : string).

Inductive ui_event : Type :=
| Toast (message type : string)
| Notification (title message type : string)
| ShowLoading (message : string)
| UpdateLoading (message : string)
| HideLoading
| ShowDownloadLoader (filename type : string)
| HideLoader
| HideLoaderImmediate.

Inductive event : Type :=
| EvSleep (ms : Z)                  (* an awaited timer *)
| EvRequest (r : request)
| EvDom (a : dom_action)
| EvLater (ms : Z) (a : dom_action) (* a timer that nobody awaits *)
| EvUi (u : ui_event).

Record World : Type := { clock : Z; trace : list event }.

Definition log (e : event) (w : World) : World :=
  {| clock := clock w; trace := trace w ++ [e] |}.

Definition tick (d : Z) (w : World) : World :=
  {| clock := clock w + d; trace := trace w |}.

(** ** The payloads of the two providers *)

Record Author : Type := { nickname : string }.

Record MusicInfo : Type := {
  mi_id : string;
  mi_title : string;
  mi_author : string;
  mi_play : string;
  mi_cover : string;
  mi_duration : Z;
  mi_original : option bool;    (* key [original] *)
  mi_quality : option string    (* key [quality] *)
}.

(** An entry of the download-link provider's [downloads].  Each entry has
    its three keys: on a video entry without [quality] the normalization
    and the fusion throw a TypeError, and no record is built from such a
    payload. *)
Record Download : Type := {
  d_type : string;
  d_quality : string;
  d_url : string
}.

(** An entry of its [photoList]. *)
Record Photo : Type := {
  p_thumbnail : string;
  p_downloadUrl : string;
  p_index : Z
}.

(** [data] of a TikWM answer, before normalization. *)
Record RawTikwm : Type := {
  rw_id : string;
  rw_title : string;
  rw_cover : string;
  rw_play : string;
  rw_hdplay : string;
  rw_wmplay : string;
  rw_music : string;
  rw_author : option Author;
  rw_music_info : option MusicInfo;
  rw_images : list string
}.

(** [data] of a TikVid answer, before normalization. *)
Record RawTikVid : Type := {
  rv_id : string;
  rv_title : string;
  rv_thumbnail : string;
  rv_poster : string;
  rv_videoPreview : string;
  rv_downloads : list Download;
  rv_photoList : list Photo
}.

(** The answers of the network and of the browser.  Each may depend on the
    whole history. *)
Record Env : Type := {
  timer_lateness : World -> N;          (* how late a timer fires *)
  latency : World -> request -> N;      (* how long a request takes *)
  tikwm : World -> string -> Reply (ApiResponse RawTikwm);
  tikvid : World -> string -> Reply (ApiResponse RawTikVid);
  http : World -> request -> Reply Response;
  canvas : World -> string -> Reply (option Blob);
  dom_throws : World -> dom_action -> option string;
  random_id : World -> string;
  is_mobile : bool
}.

(** ** utils.js *)

Module Utils.

(** [isValidTikTokUrl] of utils.js, the one api.js imports. *)
Definition isValidTikTokUrl (url : string) : bool :=
  if negb (Js.truthy url) then false
  else
    match Url.parse url with
    | Some urlObj =>
        Js.includes (Url.hostname urlObj) "tiktok.com"
        || Js.includes (Url.hostname urlObj) "vm.tiktok.com"
        || Js.includes (Url.hostname urlObj) "vt.tiktok.com"
    | None => false
    end.

(** The prefix mapping of [generateFilename]. *)
Definition kimizkPrefix (prefix : string) : string :=
  if Js.includes prefix "video" then
    if Js.includes prefix "hd" || Js.includes prefix "HD" then "kimizk-vid(hd)"
    else if Js.includes prefix "sd" || Js.includes prefix "SD" then "kimizk-vid(sd)"
    else "kimizk-vid"
  else if Js.includes prefix "image" || Js.includes prefix "pic" then "kimizk-pic"
  else if Js.includes prefix "audio" || Js.includes prefix "music"
          || Js.includes prefix "mp3" then "kimizk-au"
  else if Js.includes prefix "tiktok" then "kimizk-vid"
  else prefix.

Section WithEnv.
Variable env : Env.

(** [Date.now()] *)
Definition now : M World Z := gets clock.

(** [await sleep(ms)]: the timer fires after [ms] milliseconds or later. *)
Definition sleep (ms : Z) : M World unit :=
  fun w =>
    (Returned tt,
     tick (Z.max 0 ms + Z.of_N (timer_lateness env w)) (log (EvSleep ms) w)).

(** [await withTimeout(fetch(...), t)]: a rejection is a network failure
    or the timeout. *)
Definition fetch (r : request) : M World Response :=
  fun w =>
    let w' := tick (Z.of_N (latency env w r)) (log (EvRequest r) w) in
    match http env w r with
    | Rejected m => (Thrown m, w')
    | Resolved resp => (Returned resp, w')
    end.

(** A DOM action; the browser may throw in it. *)
Definition dom (a : dom_action) : M World unit :=
  fun w =>
    match dom_throws env w a with
    | Some m => (Thrown m, log (EvDom a) w)
    | None => (Returned tt, log (EvDom a) w)
    end.

(** [setTimeout(() => { try { a } catch {} }, ms)], not awaited. *)
Definition later (ms : Z) (a : dom_action) : M World unit :=
  modify (log (EvLater ms a)).

(** Notifications: fire-and-forget. *)
Definition ui (u : ui_event) : M World unit := modify (log (EvUi u)).

Definition generateFilename (prefix extension : string) : M World string :=
  fun w =>
    (Returned (kimizkPrefix prefix +:+ "-" +:+ random_id env w +:+ "."
               +:+ extension), w).

(** [retryAsync(fn, maxRetries, baseDelay)]; [i] is the loop counter and
    [remaining] is [maxRetries - i]. *)
Fixpoint retry_loop {A} (fn : M World A) (maxRetries : nat) (baseDelay : Z)
    (i remaining : nat) (lastError : string) : M World A :=
  match remaining with
  | O => throw lastError
  | S k =>
      try_catch fn (fun e =>
        (if (i <? maxRetries - 1)%nat
         then sleep (baseDelay * 2 ^ Z.of_nat i) else ret tt);;;
        retry_loop fn maxRetries baseDelay (S i) k e)
  end.

Definition retryAsync {A} (fn : M World A) (maxRetries : nat) (baseDelay : Z)
  : M World A :=
  retry_loop fn maxRetries baseDelay 0 maxRetries "".

(** One promise of [Promise.allSettled]. *)
Definition settle {A} (m : M World A) : M World (result A) :=
  fun w => let '(r, w') := m w in (Returned r, w').

End WithEnv.
End Utils.

(** ** download/media-downloader.js

    The bookkeeping set [activeDownloads] and the timer that revokes an
    object URL one second after a save are left out: nothing reads them in
    the functions below. *)

Module MediaDownloader.
Import Utils.

Definition healthError (detail : string) : string :=
  "❌ TikVid API không khả dụng!" +:+ Js.nl +:+ Js.nl
  +:+ "🔄 Vui lòng thử lại sau hoặc kiểm tra kết nối mạng." +:+ Js.nl
  +:+ "🌐 API: https://cors-kimizk.vercel.app" +:+ Js.nl +:+ Js.nl
  +:+ "Chi tiết lỗi: " +:+ detail.

Definition tikvidUnavailable : string :=
  "❌ TikVid API không khả dụng!" +:+ Js.nl +:+ Js.nl
  +:+ "🔄 Vui lòng thử lại sau hoặc kiểm tra kết nối mạng." +:+ Js.nl +:+ Js.nl
  +:+ "🌐 API: https://cors-kimizk.vercel.app".

Definition allMethodsFailed : string :=
  "❌ Không thể tải file qua các phương thức có sẵn." +:+ Js.nl +:+ Js.nl
  +:+ "🔄 Vui lòng thử lại sau hoặc kiểm tra:" +:+ Js.nl
  +:+ "• Kết nối mạng" +:+ Js.nl
  +:+ "• URL có hợp lệ không" +:+ Js.nl
  +:+ "• Server API có hoạt động không".

(** [`HTTP ${response.status}: ${response.statusText}`] *)
Definition httpError (response : Response) : string :=
  "HTTP " +:+ Js.string_of_nat (res_status response) +:+ ": "
  +:+ res_statusText response.

Definition isTikVidUrl (url : string) : bool :=
  Js.includes url "dl.snapcdn.app" || Js.includes url "tikvid.io"
  || Js.includes url "muscdn.com".

(** The test of the [catch] in [attemptDownload] on the error message. *)
Definition connectionError (message : string) : bool :=
  Js.includes message "ERR_CONNECTION_REFUSED"
  || Js.includes message "Failed to fetch".

Section WithEnv.
Variable env : Env.

Definition downloadBlob (blob : Blob) (filename : string) : M World unit :=
  dom env (SaveBlob filename blob).

Definition createDirectDownloadLink (url filename : string) : M World unit :=
  dom env (DirectLink url filename);;;
  if is_mobile env then later (100) (WindowOpen url) else ret tt.

Definition checkTikVidProxyHealth : M World bool :=
  try_catch
    (response <- fetch env ReqProxyHealth;;
     if ((res_status response =? 200) || (res_status response =? 400))%nat
     then ret true
     else throw ("API returned status: "
                 +:+ Js.string_of_nat (res_status response)))
    (fun message => throw (healthError message)).

Definition downloadViaTikVidProxy (url filename : string) : M World unit :=
  checkTikVidProxyHealth;;;
  response <- fetch env (ReqProxyDownload url filename);;
  if negb (res_ok response) then
    throw ("TikVid proxy failed: " +:+ Js.string_of_nat (res_status response)
           +:+ " " +:+ res_statusText response +:+ Js.nl +:+ res_text response)
  else if (blob_size (res_blob response) =? 0)%nat then
    throw "Empty file received from TikVid proxy"
  else downloadBlob (res_blob response) filename.

Definition downloadViaFetch (url filename : string) : M World unit :=
  try_catch
    (response <- fetch env (ReqNoCors url);;
     if (blob_size (res_blob response) =? 0)%nat
     then throw "Empty file received"
     else downloadBlob (res_blob response) filename)
    (fun _ =>
       response <- fetch env (ReqCors url);;
       if negb (res_ok response) then throw (httpError response)
       else if (blob_size (res_blob response) =? 0)%nat then
         throw "Empty file received"
       else downloadBlob (res_blob response) filename).

(** The [for (const method of methods)] loop of [attemptDownload]. *)
Fixpoint tryMethods (tikVidUrl : bool) (methods : list (M World unit))
  : M World unit :=
  match methods with
  | [] => throw allMethodsFailed
  | method :: rest =>
      try_catch (retryAsync env method 2 1000)
        (fun message =>
           if tikVidUrl && connectionError message
           then throw tikvidUnavailable
           else tryMethods tikVidUrl rest)
  end.

(** Both branches of the source build the same list of methods. *)
Definition attemptDownload (url filename : string) : M World unit :=
  tryMethods (isTikVidUrl url)
    [ downloadViaTikVidProxy url filename;
      downloadViaFetch url filename;
      createDirectDownloadLink url filename ].

Definition downloadMedia (url filename type : string) : M World unit :=
  if negb (Js.truthy url) || String.eqb url "#" then throw "Invalid URL"
  else
    try_catch
      (ui (ShowDownloadLoader filename type);;;
       attemptDownload url filename;;;
       ui HideLoader;;;
       ui (Notification "Tải thành công!"
             ((if String.eqb type "video" then "Video" else "Audio")
              +:+ " đã được tải về máy")
             "success"))
      (fun _ =>
         ui HideLoaderImmediate;;;
         ui (Notification "Tải trực tiếp"
               "Không thể tải qua proxy. Đã mở liên kết tải trực tiếp"
               "warning");;;
         createDirectDownloadLink url filename).

End WithEnv.
End MediaDownloader.

(** ** download/image-downloader.js *)

Module ImageDownloader.
Import Utils.

(** [validateImageBlob]: the error, if any. *)
Definition validateImageBlob (blob : Blob) : option string :=
  if (blob_size blob =? 0)%nat then Some "File hình ảnh trống"
  else if negb (Js.startsWith (blob_type blob) "image/")
  then Some "File không phải là hình ảnh"
  else None.

Definition archiveEmpty : string := "Không thể xử lý ảnh nào cho file ZIP".

(** [`image_${globalIndex + 1}.jpg`] *)
Definition zipName (globalIndex : nat) : string :=
  "image_" +:+ Js.string_of_nat (globalIndex + 1) +:+ ".jpg".

(** [images.slice(i, i + 3)] for [i = 0, 3, 6, ...] *)
Fixpoint batches {A} (images : list A) : list (list A) :=
  match images with
  | [] => []
  | a :: b :: c :: rest => [a; b; c] :: batches rest
  | short => [short]
  end.

(** [Math.round(((globalIndex + 1) / totalImages) * 100)], in doubles: the
    quotient is rounded, then the product, so that image 23 of 40 shows 57
    where the exact value 57.5 would show 58.  [totalImages] is positive
    where the function is called. *)
Definition progress (globalIndex totalImages : nat) : nat :=
  match totalImages with
  | O => O
  | _ =>
      Z.to_nat
        (Double.round
           (Double.times 100
              (Double.nearest (Z.of_nat (globalIndex + 1)) (Z.of_nat totalImages))))
  end.

Section WithEnv.
Variable env : Env.

Definition downloadBlob (blob : Blob) (filename : string) : M World unit :=
  dom env (SaveBlob filename blob).

Definition downloadImageViaProxy (imageUrl filename : string) : M World unit :=
  try_catch
    (response <- fetch env (ReqProxyDownload imageUrl filename);;
     if negb (res_ok response) then
       throw ("TikVid proxy failed: " +:+ Js.string_of_nat (res_status response))
     else if (blob_size (res_blob response) =? 0)%nat then
       throw "Empty file received from proxy"
     else downloadBlob (res_blob response) filename)
    (fun message =>
       if Js.includes message "ERR_CONNECTION_REFUSED" || Js.includes message "fetch"
       then throw "TikVid proxy server không hoạt động. Chạy: node tikvid-proxy-server.js"
       else throw message).

Definition downloadImageViaFetch (imageUrl filename : string) : M World unit :=
  try_catch
    (response <- fetch env (ReqNoCors imageUrl);;
     if (0 <? blob_size (res_blob response))%nat
     then downloadBlob (res_blob response) filename
     else throw "Empty blob from no-cors fetch")
    (fun _ =>
       response <- fetch env (ReqCors imageUrl);;
       if negb (res_ok response) then
         throw ("HTTP " +:+ Js.string_of_nat (res_status response))
       else
         match validateImageBlob (res_blob response) with
         | Some error => throw error
         | None => downloadBlob (res_blob response) filename
         end).

(** The image is drawn on a canvas and exported; what [toBlob] hands to
    its callback is the environment's answer. *)
Definition loadCanvas (imageUrl : string) : M World (option Blob) :=
  fun w =>
    let w' := tick (Z.of_N (latency env w (ReqCanvas imageUrl)))
                   (log (EvRequest (ReqCanvas imageUrl)) w) in
    match canvas env w imageUrl with
    | Rejected m => (Thrown m, w')
    | Resolved b => (Returned b, w')
    end.

(** A save that throws inside the [toBlob] callback leaves the promise
    pending until its timer rejects it. *)
Definition downloadImageViaCanvas (imageUrl filename : string) : M World unit :=
  blob <- loadCanvas imageUrl;;
  match blob with
  | Some b =>
      if (0 <? blob_size b)%nat
      then try_catch (downloadBlob b filename)
                     (fun _ => throw "Image load timeout")
      else throw "Canvas to blob failed"
  | None => throw "Canvas to blob failed"
  end.

Definition createDirectDownload (imageUrl filename : string) : M World unit :=
  dom env (DirectLink imageUrl filename);;;
  if is_mobile env then later 100 (WindowOpen imageUrl) else ret tt.

(** The [for (const method of methods)] loop of [attemptImageDownload]. *)
Fixpoint tryMethods (methods : list (M World unit)) : M World unit :=
  match methods with
  | [] => throw "All image download methods failed"
  | method :: rest =>
      try_catch (retryAsync env method 1 500) (fun _ => tryMethods rest)
  end.

Definition attemptImageDownload (imageUrl filename : string) : M World unit :=
  tryMethods
    [ downloadImageViaProxy imageUrl filename;
      downloadImageViaFetch imageUrl filename;
      createDirectDownload imageUrl filename;
      downloadImageViaCanvas imageUrl filename ].

Definition downloadSingleImage (imageUrl : string) (index : nat) : M World unit :=
  filename <- generateFilename env
                ("tiktok_image_" +:+ Js.string_of_nat (index + 1)) "jpg";;
  try_catch (attemptImageDownload imageUrl filename)
            (fun _ => dom env (WindowOpen imageUrl)).

Definition getImageBlobViaCanvas (imageUrl : string) : M World Blob :=
  blob <- loadCanvas imageUrl;;
  match blob with
  | Some b => if (0 <? blob_size b)%nat then ret b
              else throw "Canvas to blob failed"
  | None => throw "Canvas to blob failed"
  end.

(** The [for (attempt = 0; attempt < maxRetries; attempt++)] loop of
    [processImageForZip]; [remaining] is [maxRetries - attempt]. *)
Fixpoint zipAttempts (imageUrl : string) (index : nat) (maxRetries : nat)
    (attempt remaining : nat) (lastError : option string) : M World Blob :=
  match remaining with
  | O =>
      throw (default ("Failed to process image " +:+ Js.string_of_nat (index + 1))
               lastError)
  | S k =>
      try_catch
        ((if (0 <? attempt)%nat then sleep env (1000 * Z.of_nat attempt)
          else ret tt);;;
         response <- fetch env (ReqCors imageUrl);;
         if res_ok response then
           match validateImageBlob (res_blob response) with
           | None => ret (res_blob response)
           | Some error => throw error
           end
         else throw ("HTTP " +:+ Js.string_of_nat (res_status response)))
        (fun message =>
           let next :=
             zipAttempts imageUrl index maxRetries (S attempt) k (Some message) in
           if (attempt =? maxRetries - 1)%nat && Js.includes message "CORS"
           then try_catch (getImageBlobViaCanvas imageUrl) (fun _ => next)
           else next)
  end.

Definition processImageForZip (imageUrl : string) (index : nat) : M World Blob :=
  zipAttempts imageUrl index 3 0 3 None.

(** The zip folder and [successCount]. *)
Definition ZipState : Type := gmap string Blob * nat.

(** The filing of the results of a batch. *)
Fixpoint fileResults (i totalImages : nat) (results : list (result Blob))
    (z : ZipState) : M World ZipState :=
  match results with
  | [] => ret z
  | r :: rest =>
      let z' := match r with
                | Returned blob => (<[zipName i := blob]> z.1, S z.2)
                | Thrown _ => z
                end in
      ui (UpdateLoading
            ("Đã xử lý " +:+ Js.string_of_nat (i + 1) +:+ "/"
             +:+ Js.string_of_nat totalImages +:+ " ảnh ("
             +:+ Js.string_of_nat (progress i totalImages) +:+ "%)"));;;
      fileResults (S i) totalImages rest z'
  end.

(** [Promise.allSettled] on the images of a batch.  The images are
    processed here one after the other; in the browser the requests and
    pauses of the three are interleaved, which the log of this model
    does not show. *)
Fixpoint settleAll (i : nat) (batch : list string) : M World (list (result Blob)) :=
  match batch with
  | [] => ret []
  | imageUrl :: rest =>
      r <- settle (processImageForZip imageUrl i);;
      rs <- settleAll (S i) rest;;
      ret (r :: rs)
  end.

Fixpoint zipLoop (i totalImages : nat) (bs : list (list string)) (z : ZipState)
  : M World ZipState :=
  match bs with
  | [] => ret z
  | batch :: rest =>
      results <- settleAll i batch;;
      z' <- fileResults i totalImages results z;;
      (if (i + Constants.CONCURRENT_DOWNLOADS <? totalImages)%nat
       then sleep env 500 else ret tt);;;
      zipLoop (i + Constants.CONCURRENT_DOWNLOADS) totalImages rest z'
  end.

Definition downloadAllImagesAsZip (images : list string) : M World unit :=
  match images with
  | [] => throw "No images to download"
  | _ =>
      let totalImages := List.length images in
      try_finally
        (try_catch
           (ui (ShowLoading "Đang tạo file ZIP...");;;
            ui (Toast ("Bắt đầu tải " +:+ Js.string_of_nat totalImages
                       +:+ " ảnh...") "info");;;
            z <- zipLoop 0 totalImages (batches images) (∅, O);;
            if (z.2 =? 0)%nat then throw archiveEmpty
            else
              filename <- generateFilename env "tiktok_images" "zip";;
              dom env (SaveArchive filename z.1);;;
              ui (Toast ("Tải thành công " +:+ Js.string_of_nat z.2 +:+ "/"
                         +:+ Js.string_of_nat totalImages +:+ " ảnh trong file ZIP!")
                    "success"))
           (fun error =>
              ui (Toast "Không thể tạo ZIP. Vui lòng sử dụng tải từng ảnh."
                    "warning");;;
              throw error))
        (log (EvUi HideLoading))
  end.

End WithEnv.
End ImageDownloader.

(** ** download.js *)

Module DownloadManager.
Import Utils.

Section WithEnv.
Variable env : Env.

Definition downloadSingleImage (imageUrl : string) (index : nat) : M World unit :=
  try_catch (ImageDownloader.downloadSingleImage env imageUrl index)
    (fun _ => ui (Toast "Không thể tải ảnh. Vui lòng thử lại." "error")).

(** The [for] loop of [downloadAllImagesIndividually]; [i] is the index
    of the head of [images] and [n] is [currentData.images.length]. *)
Fixpoint individualLoop (i n : nat) (images : list string) : M World unit :=
  match images with
  | [] => ret tt
  | imageUrl :: rest =>
      try_catch
        (downloadSingleImage imageUrl i;;;
         if (i <? n - 1)%nat then sleep env 500 else ret tt)
        (fun _ => ret tt);;;
      individualLoop (S i) n rest
  end.

(** [currentData] is what [window.tikTokDownloader?.getCurrentData()]
    returns; [None] stands for no record or a record without images. *)
Definition downloadAllImagesIndividually (currentImages : option (list string))
  : M World unit :=
  try_catch
    match currentImages with
    | None | Some [] => ui (Toast "Không có ảnh để tải xuống" "warning")
    | Some images =>
        let totalImages := List.length images in
        ui (Toast ("Bắt đầu tải " +:+ Js.string_of_nat totalImages
                   +:+ " ảnh lần lượt...") "info");;;
        individualLoop 0 totalImages images;;;
        ui (Toast ("Đã tải xong " +:+ Js.string_of_nat totalImages +:+ " ảnh!")
              "success")
    end
    (fun error =>
       ui (Toast (Js.or_else error "Không thể tải ảnh. Vui lòng thử lại.")
             "error")).

End WithEnv.
End DownloadManager.

(** ** api.js: the records *)

(** The four media URLs of a payload ([play], [hdplay], [wmplay], [music]). *)
Record MediaUrls : Type := {
  u_play : string;
  u_hdplay : string;
  u_wmplay : string;
  u_music : string
}.

(** [tikvidUrls]: a key is set only when the provider has the entry. *)
Record DownloadUrls : Type := {
  dl_hdplay : option string;
  dl_play : option string;
  dl_wmplay : option string;
  dl_music : option string
}.

(** [combined.tikvidData] (the entries that are copied through unread,
    [directVideoLinks], [downloadCount], [photoCount], [convertVideoData]
    and [scriptVars], are left out). *)
Record TikVidSection : Type := {
  ts_downloads : list Download;
  ts_photoList : list Photo;
  ts_videoPreview : string;
  ts_downloadUrls : DownloadUrls;
  ts_imageDownloadLinks : option (list Photo)
}.

Record Metadata : Type := {
  hasHDVideo : bool;
  hasWatermarkFree : bool;
  source : string;
  downloadMode : option string;
  note : option string;
  hasHighQualityDownloads : option bool;
  originalUrl : option string
}.

(** The record [fetchVideoData] returns: the normalized TikWM payload,
    plus what the fusion adds to it. *)
Record MediaRecord : Type := {
  id : string;
  title : string;
  cover : string;
  play : string;
  hdplay : string;
  wmplay : string;
  music : string;
  author : option Author;
  music_info : option MusicInfo;
  images : list string;
  isPhotoSlideshow : bool;
  metadata : Metadata;
  originalUrls : option MediaUrls;
  tikvidData : option TikVidSection
}.

(** The normalized TikVid payload.  [normalizeTikVidData] does not copy
    [thumbnail] and [poster]: they only exist on a payload built by hand. *)
Record TikVidData : Type := {
  tv_id : string;
  tv_title : string;
  tv_cover : string;
  tv_thumbnail : string;
  tv_poster : string;
  tv_videoPreview : string;
  tv_downloads : list Download;
  tv_photoList : list Photo;
  tv_videoQualities : DownloadUrls;
  tv_audioUrl : string
}.

Record CacheEntry : Type := { data : MediaRecord; timestamp : Z }.

(** The fields of an [APIManager] that the functions below use, and the
    world it runs in. *)
Record ApiState : Type := {
  world : World;
  requestCache : JsMap.t string CacheEntry;
  lastRequestTime : Z;
  requestTimestamps : list Z
}.

Module Api.
Import Utils.

Definition cacheTimeout : Z := 5 * 60 * 1000.

Definition set_world (f : World -> World) (s : ApiState) : ApiState :=
  {| world := f (world s); requestCache := requestCache s;
     lastRequestTime := lastRequestTime s;
     requestTimestamps := requestTimestamps s |}.

Definition set_cache (f : JsMap.t string CacheEntry -> JsMap.t string CacheEntry)
    (s : ApiState) : ApiState :=
  {| world := world s; requestCache := f (requestCache s);
     lastRequestTime := lastRequestTime s;
     requestTimestamps := requestTimestamps s |}.

Definition set_timestamps (f : list Z -> list Z) (s : ApiState) : ApiState :=
  {| world := world s; requestCache := requestCache s;
     lastRequestTime := lastRequestTime s;
     requestTimestamps := f (requestTimestamps s) |}.

Definition set_lastRequestTime (t : Z) (s : ApiState) : ApiState :=
  {| world := world s; requestCache := requestCache s;
     lastRequestTime := t;
     requestTimestamps := requestTimestamps s |}.

(** A computation on the world, run by the manager. *)
Definition liftW {A} (m : M World A) : M ApiState A :=
  fun s => let '(r, w) := m (world s) in (r, set_world (fun _ => w) s).

(** *** The response cache *)

(** [getFromCache(url)] at time [now]: the value and the cache left. *)
Definition cacheLookup (now : Z) (url : string) (c : JsMap.t string CacheEntry)
  : option MediaRecord * JsMap.t string CacheEntry :=
  match JsMap.get url c with
  | Some cached =>
      if now - timestamp cached <? cacheTimeout then (Some (data cached), c)
      else (None, JsMap.delete url c)
  | None => (None, c)
  end.

(** [saveToCache(url, data)] at time [now]. *)
Definition cacheStore (now : Z) (url : string) (d : MediaRecord)
    (c : JsMap.t string CacheEntry) : JsMap.t string CacheEntry :=
  let c' := JsMap.set url {| data := d; timestamp := now |} c in
  if (50 <? JsMap.size c')%nat then
    match JsMap.first_key c' with
    | Some firstKey => JsMap.delete firstKey c'
    | None => c'
    end
  else c'.

Definition getFromCache (url : string) : M ApiState (option MediaRecord) :=
  fun s =>
    let '(r, c) := cacheLookup (clock (world s)) url (requestCache s) in
    (Returned r, set_cache (fun _ => c) s).

Definition saveToCache (url : string) (d : MediaRecord) : M ApiState unit :=
  modify (fun s => set_cache (cacheStore (clock (world s)) url d) s).

(** [cleanUrl(url)]: the four deletions rewrite the query even when they
    remove nothing. *)
Definition cleanUrl (url : string) : string :=
  match Url.parse url with
  | Some urlObj =>
      Url.toString
        (List.fold_left (fun u param => Url.searchParams_delete param u)
           ["_r"; "u_code"; "preview_pb"; "is_copy_url"] urlObj)
  | None => url
  end.

(** *** Normalization of the providers' payloads *)

Definition defaultAuthor : Author := {| nickname := "TikTok User" |}.

(** [x?.nickname || 'TikTok User'] *)
Definition nicknameOr (a : option Author) : string :=
  Js.or_else (match a with Some a => nickname a | None => "" end) "TikTok User".

Definition normalizeTikwmData (d : RawTikwm) : MediaRecord :=
  let hdVideoUrl := Js.or_else (rw_hdplay d) (rw_play d) in
  let standardVideoUrl := rw_play d in
  let wmFreeUrl := Js.or_else (rw_wmplay d) hdVideoUrl in
  {| id := rw_id d;
     title := Js.or_else (rw_title d) "TikTok Video";
     cover := rw_cover d;
     play := standardVideoUrl;
     hdplay := hdVideoUrl;
     wmplay := wmFreeUrl;
     music := rw_music d;
     author := Some (default defaultAuthor (rw_author d));
     music_info :=
       match rw_music_info d with
       | Some mi => Some mi
       | None =>
           if Js.truthy (rw_music d) && negb (String.eqb (rw_music d) "#") then
             Some {| mi_id := Js.or_else (rw_id d) "music_1";
                     mi_title := "Original Sound";
                     mi_author := nicknameOr (rw_author d);
                     mi_play := rw_music d;
                     mi_cover := rw_cover d;
                     mi_duration := 0;
                     mi_original := Some false;
                     mi_quality := None |}
           else None
       end;
     images := rw_images d;
     isPhotoSlideshow := negb (Nat.eqb (List.length (rw_images d)) 0);
     metadata :=
       {| hasHDVideo := Js.truthy hdVideoUrl
                        && negb (String.eqb hdVideoUrl standardVideoUrl);
          hasWatermarkFree := Js.truthy wmFreeUrl
                        && negb (String.eqb wmFreeUrl standardVideoUrl);
          source := "tikwm";
          downloadMode := None;
          note := None;
          hasHighQualityDownloads := None;
          originalUrl := None |};
     originalUrls := None;
     tikvidData := None |}.

Definition isVideo (d : Download) : bool := String.eqb (d_type d) "video".
Definition isAudio (d : Download) : bool := String.eqb (d_type d) "audio".
Definition isHD (d : Download) : bool := Js.includes (d_quality d) "HD".
Definition isStandard (d : Download) : bool := Js.includes (d_quality d) "[1]".
Definition isWatermarkFree (d : Download) : bool := Js.includes (d_quality d) "[2]".

(** The [forEach] of [normalizeTikVidData]: a later entry of a kind
    overwrites an earlier one. *)
Definition organize (q : DownloadUrls) (video : Download) : DownloadUrls :=
  if isHD video then
    {| dl_hdplay := Some (d_url video); dl_play := dl_play q;
       dl_wmplay := dl_wmplay q; dl_music := dl_music q |}
  else if isStandard video then
    {| dl_hdplay := dl_hdplay q; dl_play := Some (d_url video);
       dl_wmplay := dl_wmplay q; dl_music := dl_music q |}
  else if isWatermarkFree video then
    {| dl_hdplay := dl_hdplay q; dl_play := dl_play q;
       dl_wmplay := Some (d_url video); dl_music := dl_music q |}
  else q.

Definition noUrls : DownloadUrls :=
  {| dl_hdplay := None; dl_play := None; dl_wmplay := None; dl_music := None |}.

Definition normalizeTikVidData (d : RawTikVid) : TikVidData :=
  let videoDownloads := List.filter isVideo (rv_downloads d) in
  let audioDownloads := List.filter isAudio (rv_downloads d) in
  {| tv_id := rv_id d;
     tv_title := Js.or_else (rv_title d) "TikTok Video";
     tv_cover := Js.or_else (rv_thumbnail d) (rv_poster d);
     tv_thumbnail := "";
     tv_poster := "";
     tv_videoPreview := rv_videoPreview d;
     tv_downloads := rv_downloads d;
     tv_photoList := rv_photoList d;
     tv_videoQualities := List.fold_left organize videoDownloads noUrls;
     tv_audioUrl := match audioDownloads with a :: _ => d_url a | [] => "" end |}.

(** *** The fusion *)

Definition urlsOf (r : MediaRecord) : MediaUrls :=
  {| u_play := play r; u_hdplay := hdplay r; u_wmplay := wmplay r;
     u_music := music r |}.

(** [tikvidUrls] of [combineMetadataAndDownloads]. *)
Definition tikvidUrlsOf (downloads : list Download) : DownloadUrls :=
  let videoDownloads := List.filter isVideo downloads in
  let audioDownloads := List.filter isAudio downloads in
  {| dl_hdplay := d_url <$> List.find isHD videoDownloads;
     dl_play := d_url <$> List.find isStandard videoDownloads;
     dl_wmplay := d_url <$> List.find isWatermarkFree videoDownloads;
     dl_music := d_url <$> List.head audioDownloads |}.

(** [o.key || ''] for a key that may be unset. *)
Definition valueOf (o : option string) : string := default "" o.

(** [tikwmData.music_info && tikwmData.music_info.play] *)
Definition playableMusicInfo (r : MediaRecord) : option MusicInfo :=
  match music_info r with
  | Some mi => if Js.truthy (mi_play mi) then Some mi else None
  | None => None
  end.

(** The [music_info] of the fused record. *)
Definition combineMusicInfo (tikwmData : MediaRecord) (tikvidData : TikVidData)
    (tikvidUrls : DownloadUrls) : option MusicInfo :=
  match playableMusicInfo tikwmData with
  | Some mi =>
      Some {| mi_id := Js.or_else (mi_id mi) (Js.or_else (tv_id tikvidData) "music_1");
              mi_title := Js.or_else (mi_title mi) "Original Sound";
              mi_author := Js.or_else (mi_author mi) (nicknameOr (author tikwmData));
              mi_play := mi_play mi;
              mi_cover := Js.or_else (mi_cover mi)
                            (Js.or_else (cover tikwmData) (tv_thumbnail tikvidData));
              mi_duration := mi_duration mi;
              mi_original := Some (default false (mi_original mi));
              mi_quality := None |}
  | None =>
      match List.find isAudio (tv_downloads tikvidData) with
      | Some audioDownload =>
          Some {| mi_id := Js.or_else (tv_id tikvidData) "music_1";
                  mi_title := Js.or_else (title tikwmData)
                                (Js.or_else (tv_title tikvidData) "Background Music");
                  mi_author := nicknameOr (author tikwmData);
                  mi_play := d_url audioDownload;
                  mi_cover := Js.or_else (cover tikwmData)
                                (Js.or_else (tv_thumbnail tikvidData)
                                            (tv_poster tikvidData));
                  mi_duration := 0;
                  mi_original := None;
                  mi_quality := Some (Js.or_else (d_quality audioDownload) "MP3") |}
      | None =>
          let bestAudioUrl :=
            Js.or_else (valueOf (dl_music tikvidUrls)) (music tikwmData) in
          if Js.truthy bestAudioUrl && negb (String.eqb bestAudioUrl "#") then
            Some {| mi_id := Js.or_else (tv_id tikvidData) "music_1";
                    mi_title := Js.or_else (title tikwmData) "Original Sound";
                    mi_author := nicknameOr (author tikwmData);
                    mi_play := bestAudioUrl;
                    mi_cover := Js.or_else (cover tikwmData) (tv_thumbnail tikvidData);
                    mi_duration := 0;
                    mi_original := None;
                    mi_quality := None |}
          else None
      end
  end.

(** [combineMetadataAndDownloads(tikwmData, tikvidData, originalUrl)];
    the key [combinedAt], a time stamp nobody reads, is left out. *)
Definition combineMetadataAndDownloads (tikwmData : MediaRecord)
    (tikvidData : TikVidData) (originalUrl : string) : MediaRecord :=
  let originalTikwmUrls := urlsOf tikwmData in
  let tikvidUrls := tikvidUrlsOf (tv_downloads tikvidData) in
  let slideshow := negb (Nat.eqb (List.length (tv_photoList tikvidData)) 0) in
  {| id := id tikwmData;
     title := title tikwmData;
     cover := cover tikwmData;
     play := play tikwmData;
     hdplay := hdplay tikwmData;
     wmplay := wmplay tikwmData;
     music := music tikwmData;
     author := author tikwmData;
     music_info := combineMusicInfo tikwmData tikvidData tikvidUrls;
     images := if slideshow then List.map p_thumbnail (tv_photoList tikvidData)
               else images tikwmData;
     isPhotoSlideshow := if slideshow then true else isPhotoSlideshow tikwmData;
     metadata :=
       {| hasHDVideo := hasHDVideo (metadata tikwmData);
          hasWatermarkFree := hasWatermarkFree (metadata tikwmData);
          source := "hybrid_tikwm_tikvid";
          downloadMode := downloadMode (metadata tikwmData);
          note := note (metadata tikwmData);
          hasHighQualityDownloads :=
            Some (negb (Nat.eqb (List.length (tv_downloads tikvidData)) 0));
          originalUrl := Some originalUrl |};
     originalUrls := Some originalTikwmUrls;
     tikvidData :=
       Some {| ts_downloads := tv_downloads tikvidData;
               ts_photoList := tv_photoList tikvidData;
               ts_videoPreview := tv_videoPreview tikvidData;
               ts_downloadUrls := tikvidUrls;
               ts_imageDownloadLinks :=
                 if slideshow then Some (tv_photoList tikvidData) else None |} |}.

(** [metadataData.metadata = { ...metadataData.metadata, downloadMode, source,
    note }] *)
Definition markMetadata (mode src nt : string) (r : MediaRecord) : MediaRecord :=
  {| id := id r; title := title r; cover := cover r; play := play r;
     hdplay := hdplay r; wmplay := wmplay r; music := music r;
     author := author r; music_info := music_info r; images := images r;
     isPhotoSlideshow := isPhotoSlideshow r;
     metadata :=
       {| hasHDVideo := hasHDVideo (metadata r);
          hasWatermarkFree := hasWatermarkFree (metadata r);
          source := src;
          downloadMode := Some mode;
          note := Some nt;
          hasHighQualityDownloads := hasHighQualityDownloads (metadata r);
          originalUrl := originalUrl (metadata r) |};
     originalUrls := originalUrls r;
     tikvidData := tikvidData r |}.

Definition proxyFallback : MediaRecord -> MediaRecord :=
  markMetadata "proxy_fallback" "tikwm_with_proxy_fallback"
    "TikVid proxy unavailable, downloads will try proxy then direct".

Definition tikwmFallback : MediaRecord -> MediaRecord :=
  markMetadata "fallback" "tikwm_fallback"
    "Fallback mode: TikWM only with proxy attempts".

(** [validateApiResponse(data)] of validators.js: the error, if any. *)
Definition validateApiResponse (d : MediaRecord) : option string :=
  if negb (Validators.isNotEmpty (title d)) then Some "Dữ liệu video không đầy đủ"
  else if Js.truthy (play d) && negb (Validators.isValidUrl (play d))
  then Some "Link video không hợp lệ"
  else if Js.truthy (music d) && negb (Validators.isValidUrl (music d))
  then Some "Link audio không hợp lệ"
  else if negb (Nat.eqb (List.length
                  (List.filter (fun img => negb (Validators.isValidUrl img))
                     (images d))) 0)
  then Some "Một số link hình ảnh không hợp lệ"
  else None.

Section WithEnv.
Variable env : Env.

(** *** The rate limiter *)

Definition waitForRateLimit : M ApiState unit :=
  now <- gets (fun s => clock (world s));;
  lastRequest <- gets lastRequestTime;;
  let timeSinceLastRequest := now - lastRequest in
  (if timeSinceLastRequest <? Constants.MIN_INTERVAL
   then liftW (sleep env (Constants.MIN_INTERVAL - timeSinceLastRequest))
   else ret tt);;;
  modify (set_timestamps
            (List.filter (fun timestamp => now - timestamp <? 60000)));;;
  stamps <- gets requestTimestamps;;
  (if (Constants.MAX_REQUESTS_PER_MINUTE <=? List.length stamps)%nat then
     match stamps with
     | oldestRequest :: _ =>
         let waitTime := 60000 - (now - oldestRequest) in
         if 0 <? waitTime then liftW (sleep env waitTime) else ret tt
     | [] => ret tt
     end
   else ret tt);;;
  now' <- gets (fun s => clock (world s));;
  modify (set_lastRequestTime now');;;
  modify (set_timestamps (fun stamps => (stamps ++ [now'])%list)).

(** *** The two fetchers *)

(** [await withTimeout(fetch(requestUrl, ...), API_CONFIG.TIMEOUT)] and
    [await response.json()] for one of the two APIs. *)
Definition call {D} (r : request)
    (api : World -> string -> Reply (ApiResponse D)) (url : string)
  : M World (ApiResponse D) :=
  fun w =>
    let w' := tick (Z.of_N (latency env w r)) (log (EvRequest r) w) in
    match api w url with
    | Rejected m => (Thrown m, w')
    | Resolved resp => (Returned resp, w')
    end.

Definition fetchFromTikWM (url : string) : M World MediaRecord :=
  response <- call (ReqTikWM url) (tikwm env) url;;
  if negb (api_ok response) then
    throw ("TikWM API error: " +:+ Js.string_of_nat (api_status response))
  else
    match api_body response with
    | MalformedJson m => throw m
    | Json true _ d => ret (normalizeTikwmData d)
    | Json false msg _ => throw (Js.or_else msg "TikWM API returned error")
    end.

Definition fetchFromTikVidProxy (url : string) : M World TikVidData :=
  response <- call (ReqTikVidProxy url) (tikvid env) url;;
  if negb (api_ok response) then
    throw ("TikVid proxy API error: " +:+ Js.string_of_nat (api_status response))
  else
    match api_body response with
    | MalformedJson m => throw m
    | Json true _ d => ret (normalizeTikVidData d)
    | Json false msg _ => throw (Js.or_else msg "TikVid proxy API returned error")
    end.

Definition fetchMetadata (url : string) : M ApiState MediaRecord :=
  waitForRateLimit;;;
  try_catch (liftW (fetchFromTikWM url))
            (fun _ => throw "TikWM metadata API failed").

Definition fetchDownloadLinks (url : string) : M ApiState TikVidData :=
  waitForRateLimit;;;
  try_catch (liftW (fetchFromTikVidProxy url))
            (fun _ => throw "TikVid download API failed").

(** *** [fetchVideoData] *)

Definition fetchVideoData (url : string) : M ApiState MediaRecord :=
  if negb (isValidTikTokUrl url) then throw Constants.INVALID_URL
  else
    let cleanUrl := cleanUrl url in
    cached <- getFromCache cleanUrl;;
    match cached with
    | Some d => ret d
    | None =>
        try_catch
          (metadataData <- fetchMetadata cleanUrl;;
           try_catch
             (downloadData <- fetchDownloadLinks cleanUrl;;
              let enhancedData :=
                combineMetadataAndDownloads metadataData downloadData cleanUrl in
              match validateApiResponse enhancedData with
              | Some error => throw error
              | None =>
                  saveToCache cleanUrl enhancedData;;;
                  ret enhancedData
              end)
             (fun _ =>
                saveToCache cleanUrl (proxyFallback metadataData);;;
                ret (proxyFallback metadataData)))
          (fun _ =>
             try_catch
               (fallbackData <- fetchMetadata cleanUrl;;
                saveToCache cleanUrl (tikwmFallback fallbackData);;;
                ret (tikwmFallback fallbackData))
               (fun message => throw (Js.or_else message Constants.API_ERROR)))
    end.

End WithEnv.
End Api.

(** ** The two sets of URLs of the specification

    The record has no fields called [previewUrls] and [downloadUrls]; they
    are read here off the fields in which the fusion stores them.  The
    preview URLs are the preserved [originalUrls], and the record's own
    fields when it has none.  The download URL of a kind is the one stored
    under [tikvidData.downloadUrls] when there is one, and the preview URL
    of the kind otherwise.  The buttons of display/video-preview.js start
    from the same fields and have further fallbacks from one kind to
    another (the standard button on the watermark-free URL of TikVid and on
    the list of downloads, the HD button on [getBestVideoUrl]), which are
    not part of these two projections. *)

Module Spec.

Definition previewUrls (r : MediaRecord) : MediaUrls :=
  default (Api.urlsOf r) (originalUrls r).

Definition downloadUrls (r : MediaRecord) : MediaUrls :=
  let p := previewUrls r in
  match tikvidData r with
  | Some t =>
      let d := ts_downloadUrls t in
      {| u_play := Js.or_else (Api.valueOf (dl_play d)) (u_play p);
         u_hdplay := Js.or_else (Api.valueOf (dl_hdplay d)) (u_hdplay p);
         u_wmplay := Js.or_else (Api.valueOf (dl_wmplay d)) (u_wmplay p);
         u_music := Js.or_else (Api.valueOf (dl_music d)) (u_music p) |}
  | None => p
  end.

End Spec.

(** ** Reading a log *)

Module Trace.

(** The transports of the media downloader, and the event that opens an
    attempt of each: the health probe for the proxy, the no-cors request
    for the direct fetch, the click on the anchor for the native link. *)
Inductive transport : Type := Proxy | DirectFetch | NativeLink.

Definition attemptOf (e : event) : option transport :=
  match e with
  | EvRequest ReqProxyHealth => Some Proxy
  | EvRequest (ReqNoCors _) => Some DirectFetch
  | EvDom (DirectLink _ _) => Some NativeLink
  | _ => None
  end.

Definition attempts (t : list event) : list transport := omap attemptOf t.

(** The steps of a sequential image download: an image is taken up (its
    first request, through the proxy), or the loop pauses. *)
Inductive step : Type := Item (imageUrl : string) | Pause (ms : Z).

Definition stepOf (e : event) : option step :=
  match e with
  | EvRequest (ReqProxyDownload imageUrl _) => Some (Item imageUrl)
  | EvSleep ms => Some (Pause ms)
  | _ => None
  end.

Definition steps (t : list event) : list step := omap stepOf t.

(** [x0; sep; x1; sep; ...; xn] *)
Fixpoint intersperse {A} (sep : A) (l : list A) : list A :=
  match l with
  | [] => []
  | [x] => [x]
  | x :: r => x :: sep :: intersperse sep r
  end.

(** The events of [w'] that [w] does not have yet. *)
Definition since (w w' : World) : list event :=
  List.skipn (List.length (trace w)) (trace w').

End Trace.

(** ** The method chain of the specification

    "Method chain, tried strictly in order, each wrapped in its own retry
    loop (2 attempts, 1000ms base delay, exponential backoff)": a method is
    attempted, after a failure it is attempted again 1000 ms later, after a
    second failure the next method has its turn, and the chain fails when
    the last method is exhausted. *)

Module SpecChain.
Section WithEnv.
Variable env : Env.

Definition twice (method next : M World unit) : M World unit :=
  try_catch method (fun _ =>
    Utils.sleep env 1000;;;
    try_catch method (fun _ => next)).

Definition chain (url filename : string) : M World unit :=
  twice (MediaDownloader.downloadViaTikVidProxy env url filename)
    (twice (MediaDownloader.downloadViaFetch env url filename)
       (twice (MediaDownloader.createDirectDownloadLink env url filename)
          (throw MediaDownloader.allMethodsFailed))).

(** The chain of the source: a method that is exhausted on a TikVid URL
    with a connection error ends the chain there. *)
Definition twiceGuarded (tikVidUrl : bool) (method next : M World unit)
  : M World unit :=
  try_catch method (fun _ =>
    Utils.sleep env 1000;;;
    try_catch method (fun message =>
      if tikVidUrl && MediaDownloader.connectionError message
      then throw MediaDownloader.tikvidUnavailable
      else next)).

Definition guardedChain (url filename : string) : M World unit :=
  let g := MediaDownloader.isTikVidUrl url in
  twiceGuarded g (MediaDownloader.downloadViaTikVidProxy env url filename)
    (twiceGuarded g (MediaDownloader.downloadViaFetch env url filename)
       (twiceGuarded g (MediaDownloader.createDirectDownloadLink env url filename)
          (throw MediaDownloader.allMethodsFailed))).

End WithEnv.
End SpecChain.

(** ** Sample payloads and environments *)

Module Examples.

Definition w0 : World := {| clock := 0; trace := [] |}.

Definition s0 : ApiState :=
  {| world := w0; requestCache := []; lastRequestTime := 0;
     requestTimestamps := [] |}.

Definition rawX : RawTikwm :=
  {| rw_id := "123";
     rw_title := "X";
     rw_cover := "https://p16.tiktokcdn.com/cover.jpg";
     rw_play := "https://v16.tikwm.com/play.mp4";
     rw_hdplay := "https://v16.tikwm.com/hdplay.mp4";
     rw_wmplay := "https://v16.tikwm.com/wmplay.mp4";
     rw_music := "https://sf16.tikwm.com/music.mp3";
     rw_author := Some {| nickname := "user" |};
     rw_music_info := None;
     rw_images := [] |}.

Definition hdEntry : Download :=
  {| d_type := "video"; d_quality := "MP4 HD";
     d_url := "https://dl.snapcdn.app/get?token=hd" |}.

Definition rawLinks : RawTikVid :=
  {| rv_id := "123";
     rv_title := "X";
     rv_thumbnail := "";
     rv_poster := "";
     rv_videoPreview := "";
     rv_downloads :=
       [ {| d_type := "video"; d_quality := "MP4 [1]";
            d_url := "https://dl.snapcdn.app/get?token=sd" |};
         hdEntry;
         {| d_type := "audio"; d_quality := "MP3";
            d_url := "https://dl.snapcdn.app/get?token=mp3" |} ];
     rv_photoList := [] |}.

Definition okJson {D} (d : D) : Reply (ApiResponse D) :=
  Resolved {| api_ok := true; api_status := 200; api_body := Json true "" d |}.

Definition blobResponse (size : nat) (type : string) : Response :=
  {| res_ok := true; res_status := 200; res_statusText := "OK"; res_text := "";
     res_blob := {| blob_size := size; blob_type := type |} |}.

(** What a no-cors request resolves with: an opaque response. *)
Definition opaqueResponse (size : nat) : Response :=
  {| res_ok := false; res_status := 0; res_statusText := ""; res_text := "";
     res_blob := {| blob_size := size; blob_type := "" |} |}.

Definition notFound : Response :=
  {| res_ok := false; res_status := 404; res_statusText := "Not Found";
     res_text := ""; res_blob := {| blob_size := 0; blob_type := "" |} |}.

(** An environment with punctual timers, an instantaneous network and a
    browser that does not throw. *)
Definition mkEnv (metadata : Reply (ApiResponse RawTikwm))
    (links : Reply (ApiResponse RawTikVid))
    (answer : request -> Reply Response) : Env :=
  {| timer_lateness := fun _ => 0%N;
     latency := fun _ _ => 0%N;
     tikwm := fun _ _ => metadata;
     tikvid := fun _ _ => links;
     http := fun _ => answer;
     canvas := fun _ _ => Rejected "Image load failed";
     dom_throws := fun _ _ => None;
     random_id := fun _ => "a1b2c";
     is_mobile := false |}.

(** Metadata answers, the download-link provider times out. *)
Definition envDegraded : Env :=
  mkEnv (okJson rawX) (Rejected "Timeout after 15000ms")
        (fun _ => Rejected "Failed to fetch").

(** Both providers answer. *)
Definition envHealthy : Env :=
  mkEnv (okJson rawX) (okJson rawLinks) (fun _ => Rejected "Failed to fetch").

(** The proxy is healthy but serves empty bodies; the direct fetch gets an
    empty opaque response, then 404. *)
Definition envEmpty404 : Env :=
  mkEnv (okJson rawX) (okJson rawLinks)
    (fun r =>
       match r with
       | ReqProxyHealth => Resolved (blobResponse 2 "application/json")
       | ReqProxyDownload _ _ => Resolved (blobResponse 0 "")
       | ReqNoCors _ => Resolved (opaqueResponse 0)
       | _ => Resolved notFound
       end).

(** Nothing can be reached. *)
Definition envOffline : Env :=
  mkEnv (Rejected "Failed to fetch") (Rejected "Failed to fetch")
        (fun _ => Rejected "Failed to fetch").

Definition tikvidTarget : string := "https://dl.snapcdn.app/get?token=hd".

Definition fiveImages : list string :=
  [ "https://p16.tiktokcdn.com/1.jpg"; "https://p16.tiktokcdn.com/2.jpg";
    "https://p16.tiktokcdn.com/3.jpg"; "https://p16.tiktokcdn.com/4.jpg";
    "https://p16.tiktokcdn.com/5.jpg" ].

(** The second and the fourth image are gone; the others are served. *)
Definition envImages : Env :=
  mkEnv (okJson rawX) (okJson rawLinks)
    (fun r =>
       match r with
       | ReqCors url =>
           if String.eqb url "https://p16.tiktokcdn.com/2.jpg"
              || String.eqb url "https://p16.tiktokcdn.com/4.jpg"
           then Resolved notFound
           else Resolved (blobResponse 1000 "image/jpeg")
       | _ => Rejected "Failed to fetch"
       end).

(** Fifty-one keys, all different. *)
Definition manyKeys : list string :=
  List.map (fun n => "https://www.tiktok.com/@user/video/" +:+ Js.string_of_nat n)
           (List.seq 1 51).

End Examples.

(** ** Vocabulary of the statements *)

(** [d] is the first element of [l] that satisfies [p]: what
    [l.find(p)] returns. *)
Definition firstWith {A} (p : A -> bool) (l : list A) (d : A) : Prop :=
  exists pre post,
    l = (pre ++ d :: post)%list /\ p d = true /\ forall x, x ∈ pre -> p x = false.

(** A run of [saveToCache] calls, one per entry (key, value, time). *)
Definition storeAll (entries : list (string * MediaRecord * Z))
    (c : JsMap.t string CacheEntry) : JsMap.t string CacheEntry :=
  List.fold_left (fun c e => Api.cacheStore e.2 e.1.1 e.1.2 c) entries c.

(** Time passes: [d] milliseconds during which the manager does nothing. *)
Definition elapse (d : Z) (s : ApiState) : ApiState := Api.set_world (tick d) s.

(** A run of fetches by one manager, each in its environment and begun
    [d] milliseconds after the previous one returned: the state at the
    end. *)
Fixpoint fetches (steps : list (Env * string * Z)) (s : ApiState) : ApiState :=
  match steps with
  | [] => s
  | (env, url, d) :: rest =>
      fetches rest (Api.fetchVideoData env url (elapse d s)).2
  end.

(** In every world, [m] adds to the log a list of events that, together
    with the outcome of [m], satisfies [R]. *)
Definition emits {A} (m : M World A) (R : result A -> list event -> Prop) : Prop :=
  forall w, exists ev, trace (m w).2 = (trace w ++ ev)%list /\ R (m w).1 ev.





(** A blob was handed to the browser for saving. *)
Definition saved (ev : list event) : Prop :=
  exists filename blob, EvDom (SaveBlob filename blob) ∈ ev.

(** The sequences of attempts of [downloadMedia]: a success of the proxy
    (first or second attempt), of the direct fetch, of the native link in
    the chain, or the native link of the failure handler after the chain
    ended (on the guard or exhausted). *)
Definition mediaAttempts : list (list Trace.transport) :=
  let P := Trace.Proxy in
  let F := Trace.DirectFetch in
  let L := Trace.NativeLink in
  [ [P]; [P; P]; [P; P; F]; [P; P; F; F]; [P; P; F; F; L]; [P; P; F; F; L; L];
    [P; P; L]; [P; P; F; F; L; L; L] ].

(** The click on the anchor that [createDirectDownloadLink] builds. *)
Definition linkEvent (url filename : string) : event :=
  EvDom (DirectLink url filename).

(** Fifty-one cache entries with different keys. *)
Definition manyEntries : list (string * MediaRecord * Z) :=
  List.map (fun k => (k, Api.normalizeTikwmData Examples.rawX, 0)) Examples.manyKeys.

(** * The rest of the modules

    The functions of the same files that the properties of the second part
    are about. *)

(** ** utils.js: file names and durations *)

Module Utility.

(** One character per code unit: the text on which [length], [substring]
    and the character classes are modelled below. *)
Definition isAscii (s : string) : bool :=
  Url.forallb_string (fun c => (nat_of_ascii c <? 128)%nat) s.

Definition doubleQuote : ascii := ascii_of_nat 34.

(** The class of [REGEX_PATTERNS.FILENAME_SANITIZE]: the angle brackets,
    the colon, the double quote, the two slashes, the bar, the question
    mark and the star. *)
Definition FILENAME_SANITIZE (c : ascii) : bool :=
  existsb (Ascii.eqb c)
    ["<"; ">"; ":"; doubleQuote; "/"; "\"; "|"; "?"; "*"]%char.

(** [s.replace(/[class]/g, by)] for a one-character replacement. *)
Fixpoint replaceClass (class : ascii -> bool) (by_ : ascii) (s : string) : string :=
  match s with
  | EmptyString => EmptyString
  | String c r =>
      String (if class c then by_ else c) (replaceClass class by_ r)
  end.

(** [s.replace(/\s+/g, by)]: a run of white space becomes one [by];
    [inRun] tells that the previous character was white space. *)
Fixpoint replaceRuns (by_ : ascii) (inRun : bool) (s : string) : string :=
  match s with
  | EmptyString => EmptyString
  | String c r =>
      if Js.is_space c then
        if inRun then replaceRuns by_ true r
        else String by_ (replaceRuns by_ true r)
      else String c (replaceRuns by_ false r)
  end.

(** [sanitizeFilename(filename)] *)
Definition sanitizeFilename (filename : string) : string :=
  if negb (Js.truthy filename) then "download"
  else
    String.substring 0 100
      (replaceRuns "_" false (replaceClass FILENAME_SANITIZE "_" filename)).

(** [secs.toString().padStart(2, '0')] *)
Definition padStart2 (s : string) : string :=
  if (String.length s <? 2)%nat then "0" +:+ s else s.

(** [formatDuration(seconds)] for a whole number of seconds, which is what
    the metadata provider sends, below 2^53.  The code computes in doubles:
    there the remainder is exact, and the quotient [seconds / 60] is the
    double nearest to [k + r / 60] with [k < 2^48] and [r < 60]; that double
    is below [k + 1], which is at least 1/60 away while doubles under 2^48
    are at most 1/32 apart, so that [Math.floor] gives [k].  From 2^53 on
    the computation in doubles and this one part. *)
Definition formatDuration (seconds : Z) : string :=
  if (seconds =? 0) || (seconds <=? 0) then "N/A"
  else
    let mins := seconds / 60 in
    let secs := seconds mod 60 in
    Js.string_of_nat (Z.to_nat mins) +:+ ":"
    +:+ padStart2 (Js.string_of_nat (Z.to_nat secs)).

End Utility.

(** ** validators.js: the other validators *)

Module Validation.

(** [validateVideoData(data)]: the error, if any. *)
Definition validateVideoData (data : MediaRecord) : option string :=
  match Api.validateApiResponse data with
  | Some error => Some error
  | None =>
      if negb (Js.truthy (play data)) && negb (Js.truthy (hdplay data))
      then Some "Không tìm thấy link video"
      else None
  end.

(** [validateImageData(data)]: the error, if any. *)
Definition validateImageData (data : MediaRecord) : option string :=
  match Api.validateApiResponse data with
  | Some error => Some error
  | None =>
      match images data with
      | [] => Some "Không tìm thấy hình ảnh"
      | _ => None
      end
  end.

(** [determineFileType(url, filename)] *)
Definition determineFileType (url filename : string) : string :=
  let checkString := Js.toLowerCase (Js.or_else filename url) in
  if Js.includes checkString ".mp4" || Js.includes checkString "video"
  then "video"
  else if Js.includes checkString ".mp3" || Js.includes checkString "audio"
          || Js.includes checkString "music"
  then "audio"
  else if Js.includes checkString ".jpg" || Js.includes checkString ".jpeg"
          || Js.includes checkString ".png" || Js.includes checkString ".webp"
          || Js.includes checkString "image"
  then "image"
  else "unknown".

Record DownloadValidation : Type := {
  dv_isValid : bool;
  dv_error : option string;
  dv_type : option string
}.

Definition rejected (error : string) : DownloadValidation :=
  {| dv_isValid := false; dv_error := Some error; dv_type := None |}.

(** [validateDownloadUrl(url, filename)] on a string. *)
Definition validateDownloadUrl (url filename : string) : DownloadValidation :=
  if negb (Validators.isNotEmpty url) then rejected "URL tải xuống không hợp lệ"
  else if String.eqb url "#" || String.eqb url "javascript:void(0)"
          || String.eqb url "undefined" || String.eqb url "null"
  then rejected "URL tải xuống không khả dụng"
  else if String.eqb (Js.trim url) "" || String.eqb (Js.toLowerCase url) "null"
          || String.eqb (Js.toLowerCase url) "undefined"
  then rejected "URL tải xuống trống hoặc không hợp lệ"
  else if negb (Validators.isValidUrl url) then rejected "Format URL không hợp lệ"
  else {| dv_isValid := true; dv_error := None;
          dv_type := Some (determineFileType url filename) |}.

(** [isValidFilename(filename)]; its class [invalidChars] is the one of
    [FILENAME_SANITIZE]. *)
Definition isValidFilename (filename : string) : bool :=
  if negb (Validators.isNotEmpty filename) then false
  else if negb (Url.forallb_string (fun c => negb (Utility.FILENAME_SANITIZE c))
                  filename)
  then false
  else if (255 <? String.length filename)%nat then false
  else true.

(** [s.replace(/c/g, by)] *)
Fixpoint replaceAll (c : ascii) (by_ : string) (s : string) : string :=
  match s with
  | EmptyString => EmptyString
  | String d r =>
      if Ascii.eqb d c then by_ +:+ replaceAll c by_ r
      else String d (replaceAll c by_ r)
  end.

(** [sanitizeText(text)] *)
Definition sanitizeText (text : string) : string :=
  replaceAll "/" "&#x2F;"
    (replaceAll "'" "&#x27;"
       (replaceAll Utility.doubleQuote "&quot;"
          (replaceAll ">" "&gt;"
             (replaceAll "<" "&lt;" text)))).

Record MediaValidation : Type := {
  mv_isValid : bool;
  mv_error : option string;
  mv_size : nat;
  mv_type : option string
}.

(** [validateMediaBlob(blob, expectedType)] on a blob; the first test, of a
    value that is no blob, is left out. *)
Definition validateMediaBlob (blob : Blob) (expectedType : string)
  : MediaValidation :=
  if (blob_size blob =? 0)%nat then
    {| mv_isValid := false; mv_error := Some "File media trống"; mv_size := 0;
       mv_type := None |}
  else
    let type :=
      if Js.startsWith (blob_type blob) "video/" then "video"
      else if Js.startsWith (blob_type blob) "audio/" then "audio"
      else if Js.startsWith (blob_type blob) "image/" then "image"
      else "unknown" in
    if negb (String.eqb expectedType "any") && negb (String.eqb type expectedType)
    then
      {| mv_isValid := false;
         mv_error := Some ("Kiểu file không đúng. Mong đợi: " +:+ expectedType
                           +:+ ", nhận được: " +:+ type);
         mv_size := 0; mv_type := Some type |}
    else
      {| mv_isValid := true; mv_error := None; mv_size := blob_size blob;
         mv_type := Some type |}.

End Validation.

(** ** api.js: choosing a video URL *)

Module ApiManager.

(** [getBestVideoUrl(data, preferHD)]; [None] is [null]. *)
Definition getBestVideoUrl (data : option MediaRecord) (preferHD : bool)
  : option string :=
  match data with
  | None => None
  | Some data =>
      let other u := Js.truthy u && negb (String.eqb u (play data)) in
      let standard := if Js.truthy (play data) then Some (play data) else None in
      if preferHD then
        if other (hdplay data) then Some (hdplay data)
        else if other (wmplay data) then Some (wmplay data)
        else standard
      else
        if other (wmplay data) then Some (wmplay data)
        else standard
  end.

End ApiManager.

(** ** download.js: the handlers *)

Module DownloadHandlers.
Import Utils.

Section WithEnv.
Variable env : Env.

(** [handleMediaDownload(event, url, filename)]; [event.preventDefault()]
    is left out. *)
Definition handleMediaDownload (url filename : string) : M World unit :=
  try_catch
    (let validation := Validation.validateDownloadUrl url filename in
     if negb (Validation.dv_isValid validation)
     then throw (Api.valueOf (Validation.dv_error validation))
     else
       let type :=
         if String.eqb (Api.valueOf (Validation.dv_type validation)) "audio"
         then "audio" else "video" in
       MediaDownloader.downloadMedia env url filename type)
    (fun message =>
       ui (Toast (Js.or_else message "Không thể tải xuống. Vui lòng thử lại.")
             "error")).

(** [downloadAllImages()]; [currentImages] as for
    [downloadAllImagesIndividually]. *)
Definition downloadAllImages (currentImages : option (list string))
  : M World unit :=
  try_catch
    match currentImages with
    | None | Some [] => ui (Toast "Không có ảnh để tải xuống" "warning")
    | Some images => ImageDownloader.downloadAllImagesAsZip env images
    end
    (fun message =>
       ui (Toast (Js.or_else message "Không thể tạo ZIP. Vui lòng thử lại.")
             "error")).

End WithEnv.
End DownloadHandlers.

(** ** Vocabulary of the second part *)

(** The states of a manager after each of a run of acquisitions of the
    rate limiter, the [i]-th starting [delays !! i] milliseconds after the
    previous one returned. *)
Fixpoint acquisitions (env : Env) (delays : list Z) (s : ApiState)
  : list ApiState :=
  match delays with
  | [] => []
  | d :: rest =>
      let s' := (Api.waitForRateLimit env (elapse d s)).2 in
      s' :: acquisitions env rest s'
  end.

(** The requests of a log, in order. *)
Definition requestsOf (t : list event) : list request :=
  omap (fun e => match e with EvRequest r => Some r | _ => None end) t.

(** The pauses of a log, in order. *)
Definition sleepsOf (t : list event) : list Z :=
  omap (fun e => match e with EvSleep ms => Some ms | _ => None end) t.

(** Every blob that the log hands to the browser satisfies [P]. *)
Definition savesOnly (P : string -> Blob -> Prop) (t : list event) : Prop :=
  forall filename blob, EvDom (SaveBlob filename blob) ∈ t -> P filename blob.

(** The characters of a string. *)
Definition chars (s : string) : list ascii := list_ascii_of_string s.

(** Each element of the list is at least [gap] above the one before it. *)
Fixpoint spacedBy (gap : Z) (l : list Z) : Prop :=
  match l with
  | x :: (y :: _) as r => x + gap <= y /\ spacedBy gap r
  | _ => True
  end.

(** [d] is the last element of [l] that satisfies [p]. *)
Definition lastWith {A} (p : A -> bool) (l : list A) (d : A) : Prop :=
  exists pre post,
    l = (pre ++ d :: post)%list /\ p d = true /\ forall x, x ∈ post -> p x = false.

(** The character occurs in the string. *)
Definition occurs (c : ascii) (s : string) : bool :=
  existsb (Ascii.eqb c) (chars s).

(** A blob without content handed to the browser. *)
Definition emptySave (e : event) : option event :=
  match e with
  | EvDom (SaveBlob _ blob) => if (0 <? blob_size blob)%nat then None else Some e
  | _ => None
  end.

(** ** More sample data *)

Module Samples.

(** A payload of the metadata provider whose play URL does not parse. *)
Definition rawUnplayable : RawTikwm :=
  {| rw_id := "123";
     rw_title := "X";
     rw_cover := "https://p16.tiktokcdn.com/cover.jpg";
     rw_play := "unavailable";
     rw_hdplay := "";
     rw_wmplay := "";
     rw_music := "";
     rw_author := None;
     rw_music_info := None;
     rw_images := [] |}.

(** Both providers answer, the first with the payload above. *)
Definition envUnplayable : Env :=
  Examples.mkEnv (Examples.okJson rawUnplayable) (Examples.okJson Examples.rawLinks)
    (fun _ => Rejected "Failed to fetch").

(** A slideshow of the five sample images. *)
Definition rawSlideshow : RawTikwm :=
  {| rw_id := "456";
     rw_title := "Slides";
     rw_cover := "https://p16.tiktokcdn.com/cover.jpg";
     rw_play := "";
     rw_hdplay := "";
     rw_wmplay := "";
     rw_music := "https://sf16.tikwm.com/music.mp3";
     rw_author := None;
     rw_music_info := None;
     rw_images := Examples.fiveImages |}.

(** A cache filled to its capacity by the first fifty sample entries. *)
Definition fullCache : JsMap.t string CacheEntry :=
  storeAll (take 50 manyEntries) [].

End Samples.

(** * Proofs *)

(** ** The JavaScript [Map] *)

Module JsMapFacts.
Section Facts.
Context {K V : Type} `{EqDecision K}.
Implicit Types (m : JsMap.t K V) (k : K) (v : V) (kv : K * V).

Lemma has_key_true k kv : JsMap.has_key k kv = true <-> kv.1 = k.
Proof. unfold JsMap.has_key. by rewrite bool_decide_eq_true. Qed.

Lemma has_key_false k kv : JsMap.has_key k kv = false <-> kv.1 <> k.
Proof. unfold JsMap.has_key. by rewrite bool_decide_eq_false. Qed.

Lemma get_set_same k v m : JsMap.get k (JsMap.set k v m) = Some v.
Proof.
  unfold JsMap.get. induction m as [|kv r IH]; simpl.
  - by rewrite (proj2 (has_key_true k (k, v))).
  - destruct (JsMap.has_key k kv) eqn:E; simpl.
    + by rewrite (proj2 (has_key_true k (k, v))).
    + by rewrite E.
Qed.

Lemma set_new k v m : k ∉ JsMap.keys m -> JsMap.set k v m = (m ++ [(k, v)])%list.
Proof.
  induction m as [|kv r IH]; simpl; intros Hk; [done|].
  apply not_elem_of_cons in Hk as [Hne Hr].
  rewrite (proj2 (has_key_false k kv)) by congruence.
  by rewrite IH.
Qed.

Lemma size_set_old k v m : k ∈ JsMap.keys m -> JsMap.size (JsMap.set k v m) = JsMap.size m.
Proof.
  unfold JsMap.size. induction m as [|kv r IH]; simpl; intros Hk.
  - by apply elem_of_nil in Hk.
  - destruct (JsMap.has_key k kv) eqn:E; simpl; [done|].
    apply has_key_false in E. apply elem_of_cons in Hk as [->|Hk]; [done|].
    by rewrite IH.
Qed.

Lemma get_delete_same k m : JsMap.get k (JsMap.delete k m) = None.
Proof.
  unfold JsMap.get, JsMap.delete. induction m as [|kv r IH]; simpl; [done|].
  destruct (JsMap.has_key k kv) eqn:E; simpl; [done|]. by rewrite E.
Qed.

Lemma get_delete_ne k k' m : k <> k' -> JsMap.get k (JsMap.delete k' m) = JsMap.get k m.
Proof.
  intros Hne. unfold JsMap.get, JsMap.delete.
  induction m as [|kv r IH]; simpl; [done|].
  destruct (JsMap.has_key k' kv) eqn:E'; simpl.
  - apply has_key_true in E'.
    rewrite (proj2 (has_key_false k kv)) by congruence. done.
  - destruct (JsMap.has_key k kv); [done|]. done.
Qed.

Lemma delete_absent k m : k ∉ JsMap.keys m -> JsMap.delete k m = m.
Proof.
  unfold JsMap.delete. induction m as [|kv r IH]; simpl; intros Hk; [done|].
  apply not_elem_of_cons in Hk as [Hne Hr].
  rewrite (proj2 (has_key_false k kv)) by congruence. simpl. by rewrite IH.
Qed.

Lemma keys_app m1 m2 : JsMap.keys (m1 ++ m2)%list = (JsMap.keys m1 ++ JsMap.keys m2)%list.
Proof. apply map_app. Qed.

End Facts.
End JsMapFacts.

Section Cache.
Import JsMapFacts.
Implicit Types (c : JsMap.t string CacheEntry).

Lemma cacheStore_get c url v t :
  (JsMap.size c <= 50)%nat ->
  JsMap.get url (Api.cacheStore t url v c) = Some {| data := v; timestamp := t |}.
Proof.
  intros Hsz. unfold Api.cacheStore.
  set (e := {| data := v; timestamp := t |}).
  destruct (50 <? JsMap.size (JsMap.set url e c))%nat eqn:Hbig;
    [|apply get_set_same].
  apply Nat.ltb_lt in Hbig.
  destruct (decide (url ∈ JsMap.keys c)) as [Hin|Hnew].
  { rewrite size_set_old in Hbig by done. lia. }
  rewrite set_new by done. rewrite set_new in Hbig by done.
  destruct c as [|[k0 e0] r]; [simpl in Hbig; lia|].
  change (JsMap.first_key (((k0, e0) :: r) ++ [(url, e)])%list) with (Some k0).
  cbv iota.
  rewrite get_delete_ne.
  - rewrite <- (set_new url e ((k0, e0) :: r)) by done. apply get_set_same.
  - intros ->. apply Hnew. left.
Qed.

Lemma cacheStore_evicts_first c url v t :
  JsMap.size c = 50%nat -> NoDup (JsMap.keys c) -> url ∉ JsMap.keys c ->
  JsMap.keys (Api.cacheStore t url v c) = (tl (JsMap.keys c) ++ [url])%list.
Proof.
  intros Hsz Hnd Hnew. unfold Api.cacheStore.
  rewrite set_new by done.
  replace (50 <? _)%nat with true
    by (symmetry; apply Nat.ltb_lt; unfold JsMap.size in *; rewrite length_app; simpl; lia).
  destruct c as [|[k0 e0] r]; [discriminate|].
  change (JsMap.first_key (((k0, e0) :: r) ++ [(url, {| data := v; timestamp := t |})])%list)
    with (Some k0).
  cbv iota.
  change (JsMap.keys ((k0, e0) :: r)) with (k0 :: JsMap.keys r) in *.
  apply NoDup_cons in Hnd as [Hk0 Hnd].
  apply not_elem_of_cons in Hnew as [Hne Hnew].
  unfold JsMap.delete; simpl.
  rewrite (proj2 (has_key_true k0 (k0, e0))) by done. simpl.
  fold (JsMap.delete k0 (r ++ [(url, {| data := v; timestamp := t |})])%list).
  rewrite delete_absent.
  - by rewrite keys_app.
  - rewrite keys_app. simpl. rewrite elem_of_app, list_elem_of_singleton.
    intros [?|?]; [done|congruence].
Qed.

Lemma storeAll_app e1 e2 c : storeAll (e1 ++ e2) c = storeAll e2 (storeAll e1 c).
Proof. unfold storeAll. apply fold_left_app. Qed.

Lemma cacheStore_keys_room c url v t :
  (JsMap.size c < 50)%nat -> url ∉ JsMap.keys c ->
  JsMap.keys (Api.cacheStore t url v c) = (JsMap.keys c ++ [url])%list.
Proof.
  intros Hsz Hnew. unfold Api.cacheStore. rewrite set_new by done.
  replace (50 <? _)%nat with false.
  - by rewrite keys_app.
  - symmetry. apply Nat.ltb_ge. unfold JsMap.size in *. rewrite length_app. simpl. lia.
Qed.

Lemma keys_length c : List.length (JsMap.keys c) = JsMap.size c.
Proof. apply length_map. Qed.

Lemma storeAll_keys_room entries c :
  NoDup (JsMap.keys c ++ List.map (fun e => e.1.1) entries) ->
  (JsMap.size c + List.length entries <= 50)%nat ->
  JsMap.keys (storeAll entries c) = (JsMap.keys c ++ List.map (fun e => e.1.1) entries)%list.
Proof.
  revert c. induction entries as [|[[k v] t] r IH]; intros c Hnd Hsz; simpl in *.
  - by rewrite app_nil_r.
  - assert (Hk : k ∉ JsMap.keys c).
    { apply NoDup_app in Hnd as (_ & Hd & _). intros Hin. apply (Hd _ Hin). left. }
    change (storeAll ((k, v, t) :: r) c) with (storeAll r (Api.cacheStore t k v c)).
    rewrite IH.
    + rewrite cacheStore_keys_room by (done || lia). by rewrite <- app_assoc.
    + rewrite cacheStore_keys_room by (done || lia). by rewrite <- app_assoc.
    + rewrite <- keys_length, cacheStore_keys_room by (done || lia).
      rewrite length_app, keys_length. simpl. lia.
Qed.

Lemma storeAll_51 entries :
  NoDup (List.map (fun e => e.1.1) entries) -> List.length entries = 51%nat ->
  JsMap.keys (storeAll entries []) = tl (List.map (fun e => e.1.1) entries).
Proof.
  intros Hnd Hlen.
  destruct (exists_last (l := entries)) as (front & [[k v] t] & ->);
    [by intros ->|].
  rewrite length_app in Hlen. simpl in Hlen.
  rewrite map_app in Hnd. simpl in Hnd.
  rewrite storeAll_app. simpl.
  change (storeAll [(k, v, t)] (storeAll front [])) with (Api.cacheStore t k v (storeAll front [])).
  assert (Hfront : JsMap.keys (storeAll front []) = List.map (fun e => e.1.1) front).
  { rewrite storeAll_keys_room; simpl; [done| |lia].
    by apply NoDup_app in Hnd as (? & _ & _). }
  rewrite cacheStore_evicts_first.
  - rewrite Hfront, map_app. simpl.
    destruct front; [simpl in Hlen; lia|done].
  - rewrite <- keys_length, Hfront, length_map. lia.
  - rewrite Hfront. by apply NoDup_app in Hnd as (? & _ & _).
  - rewrite Hfront. apply NoDup_app in Hnd as (_ & Hd & _).
    intros Hin. apply (Hd _ Hin). left.
Qed.
End Cache.

(** C5 (response cache).  A value stored under a key is returned, unchanged,
    by a lookup of that key made less than five minutes later, the cache
    staying as it is.  A lookup made more than five minutes after the store
    returns nothing and deletes the entry.  After fifty-one stores under
    pairwise distinct keys into an empty cache, the keys left are those of all
    but the first store, in insertion order: the entry evicted is the oldest
    inserted one, whatever has been read since. *)
Theorem C5_response_cache :
  (forall (c : JsMap.t string CacheEntry) url v t t',
      (JsMap.size c <= 50)%nat -> t' - t < 5 * 60 * 1000 ->
      Api.cacheLookup t' url (Api.cacheStore t url v c)
      = (Some v, Api.cacheStore t url v c))
  /\ (forall (c : JsMap.t string CacheEntry) url v t t',
      (JsMap.size c <= 50)%nat -> 5 * 60 * 1000 < t' - t ->
      exists c', Api.cacheLookup t' url (Api.cacheStore t url v c) = (None, c')
                 /\ JsMap.get url c' = None)
  /\ (forall entries : list (string * MediaRecord * Z),
      NoDup (List.map (fun e => e.1.1) entries) -> List.length entries = 51%nat ->
      JsMap.keys (storeAll entries []) = tl (List.map (fun e => e.1.1) entries)).
Proof.
  split; [|split].
  - intros c url v t t' Hsz Ht. unfold Api.cacheLookup.
    rewrite cacheStore_get by done. simpl.
    replace (t' - t <? Api.cacheTimeout) with true; [done|].
    symmetry. apply Z.ltb_lt. unfold Api.cacheTimeout. lia.
  - intros c url v t t' Hsz Ht. unfold Api.cacheLookup.
    rewrite cacheStore_get by done. simpl.
    replace (t' - t <? Api.cacheTimeout) with false.
    + eexists. split; [done|]. apply JsMapFacts.get_delete_same.
    + symmetry. apply Z.ltb_ge. unfold Api.cacheTimeout. lia.
  - apply storeAll_51.
Qed.

(** ** The fusion *)

Section Finding.
Context {A : Type}.
Implicit Types (p q : A -> bool) (l : list A).

Lemma find_firstWith p l d : firstWith p l d -> List.find p l = Some d.
Proof.
  intros (pre & post & -> & Hd & Hpre).
  induction pre as [|x pre IH]; simpl.
  - by rewrite Hd.
  - rewrite (Hpre x) by left. apply IH. intros y Hy. apply Hpre. by right.
Qed.

Lemma find_filter p q l :
  List.find q (List.filter p l) = List.find (fun x => p x && q x) l.
Proof.
  induction l as [|x l IH]; simpl; [done|].
  destruct (p x); simpl; [|done]. by destruct (q x).
Qed.

Lemma head_filter p l : List.head (List.filter p l) = List.find p l.
Proof.
  induction l as [|x l IH]; simpl; [done|]. by destruct (p x).
Qed.

Lemma find_none p l : (forall x, x ∈ l -> p x = false) -> List.find p l = None.
Proof.
  induction l as [|x l IH]; simpl; intros H; [done|].
  rewrite (H x) by left. apply IH. intros y Hy. apply H. by right.
Qed.
End Finding.

Lemma truthy_or_else a b : Js.truthy a = true -> Js.or_else a b = a.
Proof. unfold Js.or_else. by intros ->. Qed.

Lemma falsy_or_else a b : Js.truthy a = false -> Js.or_else a b = b.
Proof. unfold Js.or_else. by intros ->. Qed.

(** C1 (fusion keeps the preview URLs).  Whatever the two payloads are, the
    fused record preserves the four media URLs of the metadata payload
    (play, hdplay, wmplay, music), field by field, both as its preview URLs
    ([originalUrls]) and in its own fields: no URL of the download-link
    payload reaches them.  For each media kind, the URL recorded for
    downloading ([tikvidData.downloadUrls]) is the URL of the first
    download entry of that kind, and nothing is recorded for a kind without
    entry; in particular the high-definition download URL is the HD entry's
    URL, while the standard preview URL is the metadata provider's play
    URL. *)
Theorem C1_preview_urls_are_the_metadata_urls
    (tikwmPayload : MediaRecord) (tikvidPayload : TikVidData) (originalUrl : string) :
  let fused := Api.combineMetadataAndDownloads tikwmPayload tikvidPayload originalUrl in
  let isKind kind d := Api.isVideo d && kind d in
  let entries := tv_downloads tikvidPayload in
  let none kind := forall d, d ∈ entries -> kind d = false in
  let own := {| u_play := play tikwmPayload;
                u_hdplay := hdplay tikwmPayload;
                u_wmplay := wmplay tikwmPayload;
                u_music := music tikwmPayload |} in
  originalUrls fused = Some own
  /\ Spec.previewUrls fused = own
  /\ (play fused = play tikwmPayload /\ hdplay fused = hdplay tikwmPayload
      /\ wmplay fused = wmplay tikwmPayload /\ music fused = music tikwmPayload)
  /\ exists section,
       tikvidData fused = Some section
       /\ ts_downloads section = entries
       /\ (forall d, firstWith (isKind Api.isHD) entries d ->
             dl_hdplay (ts_downloadUrls section) = Some (d_url d)
             /\ (Js.truthy (d_url d) = true ->
                 u_hdplay (Spec.downloadUrls fused) = d_url d)
             /\ u_play (Spec.previewUrls fused) = play tikwmPayload)
       /\ (forall d, firstWith (isKind Api.isStandard) entries d ->
             dl_play (ts_downloadUrls section) = Some (d_url d)
             /\ (Js.truthy (d_url d) = true ->
                 u_play (Spec.downloadUrls fused) = d_url d))
       /\ (forall d, firstWith (isKind Api.isWatermarkFree) entries d ->
             dl_wmplay (ts_downloadUrls section) = Some (d_url d)
             /\ (Js.truthy (d_url d) = true ->
                 u_wmplay (Spec.downloadUrls fused) = d_url d))
       /\ (forall d, firstWith Api.isAudio entries d ->
             dl_music (ts_downloadUrls section) = Some (d_url d)
             /\ (Js.truthy (d_url d) = true ->
                 u_music (Spec.downloadUrls fused) = d_url d))
       /\ (none (isKind Api.isHD) -> dl_hdplay (ts_downloadUrls section) = None)
       /\ (none (isKind Api.isStandard) -> dl_play (ts_downloadUrls section) = None)
       /\ (none (isKind Api.isWatermarkFree) ->
           dl_wmplay (ts_downloadUrls section) = None)
       /\ (none Api.isAudio -> dl_music (ts_downloadUrls section) = None).
Proof.
  intros fused isKind entries none own. subst isKind none own entries.
  split; [done|]. split; [done|]. split; [done|].
  eexists. split; [reflexivity|]. split; [reflexivity|]. cbn [ts_downloadUrls].
  unfold Spec.downloadUrls. cbn [tikvidData fused Api.combineMetadataAndDownloads].
  cbn [ts_downloadUrls Api.tikvidUrlsOf dl_hdplay dl_play dl_wmplay dl_music
       u_hdplay u_play u_wmplay u_music].
  repeat split.
  - rewrite find_filter. by rewrite (find_firstWith _ _ _ H).
  - intros Hurl. rewrite find_filter, (find_firstWith _ _ _ H). simpl.
    by apply truthy_or_else.
  - rewrite find_filter. by rewrite (find_firstWith _ _ _ H).
  - intros Hurl. rewrite find_filter, (find_firstWith _ _ _ H). simpl.
    by apply truthy_or_else.
  - rewrite find_filter. by rewrite (find_firstWith _ _ _ H).
  - intros Hurl. rewrite find_filter, (find_firstWith _ _ _ H). simpl.
    by apply truthy_or_else.
  - rewrite head_filter. by rewrite (find_firstWith _ _ _ H).
  - intros Hurl. rewrite head_filter, (find_firstWith _ _ _ H). simpl.
    by apply truthy_or_else.
  - intros H. rewrite find_filter. by rewrite find_none.
  - intros H. rewrite find_filter. by rewrite find_none.
  - intros H. rewrite find_filter. by rewrite find_none.
  - intros H. rewrite head_filter. by rewrite find_none.
Qed.

(** C8 (music info precedence).  The fused record's [music_info] is, in this
    order: the metadata provider's music object when it has a playable URL,
    with its missing fields filled in; otherwise an object built from the
    first audio entry of the download-link payload; otherwise a minimal
    object around the metadata provider's bare music URL, when that is a real
    URL; otherwise absent. *)
Theorem C8_music_info_precedence
    (tikwmPayload : MediaRecord) (tikvidPayload : TikVidData) (originalUrl : string) :
  let fused := Api.combineMetadataAndDownloads tikwmPayload tikvidPayload originalUrl in
  let noMetadataMusic :=
    forall mi, music_info tikwmPayload = Some mi -> Js.truthy (mi_play mi) = false in
  let noAudioEntry :=
    forall d, d ∈ tv_downloads tikvidPayload -> Api.isAudio d = false in
  (forall mi, music_info tikwmPayload = Some mi -> Js.truthy (mi_play mi) = true ->
     exists m, music_info fused = Some m
       /\ mi_play m = mi_play mi
       /\ mi_id m = Js.or_else (mi_id mi) (Js.or_else (tv_id tikvidPayload) "music_1")
       /\ mi_title m = Js.or_else (mi_title mi) "Original Sound"
       /\ mi_author m = Js.or_else (mi_author mi) (Api.nicknameOr (author tikwmPayload))
       /\ mi_duration m = mi_duration mi)
  /\ (noMetadataMusic ->
      forall d, firstWith Api.isAudio (tv_downloads tikvidPayload) d ->
        exists m, music_info fused = Some m
          /\ mi_play m = d_url d
          /\ mi_quality m = Some (Js.or_else (d_quality d) "MP3"))
  /\ (noMetadataMusic -> noAudioEntry ->
      Js.truthy (music tikwmPayload) = true -> music tikwmPayload <> "#" ->
        exists m, music_info fused = Some m
          /\ mi_play m = music tikwmPayload
          /\ mi_title m = Js.or_else (title tikwmPayload) "Original Sound"
          /\ mi_quality m = None /\ mi_original m = None)
  /\ (noMetadataMusic -> noAudioEntry ->
      Js.truthy (music tikwmPayload) = false \/ music tikwmPayload = "#" ->
        music_info fused = None).
Proof.
  intros fused noMetadataMusic noAudioEntry.
  assert (Hno : noMetadataMusic -> Api.playableMusicInfo tikwmPayload = None).
  { intros H. unfold Api.playableMusicInfo.
    destruct (music_info tikwmPayload) as [mi|] eqn:E; [|done].
    by rewrite (H mi). }
  assert (Hmusic : noAudioEntry ->
            dl_music (Api.tikvidUrlsOf (tv_downloads tikvidPayload)) = None).
  { intros H. simpl. rewrite head_filter, find_none; done. }
  repeat split.
  - intros mi Hmi Hplay. simpl. unfold Api.combineMusicInfo, Api.playableMusicInfo.
    rewrite Hmi, Hplay. eexists. split; [reflexivity|]. simpl. done.
  - intros H1 d Hd. simpl. unfold Api.combineMusicInfo.
    rewrite (Hno H1), (find_firstWith _ _ _ Hd). eexists. split; [reflexivity|]. done.
  - intros H1 H2 Ht Hne. simpl. unfold Api.combineMusicInfo.
    rewrite (Hno H1), (find_none _ _ H2), (Hmusic H2). simpl.
    rewrite (falsy_or_else "" _) by done. rewrite Ht.
    rewrite (proj2 (String.eqb_neq _ _) Hne). simpl.
    eexists. split; [reflexivity|]. done.
  - intros H1 H2 Hor. simpl. unfold Api.combineMusicInfo.
    rewrite (Hno H1), (find_none _ _ H2), (Hmusic H2). simpl.
    rewrite (falsy_or_else "" _) by done.
    destruct Hor as [Hf| ->]; [by rewrite Hf|done].
Qed.

(** ** The rate limiter and the fetchers *)

Section RateLimiter.
Variable env : Env.

(** What one acquisition does: it returns, it leaves the cache alone, it
    records the time at which it returns, and that time is at least
    [MIN_INTERVAL] after the previous record. *)
Lemma waitForRateLimit_spec s :
  exists s',
    Api.waitForRateLimit env s = (Returned tt, s')
    /\ requestCache s' = requestCache s
    /\ lastRequestTime s' = clock (world s')
    /\ lastRequestTime s + Constants.MIN_INTERVAL <= lastRequestTime s'
    /\ (exists ev, trace (world s') = (trace (world s) ++ ev)%list
                   /\ Forall (fun e => exists ms, e = EvSleep ms) ev
                   /\ (clock (world s) - lastRequestTime s < Constants.MIN_INTERVAL ->
                       exists rest, ev = EvSleep (Constants.MIN_INTERVAL
                                            - (clock (world s) - lastRequestTime s)) :: rest)).
Proof.
  destruct s as [[c t] cache last stamps].
  unfold Api.waitForRateLimit, bind, gets, modify, ret, Api.liftW, Utils.sleep,
    Constants.MIN_INTERVAL, Constants.MAX_REQUESTS_PER_MINUTE.
  cbn -[Nat.leb Z.sub Z.add Z.ltb Z.max].
  pose proof (N2Z.is_nonneg (timer_lateness env {| clock := c; trace := t |})) as Hl1.
  destruct (c - last <? 2000) eqn:Hfirst;
    [apply Z.ltb_lt in Hfirst|apply Z.ltb_ge in Hfirst];
    cbn -[Nat.leb Z.sub Z.add Z.ltb Z.max];
    (destruct (_ <=? _)%nat;
     [destruct (List.filter _ stamps) as [|oldest rest];
      [|destruct (0 <? 60000 - (c - oldest))]|]);
    cbn -[Nat.leb Z.sub Z.add Z.ltb Z.max];
    (eexists; split; [reflexivity|]); cbn -[Nat.leb Z.sub Z.add Z.ltb Z.max];
    repeat match goal with |- context [timer_lateness env ?w] =>
      lazymatch goal with
      | _ : 0 ≤ Z.of_N (timer_lateness env w) |- _ => fail
      | _ => pose proof (N2Z.is_nonneg (timer_lateness env w))
      end end;
    (split; [reflexivity|]); (split; [reflexivity|]); (split; [lia|]).
  all: try (exists []; split; [by rewrite app_nil_r|]; split; [constructor|]; lia).
  all: eexists; (split; [by rewrite <- ?app_assoc|]);
       (split; [repeat constructor; eauto|]); intros; eauto; try lia.
Qed.
End RateLimiter.

(** C7 (minimum interval).  Take two acquisitions of the rate limiter, the
    second starting [d] milliseconds after the first recorded its request.
    Both return, and the second records its request at least 2000 ms after
    the first did.  When [d] is below 2000, the second begins by sleeping
    the remaining [2000 - d] milliseconds. *)
Theorem C7_second_acquisition_waits (env : Env) (s0 : ApiState) (d : Z) :
  let '(r1, s1) := Api.waitForRateLimit env s0 in
  let '(r2, s2) := Api.waitForRateLimit env (elapse d s1) in
  r1 = Returned tt /\ r2 = Returned tt
  /\ lastRequestTime s1 + 2000 <= lastRequestTime s2
  /\ lastRequestTime s2 = clock (world s2)
  /\ (d < 2000 ->
      exists rest, Trace.since (world s1) (world s2) = EvSleep (2000 - d) :: rest).
Proof.
  destruct (waitForRateLimit_spec env s0) as (s1 & -> & _ & Hrec1 & _ & _).
  destruct (waitForRateLimit_spec env (elapse d s1))
    as (s2 & -> & _ & Hrec2 & Hmin & ev & Hev & _ & Hsleep).
  unfold Constants.MIN_INTERVAL in *.
  destruct s1 as [[c1 t1] cache1 last1 stamps1]. simpl in *. subst last1.
  repeat split; try done.
  intros Hd. destruct Hsleep as [rest ->]; [lia|].
  exists rest. unfold Trace.since. rewrite Hev. simpl.
  rewrite drop_app_length. f_equal. f_equal. lia.
Qed.

Section Fetching.
Variable env : Env.

Lemma set_cache_id s : Api.set_cache (fun _ => requestCache s) s = s.
Proof. by destruct s. Qed.

(** A fetcher touches neither the cache nor the limiter's record, and
    what it returns is a normalized payload. *)
Lemma liftW_cache {A} (m : M World A) s r s' :
  Api.liftW m s = (r, s') ->
  requestCache s' = requestCache s /\ lastRequestTime s' = lastRequestTime s.
Proof.
  unfold Api.liftW. destruct (m (world s)) as [r0 w]. intros [= <- <-]. done.
Qed.

Lemma fetchFromTikWM_normalized url w m w' :
  Api.fetchFromTikWM env url w = (Returned m, w') ->
  exists raw, m = Api.normalizeTikwmData raw.
Proof.
  unfold Api.fetchFromTikWM, Api.call, bind, throw, ret.
  destruct (tikwm env w url) as [e|resp]; [done|].
  destruct (api_ok resp); simpl; [|done].
  destruct (api_body resp) as [e|[] msg raw]; try done.
  intros [= <- <-]. eauto.
Qed.

Lemma fetchMetadata_spec url s m s' :
  Api.fetchMetadata env url s = (Returned m, s') ->
  requestCache s' = requestCache s /\ exists raw, m = Api.normalizeTikwmData raw.
Proof.
  unfold Api.fetchMetadata, bind.
  destruct (waitForRateLimit_spec env s) as (s1 & -> & Hc & _).
  unfold try_catch.
  destruct (Api.liftW (Api.fetchFromTikWM env url) s1) as [[m'|e] s2] eqn:E;
    [|done].
  intros [= <- <-]. apply liftW_cache in E as Hc'. destruct Hc' as [Hc' _].
  split; [congruence|].
  unfold Api.liftW in E.
  destruct (Api.fetchFromTikWM env url (world s1)) as [r w] eqn:E'.
  injection E as -> _. eauto using fetchFromTikWM_normalized.
Qed.

Lemma fetchDownloadLinks_cache url s r s' :
  Api.fetchDownloadLinks env url s = (r, s') ->
  requestCache s' = requestCache s.
Proof.
  unfold Api.fetchDownloadLinks, bind.
  destruct (waitForRateLimit_spec env s) as (s1 & -> & Hc & _).
  unfold try_catch.
  destruct (Api.liftW (Api.fetchFromTikVidProxy env url) s1) as [[m'|e] s2] eqn:E;
    apply liftW_cache in E as [Hc' _]; intros [= <- <-]; congruence.
Qed.

(** A fresh entry is served from the cache: nothing is fetched and the
    state is left as it was. *)
Lemma fetchVideoData_hit url s entry :
  Utils.isValidTikTokUrl url = true ->
  JsMap.get (Api.cleanUrl url) (requestCache s) = Some entry ->
  clock (world s) - timestamp entry < Api.cacheTimeout ->
  Api.fetchVideoData env url s = (Returned (data entry), s).
Proof.
  intros Hvalid Hget Hfresh. unfold Api.fetchVideoData. rewrite Hvalid. simpl.
  unfold bind at 1. unfold Api.getFromCache, Api.cacheLookup. rewrite Hget.
  replace (_ <? _) with true by (symmetry; by apply Z.ltb_lt).
  by rewrite set_cache_id.
Qed.

(** The degraded path. *)
Lemma fetchVideoData_degraded url s s1 m s2 e s3 :
  Utils.isValidTikTokUrl url = true ->
  Api.getFromCache (Api.cleanUrl url) s = (Returned None, s1) ->
  Api.fetchMetadata env (Api.cleanUrl url) s1 = (Returned m, s2) ->
  Api.fetchDownloadLinks env (Api.cleanUrl url) s2 = (Thrown e, s3) ->
  Api.fetchVideoData env url s
  = (Returned (Api.proxyFallback m),
     Api.set_cache (Api.cacheStore (clock (world s3)) (Api.cleanUrl url)
                      (Api.proxyFallback m)) s3).
Proof.
  intros Hvalid Hmiss Hmeta Hlinks. unfold Api.fetchVideoData.
  rewrite Hvalid. simpl. unfold bind at 1. rewrite Hmiss.
  unfold try_catch at 1. unfold bind at 1. rewrite Hmeta.
  unfold try_catch at 1. unfold bind at 1. rewrite Hlinks.
  reflexivity.
Qed.
End Fetching.

(** ** The degraded mode *)

Import JsMapFacts.

Lemma get_none_keys {V} (k : string) (m : JsMap.t string V) :
  JsMap.get k m = None -> k ∉ JsMap.keys m.
Proof.
  unfold JsMap.get. induction m as [|kv r IH]; simpl; intros H.
  - apply not_elem_of_nil.
  - destruct (JsMap.has_key k kv) eqn:E; [done|].
    apply has_key_false in E. apply not_elem_of_cons. split; [congruence|]. by apply IH.
Qed.

Lemma cacheStore_get_fresh (c : JsMap.t string CacheEntry) url v t :
  url ∉ JsMap.keys c ->
  JsMap.get url (Api.cacheStore t url v c) = Some {| data := v; timestamp := t |}.
Proof.
  intros Hnew. unfold Api.cacheStore.
  set (e := {| data := v; timestamp := t |}).
  destruct (50 <? JsMap.size (JsMap.set url e c))%nat eqn:Hbig;
    [|apply get_set_same].
  apply Nat.ltb_lt in Hbig. rewrite set_new in * by done.
  destruct c as [|[k0 e0] r].
  { unfold JsMap.size in Hbig. simpl in Hbig. lia. }
  change (JsMap.first_key (((k0, e0) :: r) ++ [(url, e)])%list) with (Some k0).
  cbv iota. rewrite get_delete_ne.
  - rewrite <- (set_new url e ((k0, e0) :: r)) by done. apply get_set_same.
  - intros ->. apply Hnew. left.
Qed.

Lemma getFromCache_miss url s s1 :
  Api.getFromCache url s = (Returned None, s1) ->
  url ∉ JsMap.keys (requestCache s1).
Proof.
  unfold Api.getFromCache, Api.cacheLookup.
  destruct (JsMap.get url (requestCache s)) as [entry|] eqn:E.
  - destruct (_ <? _); [done|]. intros [= <-]. simpl.
    apply get_none_keys, get_delete_same.
  - intros [= <-]. simpl. by apply get_none_keys.
Qed.

(** C2 (degraded mode).  For a valid URL that is not cached, when the
    metadata fetch returns [m] and the download-link fetch throws,
    [fetchVideoData] still returns a record.  Its download URLs equal its
    preview URLs field for field, both being the media URLs of [m]; its
    metadata source reads tikwm_with_proxy_fallback, with download mode
    proxy_fallback, and no fused record of the hybrid mode carries that
    source. *)
Theorem C2_degraded_mode (env : Env) (url : string) (s s1 s2 s3 : ApiState)
    (m : MediaRecord) (e : string) :
  Utils.isValidTikTokUrl url = true ->
  Api.getFromCache (Api.cleanUrl url) s = (Returned None, s1) ->
  Api.fetchMetadata env (Api.cleanUrl url) s1 = (Returned m, s2) ->
  Api.fetchDownloadLinks env (Api.cleanUrl url) s2 = (Thrown e, s3) ->
  exists fused s',
    Api.fetchVideoData env url s = (Returned fused, s')
    /\ Spec.downloadUrls fused = Spec.previewUrls fused
    /\ Spec.previewUrls fused = Api.urlsOf m
    /\ source (metadata fused) = "tikwm_with_proxy_fallback"
    /\ downloadMode (metadata fused) = Some "proxy_fallback"
    /\ forall a b c,
         source (metadata fused)
         <> source (metadata (Api.combineMetadataAndDownloads a b c)).
Proof.
  intros Hvalid Hmiss Hmeta Hlinks.
  exists (Api.proxyFallback m). eexists.
  split; [by eapply fetchVideoData_degraded|].
  apply fetchMetadata_spec in Hmeta as [_ [raw ->]].
  repeat split; done.
Qed.

(** ** Logs of computations *)

Section Emits.
Context {A B : Type}.

Lemma emits_weaken (m : M World A) (R R' : result A -> list event -> Prop) :
  emits m R -> (forall r ev, R r ev -> R' r ev) -> emits m R'.
Proof. intros H HR w. destruct (H w) as (ev & ? & ?). eauto. Qed.

Lemma emits_ret (a : A) : emits (ret a) (fun r ev => r = Returned a /\ ev = []).
Proof. intros w. exists []. simpl. by rewrite app_nil_r. Qed.

Lemma emits_throw (e : string) :
  emits (throw e : M World A) (fun r ev => r = Thrown e /\ ev = []).
Proof. intros w. exists []. simpl. by rewrite app_nil_r. Qed.

Lemma emits_bind (m : M World A) (k : A -> M World B) R (S : A -> result B -> list event -> Prop) :
  emits m R -> (forall a, emits (k a) (S a)) ->
  emits (bind m k) (fun r ev =>
    (exists e, r = Thrown e /\ R (Thrown e) ev)
    \/ (exists a e1 e2, ev = (e1 ++ e2)%list /\ R (Returned a) e1 /\ S a r e2)).
Proof.
  intros Hm Hk w. unfold bind. destruct (Hm w) as (e1 & Ht1 & HR).
  destruct (m w) as [[a|e] w1]; simpl in *.
  - destruct (Hk a w1) as (e2 & Ht2 & HS).
    exists (e1 ++ e2)%list. rewrite Ht2, Ht1, app_assoc. split; [done|].
    right. eauto 10.
  - exists e1. split; [done|]. left. eauto.
Qed.

Lemma emits_try_catch (m : M World A) (h : string -> M World A) R
    (H : string -> result A -> list event -> Prop) :
  emits m R -> (forall e, emits (h e) (H e)) ->
  emits (try_catch m h) (fun r ev =>
    (exists a, r = Returned a /\ R (Returned a) ev)
    \/ (exists e e1 e2, ev = (e1 ++ e2)%list /\ R (Thrown e) e1 /\ H e r e2)).
Proof.
  intros Hm Hh w. unfold try_catch. destruct (Hm w) as (e1 & Ht1 & HR).
  destruct (m w) as [[a|e] w1]; simpl in *.
  - exists e1. split; [done|]. left. eauto.
  - destruct (Hh e w1) as (e2 & Ht2 & HS).
    exists (e1 ++ e2)%list. rewrite Ht2, Ht1, app_assoc. split; [done|].
    right. eauto 10.
Qed.
End Emits.

Section Primitives.
Variable env : Env.

Lemma emits_sleep ms :
  emits (Utils.sleep env ms) (fun r ev => r = Returned tt /\ ev = [EvSleep ms]).
Proof. intros w. by eexists. Qed.

Lemma emits_fetch q :
  emits (Utils.fetch env q) (fun r ev => ev = [EvRequest q]).
Proof. intros w. unfold Utils.fetch. exists [EvRequest q]. by destruct (http env w q). Qed.

Lemma emits_dom a :
  emits (Utils.dom env a) (fun r ev => ev = [EvDom a]).
Proof. intros w. unfold Utils.dom. exists [EvDom a]. by destruct (dom_throws env w a). Qed.

Lemma emits_ui u :
  emits (Utils.ui u) (fun r ev => r = Returned tt /\ ev = [EvUi u]).
Proof. intros w. by eexists. Qed.

Lemma emits_later ms a :
  emits (Utils.later ms a) (fun r ev => r = Returned tt /\ ev = [EvLater ms a]).
Proof. intros w. by eexists. Qed.

Lemma emits_generateFilename p x :
  emits (Utils.generateFilename env p x) (fun r ev => (exists f, r = Returned f) /\ ev = []).
Proof. intros w. exists []. simpl. rewrite app_nil_r. eauto. Qed.
End Primitives.

(** Computations seen through a projection [f] of their events. *)
Section Projected.
Context {P : Type} (f : event -> option P).
Local Abbreviation yields m l := (emits m (fun _ ev => omap f ev = l)).

Lemma yields_ret {A} (a : A) : yields (ret a) [].
Proof. eapply emits_weaken; [apply emits_ret|cbv beta]. by intros r ev [_ ->]. Qed.

Lemma yields_throw {A} e : yields (throw e : M World A) [].
Proof. eapply emits_weaken; [apply emits_throw|cbv beta]. by intros r ev [_ ->]. Qed.

Lemma yields_bind {A B} (m : M World A) (k : A -> M World B) l :
  yields m l -> (forall a, yields (k a) []) -> yields (bind m k) l.
Proof.
  intros Hm Hk.
  eapply emits_weaken;
    [exact (emits_bind m k _ (fun _ _ ev => omap f ev = []) Hm Hk)|cbv beta].
  intros r ev [(e & _ & H)|(a & e1 & e2 & -> & H1 & H2)]; [done|].
  by rewrite omap_app, H1, H2, app_nil_r.
Qed.

Lemma yields_try_catch {A} (m : M World A) h l :
  yields m l -> (forall e, yields (h e) []) -> yields (try_catch m h) l.
Proof.
  intros Hm Hh.
  eapply emits_weaken;
    [exact (emits_try_catch m h _ (fun _ _ ev => omap f ev = []) Hm Hh)|cbv beta].
  intros r ev [(e & _ & H)|(a & e1 & e2 & -> & H1 & H2)]; [done|].
  by rewrite omap_app, H1, H2, app_nil_r.
Qed.

(** After a computation that always returns, the rest is appended. *)
Lemma yields_then {A B} (m : M World A) (k : A -> M World B) l1 l2 :
  emits m (fun r ev => (exists a, r = Returned a) /\ omap f ev = l1) ->
  (forall a, yields (k a) l2) -> yields (bind m k) (l1 ++ l2)%list.
Proof.
  intros Hm Hk.
  eapply emits_weaken;
    [exact (emits_bind m k _ (fun _ _ ev => omap f ev = l2) Hm Hk)|cbv beta].
  intros r ev [(e & _ & [[a ?] _])|(a & e1 & e2 & -> & [_ H1] & H2)]; [done|].
  by rewrite omap_app, H1, H2.
Qed.

(** Computations that always return. *)
Local Abbreviation returns m l :=
  (emits m (fun r ev => (exists a, r = Returned a) /\ omap f ev = l)).

Lemma returns_ret {A} (a : A) : returns (ret a) [].
Proof.
  eapply emits_weaken; [apply emits_ret|cbv beta]. intros r ev [-> ->]. eauto.
Qed.

Lemma returns_bind {A B} (m : M World A) (k : A -> M World B) l1 l2 :
  returns m l1 -> (forall a, returns (k a) l2) -> returns (bind m k) (l1 ++ l2)%list.
Proof.
  intros Hm Hk.
  eapply emits_weaken;
    [exact (emits_bind m k _ (fun _ r ev => (exists a, r = Returned a) /\ omap f ev = l2)
              Hm Hk)|cbv beta].
  intros r ev [(e & _ & [[a ?] _])|(a & e1 & e2 & -> & [_ H1] & [? H2])]; [done|].
  by rewrite omap_app, H1, H2.
Qed.

Lemma returns_try_catch {A} (m : M World A) h l :
  returns m l -> returns (try_catch m h) l.
Proof.
  intros Hm w. destruct (Hm w) as (ev & Ht & [a Ha] & Hl).
  unfold try_catch. destruct (m w) as [[a'|e] w1]; [|done]. eauto.
Qed.

Lemma yields_retry {A} env (m : M World A) n d i k e l :
  (n <= 1)%nat -> yields m l -> (k <= 1)%nat ->
  yields (Utils.retry_loop env m n d i k e) (if k is O then [] else l).
Proof.
  intros Hn Hm Hk. destruct k as [|[|k]]; [apply yields_throw| |lia].
  simpl. apply yields_try_catch; [done|]. intros e'.
  replace (i <? n - 1)%nat with false by (symmetry; apply Nat.ltb_ge; lia).
  apply yields_bind; [apply yields_ret|]. intros _. apply yields_throw.
Qed.
End Projected.

Section ImageSteps.
Variable env : Env.
Local Abbreviation yields m l := (emits m (fun _ ev => Trace.steps ev = l)).

Ltac quiet :=
  repeat first
    [ apply yields_ret | apply yields_throw
    | apply yields_bind; [|intros ?] | apply yields_try_catch; [|intros ?]
    | eapply emits_weaken; [apply emits_fetch|cbv beta; by intros ? ? ->]
    | eapply emits_weaken; [apply emits_dom|cbv beta; by intros ? ? ->]
    | eapply emits_weaken; [apply emits_later|cbv beta; by intros ? ? [_ ->]]
    | eapply emits_weaken; [apply emits_ui|cbv beta; by intros ? ? [_ ->]]
    | match goal with |- emits (if ?b then _ else _) _ => destruct b end
    | match goal with |- emits (match ?b with _ => _ end) _ => destruct b end ].

Lemma steps_downloadImageViaProxy url fn :
  yields (ImageDownloader.downloadImageViaProxy env url fn) [Trace.Item url].
Proof. unfold ImageDownloader.downloadImageViaProxy, ImageDownloader.downloadBlob. quiet. Qed.

Lemma steps_downloadImageViaFetch url fn :
  yields (ImageDownloader.downloadImageViaFetch env url fn) [].
Proof. unfold ImageDownloader.downloadImageViaFetch, ImageDownloader.downloadBlob. quiet. Qed.

Lemma steps_createDirectDownload url fn :
  yields (ImageDownloader.createDirectDownload env url fn) [].
Proof. unfold ImageDownloader.createDirectDownload. quiet. Qed.

Lemma steps_loadCanvas url : yields (ImageDownloader.loadCanvas env url) [].
Proof.
  intros w. unfold ImageDownloader.loadCanvas. exists [EvRequest (ReqCanvas url)].
  by destruct (canvas env w url).
Qed.

Lemma steps_downloadImageViaCanvas url fn :
  yields (ImageDownloader.downloadImageViaCanvas env url fn) [].
Proof.
  unfold ImageDownloader.downloadImageViaCanvas, ImageDownloader.downloadBlob.
  apply yields_bind; [apply steps_loadCanvas|]. intros ?. quiet.
Qed.

Lemma steps_once (m : M World unit) l :
  yields m l -> yields (Utils.retryAsync env m 1 500) l.
Proof.
  intros H. unfold Utils.retryAsync.
  by apply (yields_retry Trace.stepOf env m 1 500 0 1 "" l); try lia.
Qed.

Lemma steps_downloadSingleImage url i :
  yields (ImageDownloader.downloadSingleImage env url i) [Trace.Item url].
Proof.
  unfold ImageDownloader.downloadSingleImage.
  apply (yields_then Trace.stepOf _ _ [] [Trace.Item url]).
  { eapply emits_weaken; [apply emits_generateFilename|cbv beta].
    by intros r ev [? ->]. }
  intros fn. apply yields_try_catch; [|intros ?; quiet].
  unfold ImageDownloader.attemptImageDownload, ImageDownloader.tryMethods.
  apply yields_try_catch.
  { apply steps_once, steps_downloadImageViaProxy. }
  intros _. apply yields_try_catch.
  { apply steps_once, steps_downloadImageViaFetch. }
  intros _. apply yields_try_catch.
  { apply steps_once, steps_createDirectDownload. }
  intros _. apply yields_try_catch.
  { apply steps_once, steps_downloadImageViaCanvas. }
  intros _. apply yields_throw.
Qed.

(** The manager's single download always returns. *)
Lemma manager_downloadSingleImage url i :
  emits (DownloadManager.downloadSingleImage env url i)
    (fun r ev => (exists a, r = Returned a) /\ Trace.steps ev = [Trace.Item url]).
Proof.
  intros w. destruct (steps_downloadSingleImage url i w) as (ev & Ht & Hs).
  unfold DownloadManager.downloadSingleImage, try_catch.
  destruct (ImageDownloader.downloadSingleImage env url i w) as [[[]|e] w1];
    simpl in *.
  - exists ev. eauto.
  - exists (ev ++ [EvUi (Toast "Không thể tải ảnh. Vui lòng thử lại." "error")])%list.
    rewrite Ht, app_assoc. split; [done|]. split; [eauto|].
    unfold Trace.steps in *. by rewrite omap_app, Hs.
Qed.

Lemma individualLoop_spec images : forall i n,
  n = (i + List.length images)%nat ->
  emits (DownloadManager.individualLoop env i n images)
    (fun r ev => (exists a, r = Returned a)
       /\ Trace.steps ev
          = Trace.intersperse (Trace.Pause 500) (List.map Trace.Item images)).
Proof.
  induction images as [|url rest IH]; intros i n Hn.
  - apply returns_ret.
  - cbn [DownloadManager.individualLoop].
    set (pause := if (i <? n - 1)%nat then [Trace.Pause 500] else []).
    replace (Trace.intersperse (Trace.Pause 500) (List.map Trace.Item (url :: rest)))
      with (([Trace.Item url] ++ pause)
            ++ Trace.intersperse (Trace.Pause 500) (List.map Trace.Item rest))%list.
    + apply (returns_bind Trace.stepOf).
      * apply returns_try_catch, (returns_bind Trace.stepOf).
        -- apply manager_downloadSingleImage.
        -- intros _. subst pause. destruct (i <? n - 1)%nat.
           ++ eapply emits_weaken; [apply emits_sleep|cbv beta].
              intros r ev [-> ->]. eauto.
           ++ apply returns_ret.
      * intros _. apply IH. simpl in Hn. lia.
    + subst pause. destruct rest as [|url' rest'].
      * replace (i <? n - 1)%nat with false
          by (symmetry; apply Nat.ltb_ge; simpl in Hn; lia). done.
      * replace (i <? n - 1)%nat with true
          by (symmetry; apply Nat.ltb_lt; simpl in Hn; lia). done.
Qed.

Lemma downloadAllImagesIndividually_spec images :
  images <> [] ->
  emits (DownloadManager.downloadAllImagesIndividually env (Some images))
    (fun r ev => (exists a, r = Returned a)
       /\ Trace.steps ev
          = Trace.intersperse (Trace.Pause 500) (List.map Trace.Item images)).
Proof.
  intros Hne. unfold DownloadManager.downloadAllImagesIndividually.
  destruct images as [|url rest]; [done|].
  apply returns_try_catch.
  rewrite <- (app_nil_l (Trace.intersperse _ _)).
  apply (returns_bind Trace.stepOf).
  { eapply emits_weaken; [apply emits_ui|cbv beta]. intros r ev [-> ->]. eauto. }
  intros _. rewrite <- (app_nil_r (Trace.intersperse _ _)).
  apply (returns_bind Trace.stepOf).
  { by apply individualLoop_spec. }
  intros _. eapply emits_weaken; [apply emits_ui|cbv beta].
  intros r ev [-> ->]. eauto.
Qed.
End ImageSteps.

Lemma since_emits {A} (m : M World A) R w :
  emits m R -> R (m w).1 (Trace.since w (m w).2).
Proof.
  intros H. destruct (H w) as (ev & Ht & HR). unfold Trace.since.
  by rewrite Ht, drop_app_length.
Qed.

(** C9 (sequential image download).  For a non-empty list of images, in
    whatever way each single download ends, the sequential download returns
    normally, and what it did, read off the trace, is: one download per image,
    in order, with a pause of 500 ms between two consecutive images and none
    after the last. *)
Theorem C9_sequential_download_never_aborts (env : Env) (images : list string)
    (w : World) :
  images <> [] ->
  let '(r, w') := DownloadManager.downloadAllImagesIndividually env (Some images) w in
  r = Returned tt
  /\ Trace.steps (Trace.since w w')
     = Trace.intersperse (Trace.Pause 500) (List.map Trace.Item images).
Proof.
  intros Hne.
  pose proof (since_emits _ _ w (downloadAllImagesIndividually_spec env images Hne))
    as H. cbv beta in H.
  destruct (DownloadManager.downloadAllImagesIndividually env (Some images) w)
    as [r w'].
  simpl in H. destruct H as [[[] ->] H]. done.
Qed.

(** ** The archive *)

Lemma bind_returned {S A B} (m : M S A) (k : A -> M S B) s a :
  (m s).1 = Returned a -> bind m k s = k a (m s).2.
Proof. unfold bind. destruct (m s) as [r s']. simpl. by intros ->. Qed.

(** *** The names of the files of an archive *)

Lemma length_append (a b : string) :
  String.length (a +:+ b) = (String.length a + String.length b)%nat.
Proof. induction a as [|c a IH]; simpl; [done|]. by rewrite IH. Qed.



Lemma string_of_nat_inj n m : Js.string_of_nat n = Js.string_of_nat m -> n = m.
Proof.
  unfold Js.string_of_nat. intros H.
  apply Unsigned.to_uint_inj.
  apply (f_equal NilEmpty.uint_of_string) in H.
  rewrite !NilEmpty.usu in H. congruence.
Qed.


Section Filed.
Variable outcome : nat -> result Blob.



End Filed.

(** *** The loop of the archive *)







(** A computation only ever adds to the log. *)
Section Extends.
Variable env : Env.
Local Abbreviation extends m := (emits m (fun _ ev => omap (fun _ => @None unit) ev = [])).

Ltac ext :=
  repeat first
    [ apply yields_ret | apply yields_throw
    | apply yields_bind; [|intros ?] | apply yields_try_catch; [|intros ?]
    | eapply emits_weaken; [apply emits_fetch|cbv beta; by intros ? ? ->]
    | eapply emits_weaken; [apply emits_dom|cbv beta; by intros ? ? ->]
    | eapply emits_weaken; [apply emits_sleep|cbv beta; by intros ? ? [_ ->]]
    | eapply emits_weaken; [apply emits_ui|cbv beta; by intros ? ? [_ ->]]
    | match goal with |- emits (if ?b then _ else _) _ => destruct b end
    | match goal with |- emits (match ?b with _ => _ end) _ => destruct b end ].

Lemma extends_loadCanvas url : extends (ImageDownloader.loadCanvas env url).
Proof.
  intros w. unfold ImageDownloader.loadCanvas. exists [EvRequest (ReqCanvas url)].
  by destruct (canvas env w url).
Qed.

Lemma extends_zipAttempts url index maxRetries remaining : forall attempt lastError,
  extends (ImageDownloader.zipAttempts env url index maxRetries attempt remaining lastError).
Proof.
  induction remaining as [|k IH]; intros attempt lastError; simpl; [ext|].
  apply yields_try_catch; [ext|]. intros message.
  destruct (_ && _); [|apply IH].
  apply yields_try_catch; [|intros ?; apply IH].
  unfold ImageDownloader.getImageBlobViaCanvas.
  apply yields_bind; [apply extends_loadCanvas|]. intros ?. ext.
Qed.

Lemma extends_settleAll batch : forall i, extends (ImageDownloader.settleAll env i batch).
Proof.
  induction batch as [|url rest IH]; intros i; simpl; [ext|].
  apply yields_bind; [|intros ?; apply yields_bind; [apply IH|intros ?; ext]].
  intros w. unfold Utils.settle, ImageDownloader.processImageForZip.
  destruct (extends_zipAttempts url i 3 3 0%nat None w) as (ev & Ht & Hq).
  exists ev. destruct (ImageDownloader.zipAttempts _ _ _ _ _ _ _ _) as [r w1].
  simpl in *. done.
Qed.

Lemma extends_fileResults n results : forall i z,
  extends (ImageDownloader.fileResults i n results z).
Proof.
  induction results as [|r rest IH]; intros i z; simpl; [ext|].
  apply yields_bind; [ext|]. intros ?. apply IH.
Qed.

Lemma extends_zipLoop n bs : forall i z, extends (ImageDownloader.zipLoop env i n bs z).
Proof.
  induction bs as [|batch rest IH]; intros i z; simpl; [ext|].
  apply yields_bind; [apply extends_settleAll|]. intros ?.
  apply yields_bind; [apply extends_fileResults|]. intros ?.
  apply yields_bind; [ext|]. intros ?. apply IH.
Qed.
End Extends.

(** A computation only ever adds to the log. *)
Section Grows.
Variable env : Env.






End Grows.

Section ZipLoop.
Variable env : Env.
Variable images : list string.








End ZipLoop.


(** ** The media download chain *)

Section Chain.
Variable env : Env.

(** Two attempts of [retryAsync] under the [catch] of [tryMethods]. *)
Lemma tryMethods_cons g (method : M World unit) rest w :
  MediaDownloader.tryMethods env g (method :: rest) w
  = SpecChain.twiceGuarded env g method (MediaDownloader.tryMethods env g rest) w.
Proof.
  cbn [MediaDownloader.tryMethods]. unfold Utils.retryAsync, SpecChain.twiceGuarded.
  cbn [Utils.retry_loop]. unfold try_catch, bind.
  destruct (method w) as [[[]|e1] w1]; [done|].
  change (0 <? 2 - 1)%nat with true. change (1 <? 2 - 1)%nat with false.
  cbv iota. change (1000 * 2 ^ Z.of_nat 0) with 1000.
  destruct (Utils.sleep env 1000 w1) as [[[]|?] w2] eqn:Hs; [|done].
  destruct (method w2) as [[[]|e2] w3]; [done|]. done.
Qed.

Lemma twiceGuarded_ext g (method next next' : M World unit) :
  (forall w, next w = next' w) ->
  forall w, SpecChain.twiceGuarded env g method next w
            = SpecChain.twiceGuarded env g method next' w.
Proof.
  intros H w. unfold SpecChain.twiceGuarded, try_catch, bind.
  destruct (method w) as [[[]|e1] w1]; [done|].
  destruct (Utils.sleep env 1000 w1) as [[[]|?] w2]; [|done].
  destruct (method w2) as [[[]|e2] w3]; [done|].
  destruct (g && _); [done|apply H].
Qed.

Lemma attemptDownload_unrolled url fn w :
  MediaDownloader.attemptDownload env url fn w = SpecChain.guardedChain env url fn w.
Proof.
  unfold MediaDownloader.attemptDownload, SpecChain.guardedChain.
  rewrite tryMethods_cons. apply twiceGuarded_ext. clear w. intros w.
  rewrite tryMethods_cons. apply twiceGuarded_ext. clear w. intros w.
  rewrite tryMethods_cons. apply twiceGuarded_ext. clear w. intros w.
  reflexivity.
Qed.

Lemma guardedChain_off_tikvid url fn w :
  MediaDownloader.isTikVidUrl url = false ->
  SpecChain.guardedChain env url fn w = SpecChain.chain env url fn w.
Proof.
  intros H. unfold SpecChain.guardedChain. rewrite H. reflexivity.
Qed.

(** *** What one attempt of each transport leaves in the log *)

Ltac run :=
  intros w; cbn beta iota;
  repeat (match goal with
          | |- context [http env ?w ?r] => destruct (http env w r)
          | |- context [dom_throws env ?w ?a] => destruct (dom_throws env w a)
          | |- context [if ?x then _ else _] => destruct x
          end; cbn [fst snd trace log tick clock negb]);
  eexists; (split; [rewrite <- ?app_assoc; reflexivity|]).

Ltac member := repeat first [apply list_elem_of_here | apply list_elem_of_further].

Ltac absent H :=
  repeat (apply elem_of_cons in H as [H|H]; [discriminate|]);
  by apply elem_of_nil in H.

Lemma emits_createDirectDownloadLink url fn :
  emits (MediaDownloader.createDirectDownloadLink env url fn)
    (fun r ev => Trace.attempts ev = [Trace.NativeLink]
                 /\ linkEvent url fn ∈ ev /\ ~ saved ev
                 /\ (forall e, r = Thrown e -> last ev = Some (linkEvent url fn))).
Proof.
  unfold MediaDownloader.createDirectDownloadLink, bind, Utils.dom, Utils.later,
    modify, ret.
  run; (split; [done|]); (split; [unfold linkEvent; member|]);
    (split; [intros (? & ? & H); absent H|]); done.
Qed.

Lemma emits_downloadViaTikVidProxy url fn :
  emits (MediaDownloader.downloadViaTikVidProxy env url fn)
    (fun r ev => Trace.attempts ev = [Trace.Proxy]
                 /\ (forall a, r = Returned a -> saved ev)).
Proof.
  unfold MediaDownloader.downloadViaTikVidProxy, MediaDownloader.checkTikVidProxyHealth,
    MediaDownloader.downloadBlob, bind, try_catch, throw, Utils.fetch, Utils.dom, ret.
  run; (split; [done|]); intros ? [=]; subst; eexists _, _; member.
Qed.

Lemma emits_downloadViaFetch url fn :
  emits (MediaDownloader.downloadViaFetch env url fn)
    (fun r ev => Trace.attempts ev = [Trace.DirectFetch]
                 /\ (forall a, r = Returned a -> saved ev)).
Proof.
  unfold MediaDownloader.downloadViaFetch,
    MediaDownloader.downloadBlob, bind, try_catch, throw, Utils.fetch, Utils.dom, ret.
  run; (split; [done|]); intros ? [=]; subst; eexists _, _; member.
Qed.

Lemma attempts_app ev1 ev2 :
  Trace.attempts (ev1 ++ ev2) = (Trace.attempts ev1 ++ Trace.attempts ev2)%list.
Proof. apply omap_app. Qed.

(** One level of the chain: a transport with its two attempts, then the
    rest of the chain. *)
Lemma emits_level g t url fn (method next : M World unit) ok fail :
  emits method (fun r ev =>
    Trace.attempts ev = [t]
    /\ (forall a, r = Returned a -> ~ saved ev -> linkEvent url fn ∈ ev)) ->
  emits next (fun r ev =>
    match r with
    | Returned _ => Trace.attempts ev ∈ ok /\ (~ saved ev -> linkEvent url fn ∈ ev)
    | Thrown _ => Trace.attempts ev ∈ fail
    end) ->
  emits (SpecChain.twiceGuarded env g method next) (fun r ev =>
    match r with
    | Returned _ =>
        Trace.attempts ev ∈ [t] :: [t; t] :: List.map (fun l => t :: t :: l) ok
        /\ (~ saved ev -> linkEvent url fn ∈ ev)
    | Thrown _ =>
        Trace.attempts ev ∈ [t; t] :: List.map (fun l => t :: t :: l) fail
    end).
Proof.
  intros Hm Hn w. unfold SpecChain.twiceGuarded, try_catch, bind.
  destruct (Hm w) as (ev1 & Ht1 & Ha1 & Hs1).
  destruct (method w) as [[[]|e1] w1]; cbn [fst snd] in *.
  { exists ev1. split; [done|]. split; [rewrite Ha1; member|]. eauto. }
  cbn [Utils.sleep].
  match goal with |- context [method ?w2] =>
    destruct (Hm w2) as (ev2 & Ht2 & Ha2 & Hs2);
    destruct (method w2) as [[[]|e2] w3] end; cbn [fst snd trace log tick] in *.
  { exists (ev1 ++ EvSleep 1000 :: ev2)%list.
    split; [by rewrite Ht2, Ht1, <- !app_assoc|].
    rewrite attempts_app. cbn. fold (Trace.attempts ev2). rewrite Ha1, Ha2.
    split; [member|]. intros Hns. apply elem_of_app. right. right.
    apply (Hs2 tt eq_refl). intros (f & b & H). apply Hns. exists f, b.
    apply elem_of_app. right. by right. }
  destruct (g && MediaDownloader.connectionError e2).
  { exists (ev1 ++ EvSleep 1000 :: ev2)%list. cbn [fst snd throw].
    split; [by rewrite Ht2, Ht1, <- !app_assoc|].
    rewrite attempts_app. cbn. fold (Trace.attempts ev2). rewrite Ha1, Ha2. member. }
  destruct (Hn w3) as (ev3 & Ht3 & H3).
  exists (ev1 ++ EvSleep 1000 :: ev2 ++ ev3)%list.
  split; [by rewrite Ht3, Ht2, Ht1, <- !app_assoc|].
  rewrite attempts_app. cbn. fold (Trace.attempts (ev2 ++ ev3)).
  rewrite attempts_app, Ha1, Ha2. cbn.
  destruct (next w3) as [[[]|e3] w4]; cbn [fst snd] in *.
  - destruct H3 as [H3 Hl3]. split.
    + do 2 apply list_elem_of_further. apply list_elem_of_fmap. eauto.
    + intros Hns. apply elem_of_app. right. right. apply elem_of_app. right.
      apply Hl3. intros (f & b & H). apply Hns. exists f, b.
      apply elem_of_app. right. right. apply elem_of_app. by right.
  - apply list_elem_of_further. apply list_elem_of_fmap. eauto.
Qed.

Lemma emits_pointwise {A} (m m' : M World A) R :
  (forall w, m w = m' w) -> emits m' R -> emits m R.
Proof. intros H Hm w. rewrite H. apply Hm. Qed.

Lemma emits_guardedChain url fn :
  emits (SpecChain.guardedChain env url fn) (fun r ev =>
    let P := Trace.Proxy in
    let F := Trace.DirectFetch in
    let L := Trace.NativeLink in
    match r with
    | Returned _ =>
        Trace.attempts ev ∈ [ [P]; [P; P]; [P; P; F]; [P; P; F; F];
                              [P; P; F; F; L]; [P; P; F; F; L; L] ]
        /\ (~ saved ev -> linkEvent url fn ∈ ev)
    | Thrown _ =>
        Trace.attempts ev ∈ [ [P; P]; [P; P; F; F]; [P; P; F; F; L; L];
                              [P; P; F; F; L; L] ]
    end).
Proof.
  unfold SpecChain.guardedChain.
  apply (emits_level _ Trace.Proxy url fn _ _
           [ [Trace.DirectFetch]; [Trace.DirectFetch; Trace.DirectFetch];
             [Trace.DirectFetch; Trace.DirectFetch; Trace.NativeLink];
             [Trace.DirectFetch; Trace.DirectFetch; Trace.NativeLink; Trace.NativeLink] ]
           [ [Trace.DirectFetch; Trace.DirectFetch];
             [Trace.DirectFetch; Trace.DirectFetch; Trace.NativeLink; Trace.NativeLink];
             [Trace.DirectFetch; Trace.DirectFetch; Trace.NativeLink; Trace.NativeLink] ]).
  { eapply emits_weaken; [apply emits_downloadViaTikVidProxy|cbv beta].
    intros r ev [Ha Hs]. split; [done|]. intros a -> Hn. destruct Hn. eauto. }
  apply (emits_level _ Trace.DirectFetch url fn _ _
           [ [Trace.NativeLink]; [Trace.NativeLink; Trace.NativeLink] ]
           [ [Trace.NativeLink; Trace.NativeLink];
             [Trace.NativeLink; Trace.NativeLink] ]).
  { eapply emits_weaken; [apply emits_downloadViaFetch|cbv beta].
    intros r ev [Ha Hs]. split; [done|]. intros a -> Hn. destruct Hn. eauto. }
  apply (emits_level _ Trace.NativeLink url fn _ _ [] [ [] ]).
  { eapply emits_weaken; [apply emits_createDirectDownloadLink|cbv beta].
    intros r ev (Ha & Hl & _). done. }
  eapply emits_weaken; [apply emits_throw|cbv beta].
  intros r ev [-> ->]. member.
Qed.

Lemma emits_downloadMedia url fn type :
  Js.truthy url = true -> url <> "#" ->
  emits (MediaDownloader.downloadMedia env url fn type) (fun r ev =>
    Trace.attempts ev ∈ mediaAttempts
    /\ (~ saved ev -> linkEvent url fn ∈ ev)
    /\ (forall e, r = Thrown e -> last ev = Some (linkEvent url fn))).
Proof.
  intros Hurl Hne w. unfold MediaDownloader.downloadMedia.
  rewrite Hurl, (proj2 (String.eqb_neq _ _) Hne). cbn [negb orb].
  unfold try_catch.
  rewrite (bind_returned _ _ _ tt) by reflexivity.
  cbn [Utils.ui modify fst snd].
  set (w1 := log (EvUi (ShowDownloadLoader fn type)) w).
  destruct (emits_pointwise _ _ _ (attemptDownload_unrolled url fn)
              (emits_guardedChain url fn) w1) as (evc & Htc & Hc).
  unfold bind.
  destruct (MediaDownloader.attemptDownload env url fn w1) as [[[]|e] w2];
    cbn [fst snd Utils.ui modify] in *.
  - eexists. split.
    { cbn. rewrite Htc. subst w1. cbn. rewrite <- !app_assoc. reflexivity. }
    destruct Hc as [Hc Hl]. cbn [fst snd].
    rewrite !attempts_app. cbn. fold (Trace.attempts evc).
    rewrite app_nil_r. split; [|split; [|done]].
    + unfold mediaAttempts.
      repeat (apply elem_of_cons in Hc as [->|Hc]; [member|]).
      by apply elem_of_nil in Hc.
    + intros Hns. apply elem_of_cons. right. apply elem_of_app. left.
      apply Hl. intros (f & b & H). apply Hns. exists f, b.
      apply elem_of_cons. right. apply elem_of_app. by left.
  - match goal with |- context [MediaDownloader.createDirectDownloadLink env url fn ?w3] =>
      destruct (emits_createDirectDownloadLink url fn w3)
        as (evl & Htl & Hal & Hll & _ & Hlast);
      destruct (MediaDownloader.createDirectDownloadLink env url fn w3) as [r w4]
    end. cbn [fst snd] in *.
    exists (EvUi (ShowDownloadLoader fn type) :: evc
            ++ [EvUi HideLoaderImmediate;
                EvUi (Notification "Tải trực tiếp"
                        "Không thể tải qua proxy. Đã mở liên kết tải trực tiếp"
                        "warning")] ++ evl)%list.
    split.
    { rewrite Htl. cbn. rewrite Htc. subst w1. cbn. by rewrite <- !app_assoc. }
    change (EvUi (ShowDownloadLoader fn type) :: ?l)
      with ([EvUi (ShowDownloadLoader fn type)] ++ l)%list.
    rewrite !attempts_app. cbn. fold (Trace.attempts evc) (Trace.attempts evl).
    rewrite Hal. split; [|split].
    + unfold mediaAttempts.
      repeat (apply elem_of_cons in Hc as [->|Hc]; [cbn; member|]).
      by apply elem_of_nil in Hc.
    + intros _. apply elem_of_cons. right. apply elem_of_app. right.
      apply elem_of_cons. right. apply elem_of_cons. by right.
    + intros e' ->. specialize (Hlast e' eq_refl).
      destruct evl as [|x evl]; [done|].
      rewrite last_cons, last_app, !(last_cons (EvUi _)). by rewrite Hlast.
Qed.
End Chain.

(** *** The proxy serves empty bodies and the direct fetch gets 404 *)

Section Empty404.
Variable env : Env.
Variables url fn : string.
Hypothesis health : forall w, exists resp,
  http env w ReqProxyHealth = Resolved resp /\ res_status resp = 200%nat.
Hypothesis proxy : forall w, exists resp,
  http env w (ReqProxyDownload url fn) = Resolved resp
  /\ res_ok resp = true /\ blob_size (res_blob resp) = 0%nat.
Hypothesis noCors : forall w, exists resp,
  http env w (ReqNoCors url) = Resolved resp /\ blob_size (res_blob resp) = 0%nat.
Hypothesis cors : forall w, exists resp,
  http env w (ReqCors url) = Resolved resp
  /\ res_ok resp = false
  /\ MediaDownloader.connectionError (MediaDownloader.httpError resp) = false.
Hypothesis link : forall w, dom_throws env w (DirectLink url fn) = None.

Lemma proxy_fails w : exists w',
  MediaDownloader.downloadViaTikVidProxy env url fn w
  = (Thrown "Empty file received from TikVid proxy", w')
  /\ trace w' = (trace w ++ [EvRequest ReqProxyHealth;
                             EvRequest (ReqProxyDownload url fn)])%list.
Proof.
  unfold MediaDownloader.downloadViaTikVidProxy, MediaDownloader.checkTikVidProxyHealth,
    bind, try_catch, Utils.fetch.
  destruct (health w) as (r1 & -> & ->). cbn [Nat.eqb orb ret].
  match goal with |- context [http env ?w1 (ReqProxyDownload url fn)] =>
    destruct (proxy w1) as (r2 & -> & -> & ->) end.
  cbn. eexists. split; [reflexivity|]. cbn. by rewrite <- app_assoc.
Qed.

Lemma fetch_fails w : exists resp w',
  MediaDownloader.downloadViaFetch env url fn w
  = (Thrown (MediaDownloader.httpError resp), w')
  /\ MediaDownloader.connectionError (MediaDownloader.httpError resp) = false
  /\ trace w' = (trace w ++ [EvRequest (ReqNoCors url); EvRequest (ReqCors url)])%list.
Proof.
  unfold MediaDownloader.downloadViaFetch, bind, try_catch, Utils.fetch.
  destruct (noCors w) as (r1 & -> & ->). cbn [Nat.eqb throw].
  match goal with |- context [http env ?w1 (ReqCors url)] =>
    destruct (cors w1) as (r2 & -> & -> & Hc) end.
  cbn. eexists _, _. split; [reflexivity|]. split; [done|].
  cbn. by rewrite <- app_assoc.
Qed.

Lemma link_succeeds w : exists w',
  MediaDownloader.createDirectDownloadLink env url fn w = (Returned tt, w')
  /\ trace w' = (trace w ++ linkEvent url fn
                   :: (if is_mobile env then [EvLater 100 (WindowOpen url)] else []))%list.
Proof.
  unfold MediaDownloader.createDirectDownloadLink, bind, Utils.dom.
  rewrite link. destruct (is_mobile env); cbn; eexists; (split; [reflexivity|]); cbn.
  - by rewrite <- app_assoc.
  - done.
Qed.

Lemma twiceGuarded_exhausted g (method next : M World unit) w e1 w1 e2 w3 :
  method w = (Thrown e1, w1) ->
  method (Utils.sleep env 1000 w1).2 = (Thrown e2, w3) ->
  MediaDownloader.connectionError e2 = false ->
  SpecChain.twiceGuarded env g method next w = next w3.
Proof.
  intros H1 H2 Hc. unfold SpecChain.twiceGuarded, try_catch, bind.
  rewrite H1. cbn [Utils.sleep snd] in *. rewrite H2, Hc.
  by rewrite andb_false_r.
Qed.

Lemma empty404_run type w :
  Js.truthy url = true -> url <> "#" ->
  exists w',
    MediaDownloader.downloadMedia env url fn type w = (Returned tt, w')
    /\ Trace.since w w'
       = ([ EvUi (ShowDownloadLoader fn type);
            EvRequest ReqProxyHealth; EvRequest (ReqProxyDownload url fn);
            EvSleep 1000;
            EvRequest ReqProxyHealth; EvRequest (ReqProxyDownload url fn);
            EvRequest (ReqNoCors url); EvRequest (ReqCors url);
            EvSleep 1000;
            EvRequest (ReqNoCors url); EvRequest (ReqCors url);
            linkEvent url fn ]
          ++ (if is_mobile env then [EvLater 100 (WindowOpen url)] else [])
          ++ [ EvUi HideLoader;
               EvUi (Notification "Tải thành công!"
                       ((if String.eqb type "video" then "Video" else "Audio")
                        +:+ " đã được tải về máy") "success") ])%list.
Proof.
  intros Hurl Hne. unfold MediaDownloader.downloadMedia.
  rewrite Hurl, (proj2 (String.eqb_neq _ _) Hne). cbn [negb orb].
  unfold try_catch. rewrite (bind_returned _ _ _ tt) by reflexivity.
  cbn [Utils.ui modify fst snd].
  set (w1 := log (EvUi (ShowDownloadLoader fn type)) w).
  destruct (proxy_fails w1) as (w2 & Hp1 & Ht2).
  destruct (proxy_fails (Utils.sleep env 1000 w2).2) as (w3 & Hp2 & Ht3).
  destruct (fetch_fails w3) as (r1 & w4 & Hf1 & _ & Ht4).
  destruct (fetch_fails (Utils.sleep env 1000 w4).2) as (r2 & w5 & Hf2 & Hc2 & Ht5).
  destruct (link_succeeds w5) as (w6 & Hl & Ht6).
  assert (Hchain : MediaDownloader.attemptDownload env url fn w1 = (Returned tt, w6)).
  { rewrite attemptDownload_unrolled. unfold SpecChain.guardedChain.
    rewrite (twiceGuarded_exhausted _ _ _ _ _ _ _ _ Hp1 Hp2 eq_refl).
    rewrite (twiceGuarded_exhausted _ _ _ _ _ _ _ _ Hf1 Hf2 Hc2).
    unfold SpecChain.twiceGuarded, try_catch. by rewrite Hl. }
  unfold bind at 1. rewrite Hchain. cbn.
  eexists. split; [reflexivity|].
  unfold Trace.since. cbn. rewrite Ht6, Ht5. cbn. rewrite Ht4, Ht3. cbn.
  rewrite Ht2. subst w1. cbn.
  rewrite <- !app_assoc. rewrite drop_app_length. cbn.
  by destruct (is_mobile env).
Qed.
End Empty404.

(** *** The guard on a TikVid URL *)

Section Guard.
Variable env : Env.
Variables url fn : string.
Hypothesis tikvid : MediaDownloader.isTikVidUrl url = true.

Lemma twiceGuarded_guard (method next : M World unit) w e1 w1 e2 w2 :
  method w = (Thrown e1, w1) ->
  method (Utils.sleep env 1000 w1).2 = (Thrown e2, w2) ->
  MediaDownloader.connectionError e2 = true ->
  SpecChain.twiceGuarded env true method next w
  = (Thrown MediaDownloader.tikvidUnavailable, w2).
Proof.
  intros H1 H2 Hc. unfold SpecChain.twiceGuarded, try_catch, bind.
  rewrite H1. cbn [Utils.sleep snd] in *. by rewrite H2, Hc.
Qed.

Lemma guard_on_proxy w e1 w1 e2 w2 :
  MediaDownloader.downloadViaTikVidProxy env url fn w = (Thrown e1, w1) ->
  MediaDownloader.downloadViaTikVidProxy env url fn (Utils.sleep env 1000 w1).2
  = (Thrown e2, w2) ->
  MediaDownloader.connectionError e2 = true ->
  MediaDownloader.attemptDownload env url fn w
  = (Thrown MediaDownloader.tikvidUnavailable, w2).
Proof.
  intros H1 H2 Hc. rewrite attemptDownload_unrolled. unfold SpecChain.guardedChain.
  rewrite tikvid. by apply (twiceGuarded_guard _ _ w e1 w1 e2 w2).
Qed.

Lemma guard_on_fetch w e1 w1 e2 w2 e3 w3 e4 w4 :
  MediaDownloader.downloadViaTikVidProxy env url fn w = (Thrown e1, w1) ->
  MediaDownloader.downloadViaTikVidProxy env url fn (Utils.sleep env 1000 w1).2
  = (Thrown e2, w2) ->
  MediaDownloader.connectionError e2 = false ->
  MediaDownloader.downloadViaFetch env url fn w2 = (Thrown e3, w3) ->
  MediaDownloader.downloadViaFetch env url fn (Utils.sleep env 1000 w3).2
  = (Thrown e4, w4) ->
  MediaDownloader.connectionError e4 = true ->
  MediaDownloader.attemptDownload env url fn w
  = (Thrown MediaDownloader.tikvidUnavailable, w4).
Proof.
  intros H1 H2 Hc2 H3 H4 Hc4. rewrite attemptDownload_unrolled.
  unfold SpecChain.guardedChain. rewrite tikvid.
  rewrite (twiceGuarded_exhausted env _ _ _ w e1 w1 e2 w2 H1 H2 Hc2).
  by apply (twiceGuarded_guard _ _ w2 e3 w3 e4 w4).
Qed.

(** The proxy cannot be reached. *)
Hypothesis refused : forall w, exists m,
  http env w ReqProxyHealth = Rejected m
  /\ MediaDownloader.connectionError (MediaDownloader.healthError m) = true.

Lemma proxy_refused w : exists m w',
  MediaDownloader.downloadViaTikVidProxy env url fn w
  = (Thrown (MediaDownloader.healthError m), w')
  /\ MediaDownloader.connectionError (MediaDownloader.healthError m) = true
  /\ trace w' = (trace w ++ [EvRequest ReqProxyHealth])%list.
Proof.
  unfold MediaDownloader.downloadViaTikVidProxy, MediaDownloader.checkTikVidProxyHealth,
    bind, try_catch, Utils.fetch.
  destruct (refused w) as (m & -> & Hc). cbn.
  eexists _, _. split; [reflexivity|]. split; [done|]. done.
Qed.

Lemma refused_run type w :
  Js.truthy url = true -> url <> "#" ->
  let '(r, w') := MediaDownloader.downloadMedia env url fn type w in
  exists rest,
    Trace.since w w'
    = ([ EvUi (ShowDownloadLoader fn type);
         EvRequest ReqProxyHealth;
         EvSleep 1000;
         EvRequest ReqProxyHealth;
         EvUi HideLoaderImmediate;
         EvUi (Notification "Tải trực tiếp"
                 "Không thể tải qua proxy. Đã mở liên kết tải trực tiếp"
                 "warning");
         linkEvent url fn ] ++ rest)%list
    /\ Trace.attempts (Trace.since w w')
       = [Trace.Proxy; Trace.Proxy; Trace.NativeLink].
Proof.
  intros Hurl Hne. unfold MediaDownloader.downloadMedia.
  rewrite Hurl, (proj2 (String.eqb_neq _ _) Hne). cbn [negb orb].
  unfold try_catch. rewrite (bind_returned _ _ _ tt) by reflexivity.
  cbn [Utils.ui modify fst snd].
  set (w1 := log (EvUi (ShowDownloadLoader fn type)) w).
  destruct (proxy_refused w1) as (m1 & w2 & Hp1 & _ & Ht2).
  destruct (proxy_refused (Utils.sleep env 1000 w2).2) as (m2 & w3 & Hp2 & Hc2 & Ht3).
  unfold bind at 1.
  rewrite (guard_on_proxy w1 _ w2 _ w3 Hp1 Hp2 Hc2).
  unfold bind at 1. cbn [Utils.ui modify fst snd]. unfold bind at 1.
  cbn [Utils.ui modify fst snd].
  unfold MediaDownloader.createDirectDownloadLink, bind, Utils.dom.
  destruct (dom_throws env _ (DirectLink url fn));
    [|destruct (is_mobile env)]; cbn;
    (eexists; split;
     [unfold Trace.since; cbn; rewrite Ht3; cbn; rewrite Ht2; subst w1; cbn;
      rewrite <- !app_assoc; rewrite drop_app_length; cbn; reflexivity
     |unfold Trace.since; cbn; rewrite Ht3; cbn; rewrite Ht2; subst w1; cbn;
      rewrite <- !app_assoc; rewrite drop_app_length; reflexivity]).
Qed.
End Guard.

(** C3, as stated: on a TikVid URL, with the network down, the direct
    fetch is never tried. *)
Lemma C3_chain_stops_on_tikvid_host :
  Trace.attempts
    (trace (MediaDownloader.downloadMedia Examples.envOffline Examples.tikvidTarget
              "v.mp4" "video" Examples.w0).2)
  = [Trace.Proxy; Trace.Proxy; Trace.NativeLink]
  /\ Trace.attempts
       (trace (SpecChain.chain Examples.envOffline Examples.tikvidTarget "v.mp4"
                 Examples.w0).2)
     = [Trace.Proxy; Trace.Proxy; Trace.DirectFetch; Trace.DirectFetch;
        Trace.NativeLink]
  /\ MediaDownloader.attemptDownload Examples.envOffline Examples.tikvidTarget "v.mp4"
       Examples.w0
     <> SpecChain.chain Examples.envOffline Examples.tikvidTarget "v.mp4" Examples.w0.
Proof.
  split; [by vm_compute|]. split; [by vm_compute|].
  intros H. apply (f_equal (fun p => Trace.attempts (trace p.2))) in H.
  vm_compute in H. discriminate.
Qed.

(** C3, amended (media download chain).  A TikVid URL is a URL whose text
    contains dl.snapcdn.app, tikvid.io or muscdn.com, anywhere.  For a
    target that is not a TikVid URL, the methods run in the order proxy,
    direct fetch, native link, each attempted twice with a pause of 1000 ms
    in between.  For a TikVid URL the order is the same, but a method whose
    second attempt fails with a connection error (a message that contains
    ERR_CONNECTION_REFUSED or Failed to fetch) ends the chain there, with
    the message of the unavailable API: nothing else is attempted by the
    chain.  So when the proxy cannot be reached, the run of the operation on
    a TikVid URL is two health checks of the proxy 1000 ms apart, then the
    warning and the native link of the failure handler; the direct fetch is
    never tried.  For every non-empty target other than #, the attempts
    made are one of the runs of [mediaAttempts]; the native link is executed
    whenever no blob was saved, and the operation throws only when the native
    link itself throws.  With a proxy that answers empty bodies and a direct
    fetch that answers 404, the run is proxy, proxy, fetch, fetch, link,
    with two pauses of 1000 ms, and ends with the success notification. *)
Theorem C3_media_download_chain :
  (forall env url fn w,
     MediaDownloader.isTikVidUrl url = false ->
     MediaDownloader.attemptDownload env url fn w = SpecChain.chain env url fn w)
  /\ (forall env url fn w e1 w1 e2 w2,
        MediaDownloader.isTikVidUrl url = true ->
        MediaDownloader.downloadViaTikVidProxy env url fn w = (Thrown e1, w1) ->
        MediaDownloader.downloadViaTikVidProxy env url fn (Utils.sleep env 1000 w1).2
        = (Thrown e2, w2) ->
        (MediaDownloader.connectionError e2 = true ->
         MediaDownloader.attemptDownload env url fn w
         = (Thrown MediaDownloader.tikvidUnavailable, w2))
        /\ (MediaDownloader.connectionError e2 = false ->
            forall e3 w3 e4 w4,
              MediaDownloader.downloadViaFetch env url fn w2 = (Thrown e3, w3) ->
              MediaDownloader.downloadViaFetch env url fn (Utils.sleep env 1000 w3).2
              = (Thrown e4, w4) ->
              MediaDownloader.connectionError e4 = true ->
              MediaDownloader.attemptDownload env url fn w
              = (Thrown MediaDownloader.tikvidUnavailable, w4)))
  /\ (forall env url fn type w,
        Js.truthy url = true -> url <> "#" ->
        MediaDownloader.isTikVidUrl url = true ->
        (forall w', exists m,
            http env w' ReqProxyHealth = Rejected m
            /\ MediaDownloader.connectionError (MediaDownloader.healthError m) = true) ->
        let '(r, w') := MediaDownloader.downloadMedia env url fn type w in
        exists rest,
          Trace.since w w'
          = ([ EvUi (ShowDownloadLoader fn type);
               EvRequest ReqProxyHealth;
               EvSleep 1000;
               EvRequest ReqProxyHealth;
               EvUi HideLoaderImmediate;
               EvUi (Notification "Tải trực tiếp"
                       "Không thể tải qua proxy. Đã mở liên kết tải trực tiếp"
                       "warning");
               linkEvent url fn ] ++ rest)%list
          /\ Trace.attempts (Trace.since w w')
             = [Trace.Proxy; Trace.Proxy; Trace.NativeLink])
  /\ (forall env url fn type w,
        Js.truthy url = true -> url <> "#" ->
        let '(r, w') := MediaDownloader.downloadMedia env url fn type w in
        let ev := Trace.since w w' in
        Trace.attempts ev ∈ mediaAttempts
        /\ (~ saved ev -> linkEvent url fn ∈ ev)
        /\ (forall e, r = Thrown e -> last ev = Some (linkEvent url fn)))
  /\ (forall env url fn type w,
        Js.truthy url = true -> url <> "#" ->
        (forall w', exists resp,
            http env w' ReqProxyHealth = Resolved resp /\ res_status resp = 200%nat) ->
        (forall w', exists resp,
            http env w' (ReqProxyDownload url fn) = Resolved resp
            /\ res_ok resp = true /\ blob_size (res_blob resp) = 0%nat) ->
        (forall w', exists resp,
            http env w' (ReqNoCors url) = Resolved resp
            /\ blob_size (res_blob resp) = 0%nat) ->
        (forall w', exists resp,
            http env w' (ReqCors url) = Resolved resp
            /\ res_ok resp = false
            /\ MediaDownloader.connectionError (MediaDownloader.httpError resp) = false) ->
        (forall w', dom_throws env w' (DirectLink url fn) = None) ->
        exists w',
          MediaDownloader.downloadMedia env url fn type w = (Returned tt, w')
          /\ Trace.attempts (Trace.since w w')
             = [Trace.Proxy; Trace.Proxy; Trace.DirectFetch; Trace.DirectFetch;
                Trace.NativeLink]
          /\ List.filter (fun e => match e with EvSleep _ => true | _ => false end)
               (Trace.since w w')
             = [EvSleep 1000; EvSleep 1000]
          /\ last (Trace.since w w')
             = Some (EvUi (Notification "Tải thành công!"
                             ((if String.eqb type "video" then "Video" else "Audio")
                              +:+ " đã được tải về máy") "success"))).
Proof.
  split; [|split; [|split; [|split]]].
  - intros env url fn w H.
    by rewrite attemptDownload_unrolled, guardedChain_off_tikvid.
  - intros env url fn w e1 w1 e2 w2 Hg H1 H2. split.
    + intros Hc. by apply (guard_on_proxy env url fn Hg w e1 w1 e2 w2).
    + intros Hc e3 w3 e4 w4 H3 H4 Hc4.
      by apply (guard_on_fetch env url fn Hg w e1 w1 e2 w2 e3 w3 e4 w4).
  - intros env url fn type w Hurl Hne Hg Hdown.
    by apply (refused_run env url fn Hg Hdown type w).
  - intros env url fn type w Hurl Hne.
    pose proof (since_emits _ _ w (emits_downloadMedia env url fn type Hurl Hne)) as H.
    cbv beta in H.
    by destruct (MediaDownloader.downloadMedia env url fn type w) as [r w'].
  - intros env url fn type w Hurl Hne Hh Hp Hn Hc Hl.
    destruct (empty404_run env url fn Hh Hp Hn Hc Hl type w Hurl Hne) as (w' & Hrun & Hev).
    exists w'. split; [done|]. rewrite Hev.
    destruct (is_mobile env); by cbn.
Qed.

(** ** The two validators *)

(** What the allow-list of validators.js accepts has an allowed host. *)
Lemma validateTikTokUrl_allowed url :
  Validators.isValidTikTokUrl url = true ->
  exists normalizedUrl urlObj,
    Validators.cleanUrl (Validators.validateTikTokUrl url) = Some normalizedUrl
    /\ Url.parse normalizedUrl = Some urlObj
    /\ Validators.isValidDomain (Js.toLowerCase (Url.hostname urlObj)) = true.
Proof.
  unfold Validators.isValidTikTokUrl, Validators.validateTikTokUrl.
  destruct (negb (Validators.isNotEmpty (Js.trim url))); [done|].
  set (normalizedUrl := if negb (Js.startsWith (Js.trim url) "http") then _ else _).
  destruct (Url.parse normalizedUrl) as [urlObj|] eqn:Hparse; [|done].
  destruct (Validators.isValidDomain _) eqn:Hdomain; [|done]. cbn [negb].
  destruct (Constants.TIKTOK_URL_test normalizedUrl); [|done]. cbn.
  intros _. eauto.
Qed.

(** C6 (URL validation).  The validator of validators.js rejects the host
    nottiktok.com, which is outside the allow-list; the validator that
    [APIManager.fetchVideoData] consults accepts it, since it looks for the
    allowed names anywhere inside the host, and the fetch goes through.
    Conversely an address without scheme, which validators.js accepts after
    prefixing https, is refused by [fetchVideoData], and [cleanUrl] returns it
    with its tracking parameter.  On a well-formed TikTok address [cleanUrl]
    removes the tracking parameters and keeps the others. *)
Theorem C6_the_two_validators_disagree :
  let lookalike := "https://nottiktok.com/video/1?_r=1" in
  let schemeless := "tiktok.com/@user/video/123?_r=1" in
  (Validators.isValidTikTokUrl lookalike = false
   /\ Utils.isValidTikTokUrl lookalike = true
   /\ Api.cleanUrl lookalike = "https://nottiktok.com/video/1"
   /\ (Api.fetchVideoData Examples.envHealthy lookalike Examples.s0).1
      = Returned (Api.combineMetadataAndDownloads
                    (Api.normalizeTikwmData Examples.rawX)
                    (Api.normalizeTikVidData Examples.rawLinks)
                    "https://nottiktok.com/video/1"))
  /\ (Validators.validateTikTokUrl schemeless
      = {| Validators.isValid := true; Validators.error := None;
           Validators.cleanUrl := Some "https://tiktok.com/@user/video/123?_r=1" |}
      /\ Utils.isValidTikTokUrl schemeless = false
      /\ Api.cleanUrl schemeless = schemeless
      /\ Api.fetchVideoData Examples.envHealthy schemeless Examples.s0
         = (Thrown Constants.INVALID_URL, Examples.s0))
  /\ Api.cleanUrl "https://www.tiktok.com/@user/video/123?_r=1&lang=en&is_copy_url=1"
     = "https://www.tiktok.com/@user/video/123?lang=en".
Proof. repeat split; by vm_compute. Qed.

(** ** The statements at the sample inputs *)

(** C1 on the sample payloads: the HD download URL is the HD entry, the
    standard preview URL the provider's play URL. *)
Lemma C1_witness :
  let fused := Api.combineMetadataAndDownloads
                 (Api.normalizeTikwmData Examples.rawX)
                 (Api.normalizeTikVidData Examples.rawLinks) "" in
  u_hdplay (Spec.downloadUrls fused) = d_url Examples.hdEntry
  /\ u_play (Spec.previewUrls fused) = "https://v16.tikwm.com/play.mp4".
Proof.
  destruct (C1_preview_urls_are_the_metadata_urls
              (Api.normalizeTikwmData Examples.rawX)
              (Api.normalizeTikVidData Examples.rawLinks) "")
    as (_ & _ & _ & section & _ & _ & Hhd & _).
  destruct (Hhd Examples.hdEntry) as (_ & Hdl & Hpv).
  - eexists [_], [_]. split; [reflexivity|]. split; [reflexivity|].
    intros x Hx. apply list_elem_of_singleton in Hx as ->. reflexivity.
  - split; [apply Hdl; reflexivity|exact Hpv].
Defined.

(** C2 on the sample environment whose download-link provider is down. *)
Lemma C2_witness :
  exists fused s',
    Api.fetchVideoData Examples.envDegraded
      "https://www.tiktok.com/@user/video/123?_r=1" Examples.s0
    = (Returned fused, s')
    /\ Spec.downloadUrls fused = Spec.previewUrls fused
    /\ source (metadata fused) = "tikwm_with_proxy_fallback".
Proof.
  destruct (C2_degraded_mode Examples.envDegraded
              "https://www.tiktok.com/@user/video/123?_r=1"
              Examples.s0 Examples.s0
              (Api.fetchMetadata Examples.envDegraded
                 "https://www.tiktok.com/@user/video/123" Examples.s0).2
              (Api.fetchDownloadLinks Examples.envDegraded
                 "https://www.tiktok.com/@user/video/123"
                 (Api.fetchMetadata Examples.envDegraded
                    "https://www.tiktok.com/@user/video/123" Examples.s0).2).2
              (Api.normalizeTikwmData Examples.rawX)
              "TikVid download API failed")
    as (fused & s' & Hrun & Hsame & _ & Hsource & _);
    [vm_compute; reflexivity ..|].
  exists fused, s'. split; [exact Hrun|]. split; [exact Hsame|exact Hsource].
Defined.

(** C3 on a target that is not a TikVid URL with the network down, and on
    the sample environment with empty proxy bodies and 404 answers. *)
Lemma C3_witness :
  MediaDownloader.attemptDownload Examples.envOffline "https://v16.tikwm.com/play.mp4"
    "v.mp4" Examples.w0
  = SpecChain.chain Examples.envOffline "https://v16.tikwm.com/play.mp4" "v.mp4"
      Examples.w0
  /\ exists w',
       MediaDownloader.downloadMedia Examples.envEmpty404 Examples.tikvidTarget
         "v.mp4" "video" Examples.w0
       = (Returned tt, w')
       /\ Trace.attempts (Trace.since Examples.w0 w')
          = [Trace.Proxy; Trace.Proxy; Trace.DirectFetch; Trace.DirectFetch;
             Trace.NativeLink].
Proof.
  destruct C3_media_download_chain as (Horder & _ & _ & _ & Hscenario).
  split.
  - apply Horder. vm_compute. reflexivity.
  - destruct (Hscenario Examples.envEmpty404 Examples.tikvidTarget "v.mp4" "video"
                Examples.w0) as (w' & Hrun & Hattempts & _).
    + vm_compute. reflexivity.
    + vm_compute. discriminate.
    + intros w. eexists. split; reflexivity.
    + intros w. eexists. split; [reflexivity|]. split; reflexivity.
    + intros w. eexists. split; reflexivity.
    + intros w. eexists. split; [reflexivity|]. split; [reflexivity|].
      vm_compute. reflexivity.
    + intros w. reflexivity.
    + exists w'. split; [exact Hrun|exact Hattempts].
Defined.


(** C5 on one entry read after one second and after five minutes and one
    millisecond, and on fifty-one entries. *)
Lemma C5_witness :
  Api.cacheLookup 1000 "k" (Api.cacheStore 0 "k" (Api.normalizeTikwmData Examples.rawX) [])
  = (Some (Api.normalizeTikwmData Examples.rawX),
     Api.cacheStore 0 "k" (Api.normalizeTikwmData Examples.rawX) [])
  /\ (exists c',
        Api.cacheLookup 300001 "k"
          (Api.cacheStore 0 "k" (Api.normalizeTikwmData Examples.rawX) [])
        = (None, c') /\ JsMap.get "k" c' = None)
  /\ JsMap.keys (storeAll manyEntries []) = tl (List.map (fun e => e.1.1) manyEntries).
Proof.
  destruct C5_response_cache as (Hhit & Hexpired & Hevict).
  split; [|split].
  - apply Hhit; [vm_compute; lia|lia].
  - apply Hexpired; [vm_compute; lia|lia].
  - apply Hevict; [|reflexivity].
    apply (bool_decide_unpack _). vm_compute. reflexivity.
Defined.

(** C7 for a second acquisition 500 ms after the first: it sleeps 1500 ms. *)
Lemma C7_witness :
  let s1 := (Api.waitForRateLimit Examples.envDegraded Examples.s0).2 in
  let s2 := (Api.waitForRateLimit Examples.envDegraded (elapse 500 s1)).2 in
  lastRequestTime s1 + 2000 <= lastRequestTime s2
  /\ exists rest, Trace.since (world s1) (world s2) = EvSleep 1500 :: rest.
Proof.
  intros s1 s2.
  pose proof (C7_second_acquisition_waits Examples.envDegraded Examples.s0 500) as H.
  destruct (Api.waitForRateLimit Examples.envDegraded Examples.s0) as [r1 s1'] eqn:E1.
  subst s1. simpl in s2.
  destruct (Api.waitForRateLimit Examples.envDegraded (elapse 500 s1')) as [r2 s2'] eqn:E2.
  subst s2. simpl.
  destruct H as (_ & _ & Hmin & _ & Hsleep).
  split; [exact Hmin|]. apply Hsleep. lia.
Defined.

(** C8 on the sample payloads, where the metadata provider has a playable
    music object. *)
Lemma C8_witness :
  exists m,
    music_info (Api.combineMetadataAndDownloads
                  (Api.normalizeTikwmData Examples.rawX)
                  (Api.normalizeTikVidData Examples.rawLinks) "")
    = Some m
    /\ mi_play m = "https://sf16.tikwm.com/music.mp3".
Proof.
  destruct (C8_music_info_precedence
              (Api.normalizeTikwmData Examples.rawX)
              (Api.normalizeTikVidData Examples.rawLinks) "") as (Hfirst & _).
  destruct (Hfirst _ eq_refl eq_refl) as (m & Hm & Hplay & _).
  exists m. split; [exact Hm|exact Hplay].
Defined.

(** C9 on the five sample images, two of which fail. *)
Lemma C9_witness :
  let '(r, w') := DownloadManager.downloadAllImagesIndividually Examples.envImages
                    (Some Examples.fiveImages) Examples.w0 in
  r = Returned tt
  /\ Trace.steps (Trace.since Examples.w0 w')
     = Trace.intersperse (Trace.Pause 500) (List.map Trace.Item Examples.fiveImages).
Proof.
  apply (C9_sequential_download_never_aborts Examples.envImages Examples.fiveImages
           Examples.w0).
  discriminate.
Defined.

(** * Further properties *)

(** ** The rate limiter over a whole run *)

Section RateLimiterRuns.
Variable env : Env.

(** The time stamps an acquisition keeps: those younger than a minute
    when it began, then its own. *)
Lemma waitForRateLimit_stamps s :
  let s' := (Api.waitForRateLimit env s).2 in
  requestTimestamps s'
  = (List.filter (fun t => clock (world s) - t <? 60000) (requestTimestamps s)
     ++ [lastRequestTime s'])%list
  /\ clock (world s) <= clock (world s').
Proof.
  destruct s as [[c t] cache last stamps].
  unfold Api.waitForRateLimit, bind, gets, modify, ret, Api.liftW, Utils.sleep,
    Constants.MIN_INTERVAL, Constants.MAX_REQUESTS_PER_MINUTE.
  cbn -[Nat.leb Z.sub Z.add Z.ltb Z.max List.filter].
  destruct (c - last <? 2000);
    cbn -[Nat.leb Z.sub Z.add Z.ltb Z.max List.filter];
    (destruct (_ <=? _)%nat;
     [destruct (List.filter _ stamps) as [|oldest rest] eqn:E;
      [|destruct (0 <? 60000 - (c - oldest))]|]);
    cbn -[Nat.leb Z.sub Z.add Z.ltb Z.max List.filter];
    rewrite ?E;
    repeat match goal with |- context [timer_lateness env ?w] =>
      lazymatch goal with
      | _ : 0 ≤ Z.of_N (timer_lateness env w) |- _ => fail
      | _ => pose proof (N2Z.is_nonneg (timer_lateness env w))
      end end;
    (split; [reflexivity|lia]).
Qed.

Lemma acquisitions_lookup_S delays s i :
  acquisitions env delays s !! S i
  = match delays with
    | [] => None
    | d :: rest =>
        acquisitions env rest (Api.waitForRateLimit env (elapse d s)).2 !! i
    end.
Proof. by destruct delays. Qed.

Lemma acquisitions_step delays : forall s i a b,
  acquisitions env delays s !! i = Some a ->
  acquisitions env delays s !! S i = Some b ->
  lastRequestTime a + 2000 <= lastRequestTime b.
Proof.
  induction delays as [|d rest IH]; intros s i a b Ha Hb; [done|].
  destruct i as [|i].
  - simpl in Ha. injection Ha as <-. rewrite acquisitions_lookup_S in Hb.
    destruct rest as [|d' rest']; [done|]. simpl in Hb. injection Hb as <-.
    destruct (waitForRateLimit_spec env
                (elapse d' (Api.waitForRateLimit env (elapse d s)).2))
      as (s2 & -> & _ & _ & Hmin & _).
    exact Hmin.
  - rewrite acquisitions_lookup_S in Hb. simpl in Ha. eauto.
Qed.
End RateLimiterRuns.

(** X1 (the rate limit over a run).  In any run of acquisitions of one
    manager, whatever time passes between them, the [k]-th acquisition
    after a given one records its request at least [2000 * k] milliseconds
    after it; so no window of less than a minute holds more than thirty
    recorded requests. *)
Theorem request_times_are_spaced (env : Env) (delays : list Z) (s : ApiState)
    (i k : nat) (a b : ApiState) :
  acquisitions env delays s !! i = Some a ->
  acquisitions env delays s !! (i + k)%nat = Some b ->
  lastRequestTime a + 2000 * Z.of_nat k <= lastRequestTime b
  /\ (k = 30%nat -> lastRequestTime a + 60000 <= lastRequestTime b).
Proof.
  intros Ha Hb.
  assert (H : lastRequestTime a + 2000 * Z.of_nat k <= lastRequestTime b);
    [|split; [done|intros ->; lia]].
  revert b Hb. induction k as [|k IH]; intros b Hb.
  - rewrite Nat.add_0_r in Hb. assert (a = b) as -> by congruence. lia.
  - replace (i + S k)%nat with (S (i + k)) in Hb by lia.
    destruct (acquisitions env delays s !! (i + k)%nat) as [m|] eqn:Hm.
    + specialize (IH m eq_refl).
      pose proof (acquisitions_step env delays s (i + k) m b Hm Hb). lia.
    + apply lookup_ge_None in Hm. apply lookup_lt_Some in Hb. lia.
Qed.

Section Stamps.
Variable env : Env.

Lemma spacedBy_lookup gap l : forall x n y,
  spacedBy gap l -> l !! 0%nat = Some x -> l !! n = Some y ->
  x + gap * Z.of_nat n <= y.
Proof.
  induction l as [|a r IH]; intros x n y Hs Hx Hy; [done|].
  injection Hx as ->. destruct n as [|n].
  - injection Hy as ->. lia.
  - destruct r as [|b r']; [done|]. destruct Hs as [Hab Hs].
    specialize (IH b n y Hs eq_refl Hy). lia.
Qed.

Lemma spacedBy_tail gap x r : spacedBy gap (x :: r) -> spacedBy gap r.
Proof. destruct r; [done|]. by intros [_ ?]. Qed.

Lemma spacedBy_snoc gap l z :
  spacedBy gap l -> Forall (fun t => t + gap <= z) l -> spacedBy gap (l ++ [z]).
Proof.
  induction l as [|a r IH]; intros Hs Hall; [done|].
  apply Forall_cons in Hall as [Ha Hall].
  destruct r as [|b r']; [simpl; done|].
  destruct Hs as [Hab Hs]. split; [done|]. by apply IH.
Qed.

(** On an increasing list the stamps younger than a minute are a
    suffix. *)
Lemma filter_young_suffix now l :
  spacedBy 2000 l ->
  spacedBy 2000 (List.filter (fun t => now - t <? 60000) l)
  /\ Forall (fun t => now - t < 60000) (List.filter (fun t => now - t <? 60000) l)
  /\ forall t, t ∈ List.filter (fun t => now - t <? 60000) l -> t ∈ l.
Proof.
  intros Hs. split; [|split].
  - induction l as [|a r IH]; [done|]. simpl.
    destruct (now - a <? 60000) eqn:Ha; [|by eapply IH, spacedBy_tail].
    assert (Hall : List.filter (fun t => now - t <? 60000) r = r).
    { apply Z.ltb_lt in Ha. clear IH. revert a Ha Hs.
      induction r as [|b r' IH']; intros a Ha Hs; [done|].
      destruct Hs as [Hab Hs]. simpl.
      assert (Hb : now - b < 60000) by lia.
      replace (now - b <? 60000) with true by (symmetry; by apply Z.ltb_lt).
      f_equal. by apply (IH' b). }
    by rewrite Hall.
  - apply List.Forall_forall. intros t Ht. apply List.filter_In in Ht as [_ Ht].
    by apply Z.ltb_lt.
  - intros t Ht. apply list_elem_of_In in Ht. apply List.filter_In in Ht as [Ht _].
    by apply list_elem_of_In.
Qed.

(** The invariant of the limiter's record, and what an acquisition that
    starts [d] milliseconds later makes of it. *)
Lemma stamps_step s d :
  spacedBy 2000 (requestTimestamps s) ->
  Forall (fun t => t <= lastRequestTime s) (requestTimestamps s) ->
  lastRequestTime s <= clock (world s) ->
  0 <= d ->
  let s' := (Api.waitForRateLimit env (elapse d s)).2 in
  spacedBy 2000 (requestTimestamps s')
  /\ Forall (fun t => t <= lastRequestTime s') (requestTimestamps s')
  /\ lastRequestTime s' <= clock (world s')
  /\ (List.length (requestTimestamps s') <= 31)%nat
  /\ last (requestTimestamps s') = Some (lastRequestTime s').
Proof.
  intros Hs Hle Hclock Hd s'.
  destruct (waitForRateLimit_stamps env (elapse d s)) as [Hst Hmono].
  destruct (waitForRateLimit_spec env (elapse d s))
    as (s1 & Hrun & _ & Hrec & Hmin & _).
  fold s' in Hst, Hmono. assert (s' = s1) as Hs1 by (unfold s'; by rewrite Hrun).
  rewrite <- Hs1 in Hrec, Hmin. clear Hrun Hs1 s1.
  unfold Constants.MIN_INTERVAL in Hmin.
  change (requestTimestamps (elapse d s)) with (requestTimestamps s) in Hst.
  change (lastRequestTime (elapse d s)) with (lastRequestTime s) in Hmin.
  change (clock (world (elapse d s))) with (clock (world s) + d) in Hst, Hmono.
  destruct (filter_young_suffix (clock (world s) + d) (requestTimestamps s) Hs)
    as (HsF & Hyoung & Hsub).
  set (F := List.filter _ (requestTimestamps s)) in *.
  assert (HleF : Forall (fun t => t <= lastRequestTime s) F).
  { apply List.Forall_forall. intros t Ht. apply list_elem_of_In, Hsub in Ht.
    rewrite List.Forall_forall in Hle. by apply Hle, list_elem_of_In. }
  rewrite Hst. split; [|split; [|split; [|split]]].
  - apply spacedBy_snoc; [done|].
    eapply List.Forall_impl; [|exact HleF]. simpl. intros t Ht. lia.
  - apply Forall_app. split.
    + eapply List.Forall_impl; [|exact HleF]. simpl. intros t Ht. lia.
    + by apply Forall_singleton.
  - lia.
  - rewrite length_app. simpl.
    destruct (decide (List.length F <= 30)%nat) as [|Hbig]; [lia|]. exfalso.
    destruct (lookup_lt_is_Some_2 F 0%nat) as [x Hx]; [lia|].
    destruct (lookup_lt_is_Some_2 F 30%nat) as [y Hy]; [lia|].
    pose proof (spacedBy_lookup 2000 F x 30 y HsF Hx Hy) as Hgap.
    rewrite List.Forall_forall in Hyoung, HleF.
    pose proof (Hyoung x (proj1 (list_elem_of_In _ _) (list_elem_of_lookup_2 _ _ _ Hx))).
    pose proof (HleF y (proj1 (list_elem_of_In _ _) (list_elem_of_lookup_2 _ _ _ Hy))).
    lia.
  - by rewrite last_snoc.
Qed.
End Stamps.

(** X2 (the limiter's record stays small).  Start from a manager that has
    recorded nothing yet and let time only move forward between the
    acquisitions.  After every acquisition the list of time stamps holds at
    most 31 entries, and its last entry is the time of the request just
    recorded. *)
Theorem timestamps_stay_bounded (env : Env) (delays : list Z) (s : ApiState) :
  requestTimestamps s = [] ->
  lastRequestTime s <= clock (world s) ->
  Forall (fun d => 0 <= d) delays ->
  Forall (fun a => (List.length (requestTimestamps a) <= 31)%nat
                   /\ last (requestTimestamps a) = Some (lastRequestTime a))
    (acquisitions env delays s).
Proof.
  intros Hnil Hclock Hd.
  assert (Hinv : spacedBy 2000 (requestTimestamps s)
                 /\ Forall (fun t => t <= lastRequestTime s) (requestTimestamps s)
                 /\ lastRequestTime s <= clock (world s)).
  { rewrite Hnil. by repeat split. }
  clear Hnil Hclock. revert s Hinv.
  induction Hd as [|d rest Hd0 Hrest IH]; intros s (Hs & Hle & Hclock);
    [constructor|].
  destruct (stamps_step env s d Hs Hle Hclock Hd0) as (Hs' & Hle' & Hclock' & Hlen & Hlast).
  cbn [acquisitions]. constructor; [done|]. by apply IH.
Qed.

(** ** The response cache, continued *)

Section CacheMore.
Import JsMapFacts.
Implicit Types (c : JsMap.t string CacheEntry).

Lemma keys_set_old {V} (k : string) (v : V) (m : JsMap.t string V) :
  k ∈ JsMap.keys m -> JsMap.keys (JsMap.set k v m) = JsMap.keys m.
Proof.
  induction m as [|kv r IH]; simpl; intros Hk.
  - by apply elem_of_nil in Hk.
  - destruct (JsMap.has_key k kv) eqn:E; simpl.
    + apply has_key_true in E. by rewrite E.
    + apply has_key_false in E. apply elem_of_cons in Hk as [->|Hk]; [done|].
      f_equal. by apply IH.
Qed.

Lemma keys_delete {V} (k : string) (m : JsMap.t string V) :
  JsMap.keys (JsMap.delete k m)
  = List.filter (fun k' => negb (bool_decide (k' = k))) (JsMap.keys m).
Proof.
  unfold JsMap.delete, JsMap.keys. induction m as [|kv r IH]; simpl; [done|].
  unfold JsMap.has_key at 1. destruct (bool_decide (kv.1 = k)); simpl; by rewrite IH.
Qed.

Lemma keys_delete_head {V} (k : string) (e : V) (r : JsMap.t string V) :
  k ∉ JsMap.keys r -> JsMap.delete k ((k, e) :: r) = r.
Proof.
  intros Hk. unfold JsMap.delete. simpl.
  rewrite (proj2 (has_key_true k (k, e))) by done. simpl.
  by apply delete_absent.
Qed.

Lemma get_keys {V} (k : string) (e : V) (m : JsMap.t string V) :
  JsMap.get k m = Some e -> k ∈ JsMap.keys m.
Proof.
  intros H. destruct (decide (k ∈ JsMap.keys m)) as [|Hn]; [done|].
  unfold JsMap.get in H. exfalso. induction m as [|kv r IH]; simpl in *; [done|].
  apply not_elem_of_cons in Hn as [Hne Hn].
  rewrite (proj2 (has_key_false k kv)) in H by congruence. by apply IH.
Qed.

Lemma get_app_l {V} (k : string) (m1 m2 : JsMap.t string V) e :
  JsMap.get k m1 = Some e -> JsMap.get k (m1 ++ m2)%list = Some e.
Proof.
  unfold JsMap.get. induction m1 as [|kv r IH]; simpl; [done|].
  destruct (JsMap.has_key k kv); [done|]. apply IH.
Qed.

Lemma get_set_ne {V} (k k' : string) (v : V) (m : JsMap.t string V) :
  k <> k' -> JsMap.get k (JsMap.set k' v m) = JsMap.get k m.
Proof.
  intros Hne. unfold JsMap.get. induction m as [|kv r IH]; simpl.
  - by rewrite (proj2 (has_key_false k (k', v))) by (simpl; congruence).
  - destruct (JsMap.has_key k' kv) eqn:E'; simpl.
    + apply has_key_true in E'.
      rewrite (proj2 (has_key_false k (k', v))) by (simpl; congruence).
      by rewrite (proj2 (has_key_false k kv)) by congruence.
    + destruct (JsMap.has_key k kv); [done|]. apply IH.
Qed.

(** The keys after a store, case by case. *)
Lemma cacheStore_keys c t url v :
  NoDup (JsMap.keys c) -> (JsMap.size c <= 50)%nat ->
  JsMap.keys (Api.cacheStore t url v c)
  = if bool_decide (url ∈ JsMap.keys c) then JsMap.keys c
    else if bool_decide (JsMap.size c < 50)%nat then (JsMap.keys c ++ [url])%list
    else (tl (JsMap.keys c) ++ [url])%list.
Proof.
  intros Hnd Hsz. destruct (decide (url ∈ JsMap.keys c)) as [Hin|Hnew].
  - rewrite bool_decide_eq_true_2 by done. unfold Api.cacheStore.
    rewrite size_set_old by done.
    replace (50 <? JsMap.size c)%nat with false by (symmetry; apply Nat.ltb_ge; lia).
    by apply keys_set_old.
  - rewrite bool_decide_eq_false_2 by done.
    destruct (decide (JsMap.size c < 50)%nat) as [Hroom|Hfull].
    + rewrite bool_decide_eq_true_2 by done. by apply cacheStore_keys_room.
    + rewrite bool_decide_eq_false_2 by done.
      apply cacheStore_evicts_first; [lia|done|done].
Qed.
End CacheMore.

(** X3 (the cache keeps to its capacity).  On a cache of at most fifty
    entries a store leaves at most fifty entries, the stored one among
    them, and adds no other key; while the cache holds fewer than fifty
    entries a store loses none of the other entries. *)
Theorem cache_keeps_to_its_capacity (c : JsMap.t string CacheEntry) (t : Z)
    (url : string) (v : MediaRecord) :
  NoDup (JsMap.keys c) -> (JsMap.size c <= 50)%nat ->
  let c' := Api.cacheStore t url v c in
  NoDup (JsMap.keys c')
  /\ (JsMap.size c' <= 50)%nat
  /\ JsMap.get url c' = Some {| data := v; timestamp := t |}
  /\ (forall k, k ∈ JsMap.keys c' -> k = url \/ k ∈ JsMap.keys c)
  /\ ((JsMap.size c < 50)%nat ->
      forall k e, k <> url -> JsMap.get k c = Some e -> JsMap.get k c' = Some e).
Proof.
  intros Hnd Hsz c'.
  pose proof (cacheStore_keys c t url v Hnd Hsz) as Hkeys. fold c' in Hkeys.
  assert (Htl : forall k, k ∈ tl (JsMap.keys c) -> k ∈ JsMap.keys c).
  { intros k. destruct (JsMap.keys c); [done|]. apply list_elem_of_further. }
  split; [|split; [|split; [|split]]].
  - rewrite Hkeys. repeat case_bool_decide; [done| |].
    + apply NoDup_app. split; [done|]. split; [|apply NoDup_singleton].
      intros k Hk ->%list_elem_of_singleton. done.
    + apply NoDup_app. split; [|split; [|apply NoDup_singleton]].
      * destruct (JsMap.keys c); [done|]. by apply NoDup_cons in Hnd as [_ ?].
      * intros k Hk ->%list_elem_of_singleton. by apply Htl in Hk.
  - rewrite <- keys_length, Hkeys. rewrite <- keys_length in *.
    repeat case_bool_decide; rewrite ?length_app; simpl; [lia|lia|].
    destruct (JsMap.keys c); simpl in *; lia.
  - by apply cacheStore_get.
  - intros k. rewrite Hkeys. repeat case_bool_decide; [by right| |].
    + rewrite elem_of_app, list_elem_of_singleton. tauto.
    + rewrite elem_of_app, list_elem_of_singleton. intros [?%Htl|?]; tauto.
  - intros Hroom k e Hne Hget. unfold c', Api.cacheStore.
    replace (50 <? _)%nat with false; [by rewrite get_set_ne|].
    symmetry. apply Nat.ltb_ge.
    destruct (decide (url ∈ JsMap.keys c)) as [Hin|Hnew].
    + rewrite JsMapFacts.size_set_old by done. lia.
    + rewrite JsMapFacts.set_new by done. unfold JsMap.size in *.
      rewrite length_app. simpl. lia.
Qed.

(** X4 (a refreshed entry keeps its turn).  Storing under a key that the
    cache already holds replaces the value and the time stamp and leaves
    the order of the keys as it was.  So in a full cache the oldest key,
    even when it has just been stored again, is the one that the next new
    key evicts. *)
Theorem refreshed_entry_keeps_its_turn (c : JsMap.t string CacheEntry)
    (t1 t2 : Z) (oldest fresh : string) (v1 v2 : MediaRecord) :
  NoDup (JsMap.keys c) -> JsMap.size c = 50%nat ->
  JsMap.first_key c = Some oldest -> fresh ∉ JsMap.keys c ->
  let c1 := Api.cacheStore t1 oldest v1 c in
  JsMap.keys c1 = JsMap.keys c
  /\ JsMap.get oldest c1 = Some {| data := v1; timestamp := t1 |}
  /\ JsMap.keys (Api.cacheStore t2 fresh v2 c1) = (tl (JsMap.keys c) ++ [fresh])%list
  /\ JsMap.get oldest (Api.cacheStore t2 fresh v2 c1) = None.
Proof.
  intros Hnd Hsz Hfirst Hfresh c1.
  assert (Hin : oldest ∈ JsMap.keys c).
  { unfold JsMap.first_key in Hfirst. destruct (JsMap.keys c); [done|].
    injection Hfirst as ->. left. }
  assert (Hk1 : JsMap.keys c1 = JsMap.keys c).
  { unfold c1. rewrite cacheStore_keys by (done || lia).
    by rewrite bool_decide_eq_true_2. }
  assert (Hk2 : JsMap.keys (Api.cacheStore t2 fresh v2 c1)
                = (tl (JsMap.keys c) ++ [fresh])%list).
  { rewrite cacheStore_keys; rewrite ?Hk1; rewrite <- ?keys_length, ?Hk1, ?keys_length;
      [|done|lia].
    rewrite bool_decide_eq_false_2 by done.
    by rewrite bool_decide_eq_false_2 by lia. }
  split; [done|]. split; [apply cacheStore_get; lia|]. split; [done|].
  destruct (JsMap.get oldest (Api.cacheStore t2 fresh v2 c1)) as [e|] eqn:E; [|done].
  apply get_keys in E. rewrite Hk2 in E. exfalso.
  unfold JsMap.first_key in Hfirst. destruct (JsMap.keys c) as [|k0 ks]; [done|].
  injection Hfirst as ->. simpl in E.
  apply NoDup_cons in Hnd as [Hk0 _].
  apply elem_of_app in E as [E|E%list_elem_of_singleton]; [done|].
  subst. apply Hfresh. left.
Qed.

(** ** [fetchVideoData], branch by branch *)

Section FetchRuns.
Variable env : Env.

Lemma requestsOf_app t1 t2 :
  requestsOf (t1 ++ t2) = (requestsOf t1 ++ requestsOf t2)%list.
Proof. apply omap_app. Qed.

Lemma requestsOf_sleeps ev :
  Forall (fun e => exists ms, e = EvSleep ms) ev -> requestsOf ev = [].
Proof.
  induction 1 as [|e ev [ms ->] _ IH]; [done|]. exact IH.
Qed.

(** A fetcher waits for the limiter and then sends one request; it
    fails with one message only. *)
Lemma fetchMetadata_run url s :
  let r := (Api.fetchMetadata env url s).1 in
  let s' := (Api.fetchMetadata env url s).2 in
  requestCache s' = requestCache s
  /\ (exists ev, trace (world s') = (trace (world s) ++ ev)%list
                 /\ requestsOf ev = [ReqTikWM url])
  /\ (r = Thrown "TikWM metadata API failed"
      \/ exists raw, r = Returned (Api.normalizeTikwmData raw)).
Proof.
  unfold Api.fetchMetadata, bind.
  destruct (waitForRateLimit_spec env s)
    as (s1 & -> & Hc & _ & _ & ev & Hev & Hsleeps & _).
  unfold try_catch, Api.liftW, Api.fetchFromTikWM, Api.call, bind, throw, ret.
  assert (Hreq : requestsOf (ev ++ [EvRequest (ReqTikWM url)]) = [ReqTikWM url]).
  { rewrite requestsOf_app, requestsOf_sleeps by done. done. }
  destruct (tikwm env (world s1) url) as [e|resp]; simpl.
  - split; [done|]. split; [|by left].
    eexists. rewrite Hev, <- app_assoc. done.
  - destruct (api_ok resp); simpl.
    + destruct (api_body resp) as [e|[] msg raw]; simpl;
        (split; [done|]); (split; [eexists; rewrite Hev, <- app_assoc; done|]);
        eauto.
    + split; [done|]. split; [|by left].
      eexists. rewrite Hev, <- app_assoc. done.
Qed.

Lemma fetchDownloadLinks_run url s :
  let r := (Api.fetchDownloadLinks env url s).1 in
  let s' := (Api.fetchDownloadLinks env url s).2 in
  requestCache s' = requestCache s
  /\ (exists ev, trace (world s') = (trace (world s) ++ ev)%list
                 /\ requestsOf ev = [ReqTikVidProxy url])
  /\ (r = Thrown "TikVid download API failed"
      \/ exists raw, r = Returned (Api.normalizeTikVidData raw)).
Proof.
  unfold Api.fetchDownloadLinks, bind.
  destruct (waitForRateLimit_spec env s)
    as (s1 & -> & Hc & _ & _ & ev & Hev & Hsleeps & _).
  unfold try_catch, Api.liftW, Api.fetchFromTikVidProxy, Api.call, bind, throw, ret.
  assert (Hreq : requestsOf (ev ++ [EvRequest (ReqTikVidProxy url)])
                 = [ReqTikVidProxy url]).
  { rewrite requestsOf_app, requestsOf_sleeps by done. done. }
  destruct (tikvid env (world s1) url) as [e|resp]; simpl.
  - split; [done|]. split; [|by left].
    eexists. rewrite Hev, <- app_assoc. done.
  - destruct (api_ok resp); simpl.
    + destruct (api_body resp) as [e|[] msg raw]; simpl;
        (split; [done|]); (split; [eexists; rewrite Hev, <- app_assoc; done|]);
        eauto.
    + split; [done|]. split; [|by left].
      eexists. rewrite Hev, <- app_assoc. done.
Qed.

(** A save after a miss: the entry is there. *)
Lemma saved_after_miss url d s1 s3 :
  url ∉ JsMap.keys (requestCache s1) ->
  requestCache s3 = requestCache s1 ->
  let s' := (Api.saveToCache url d s3).2 in
  world s' = world s3
  /\ JsMap.get url (requestCache s')
     = Some {| data := d; timestamp := clock (world s') |}.
Proof.
  intros Hnew Hc. simpl. split; [done|]. rewrite Hc.
  by apply cacheStore_get_fresh.
Qed.
End FetchRuns.

Section FetchCases.
Variable env : Env.

Lemma getFromCache_world url s :
  world (Api.getFromCache url s).2 = world s
  /\ exists r, (Api.getFromCache url s).1 = Returned r.
Proof.
  unfold Api.getFromCache. destruct (Api.cacheLookup _ _ _). simpl. eauto.
Qed.

(** [fetchVideoData] after a miss, with its [try] blocks spelled out. *)
Lemma fetchVideoData_miss url s s1 :
  Utils.isValidTikTokUrl url = true ->
  Api.getFromCache (Api.cleanUrl url) s = (Returned None, s1) ->
  Api.fetchVideoData env url s
  = let c := Api.cleanUrl url in
    let degraded m s3 :=
      (Returned (Api.proxyFallback m),
       (Api.saveToCache c (Api.proxyFallback m) s3).2) in
    match Api.fetchMetadata env c s1 with
    | (Returned m, s2) =>
        match Api.fetchDownloadLinks env c s2 with
        | (Returned d, s3) =>
            match Api.validateApiResponse (Api.combineMetadataAndDownloads m d c) with
            | None =>
                (Returned (Api.combineMetadataAndDownloads m d c),
                 (Api.saveToCache c (Api.combineMetadataAndDownloads m d c) s3).2)
            | Some _ => degraded m s3
            end
        | (Thrown _, s3) => degraded m s3
        end
    | (Thrown _, s2) =>
        match Api.fetchMetadata env c s2 with
        | (Returned m, s3) =>
            (Returned (Api.tikwmFallback m),
             (Api.saveToCache c (Api.tikwmFallback m) s3).2)
        | (Thrown e, s3) => (Thrown (Js.or_else e Constants.API_ERROR), s3)
        end
    end.
Proof.
  intros Hvalid Hmiss. unfold Api.fetchVideoData. rewrite Hvalid. cbn [negb].
  unfold bind at 1. rewrite Hmiss. cbv zeta.
  unfold try_catch at 1. unfold bind at 1.
  destruct (Api.fetchMetadata env (Api.cleanUrl url) s1) as [[m|e] s2].
  - unfold try_catch at 1. unfold bind at 1.
    destruct (Api.fetchDownloadLinks env (Api.cleanUrl url) s2) as [[d|e] s3];
      [|reflexivity].
    destruct (Api.validateApiResponse _); reflexivity.
  - unfold try_catch at 1. unfold bind at 1.
    destruct (Api.fetchMetadata env (Api.cleanUrl url) s2) as [[m|e'] s3];
      reflexivity.
Qed.

End FetchCases.

Section FetchOutcomes.
Variable env : Env.

Lemma since_app w w' ev :
  trace w' = (trace w ++ ev)%list -> Trace.since w w' = ev.
Proof. intros H. unfold Trace.since. by rewrite H, drop_app_length. Qed.

Lemma since_refl w : Trace.since w w = [].
Proof. apply since_app. by rewrite app_nil_r. Qed.

Lemma trace_trans (w1 w2 w3 : World) e1 e2 :
  trace w2 = (trace w1 ++ e1)%list -> trace w3 = (trace w2 ++ e2)%list ->
  trace w3 = (trace w1 ++ (e1 ++ e2))%list.
Proof. intros H1 H2. by rewrite H2, H1, app_assoc. Qed.

(** The three ways in which a call that misses the cache ends. *)
Lemma fetchVideoData_miss_cases url s s1 :
  Utils.isValidTikTokUrl url = true ->
  Api.getFromCache (Api.cleanUrl url) s = (Returned None, s1) ->
  let c := Api.cleanUrl url in
  let r := (Api.fetchVideoData env url s).1 in
  let s' := (Api.fetchVideoData env url s).2 in
  let ev := Trace.since (world s) (world s') in
  let stored d :=
    JsMap.get c (requestCache s')
    = Some {| data := d; timestamp := clock (world s') |} in
  (requestsOf ev = [ReqTikWM c; ReqTikVidProxy c]
   /\ exists d, r = Returned d /\ stored d
      /\ (source (metadata d) = "hybrid_tikwm_tikvid"
          \/ source (metadata d) = "tikwm_with_proxy_fallback"))
  \/ (requestsOf ev = [ReqTikWM c; ReqTikWM c]
      /\ ((exists d, r = Returned d /\ stored d
                     /\ source (metadata d) = "tikwm_fallback")
          \/ (r = Thrown "TikWM metadata API failed"
              /\ JsMap.get c (requestCache s') = None))).
Proof.
  intros Hvalid Hmiss c r s' ev stored.
  pose proof (fetchVideoData_miss env url s s1 Hvalid Hmiss) as Heq.
  cbv zeta in Heq. fold c in Heq.
  assert (Hnew : c ∉ JsMap.keys (requestCache s1)) by by eapply getFromCache_miss.
  assert (Hw1 : world s1 = world s).
  { pose proof (getFromCache_world c s) as [H _]. fold c in Hmiss.
    by rewrite Hmiss in H. }
  pose proof (fetchMetadata_run env c s1) as (Hc2 & (e1 & Ht2 & Hr1) & Hm).
  cbv zeta in Hc2, Ht2, Hm.
  destruct (Api.fetchMetadata env c s1) as [[m|e] s2]; simpl in Hc2, Ht2, Hm.
  - pose proof (fetchDownloadLinks_run env c s2) as (Hc3 & (e2 & Ht3 & Hr2) & Hd).
    cbv zeta in Hc3, Ht3, Hd.
    assert (Hreq : forall s3 : ApiState,
              trace (world s3) = (trace (world s2) ++ e2)%list ->
              requestsOf (Trace.since (world s) (world s3))
              = [ReqTikWM c; ReqTikVidProxy c]).
    { intros s3 H3. rewrite <- Hw1.
      rewrite (since_app _ _ _ (trace_trans _ _ _ _ _ Ht2 H3)).
      by rewrite requestsOf_app, Hr1, Hr2. }
    left.
    destruct (Api.fetchDownloadLinks env c s2) as [[d|e] s3]; simpl in Hc3, Ht3, Hd;
      [destruct (Api.validateApiResponse (Api.combineMetadataAndDownloads m d c))|];
      (unfold ev, stored, r, s'; rewrite Heq; cbn [fst snd];
       split; [by apply Hreq|]; eexists; split; [reflexivity|];
       split; [apply (saved_after_miss c _ s1 s3); congruence|]; (by left) || (by right)).
  - pose proof (fetchMetadata_run env c s2) as (Hc3 & (e2 & Ht3 & Hr2) & Hm').
    cbv zeta in Hc3, Ht3, Hm'.
    assert (Hreq : forall s3 : ApiState,
              trace (world s3) = (trace (world s2) ++ e2)%list ->
              requestsOf (Trace.since (world s) (world s3))
              = [ReqTikWM c; ReqTikWM c]).
    { intros s3 H3. rewrite <- Hw1.
      rewrite (since_app _ _ _ (trace_trans _ _ _ _ _ Ht2 H3)).
      by rewrite requestsOf_app, Hr1, Hr2. }
    right.
    destruct (Api.fetchMetadata env c s2) as [[m|e'] s3]; simpl in Hc3, Ht3, Hm';
      unfold ev, stored, r, s'; rewrite Heq; cbn [fst snd];
      (split; [by apply Hreq|]).
    + left. eexists. split; [reflexivity|].
      split; [apply (saved_after_miss c _ s1 s3); congruence|done].
    + right. destruct Hm' as [[= ->]|[raw [=]]]. split; [done|].
      rewrite Hc3, Hc2.
      destruct (JsMap.get c (requestCache s1)) eqn:E; [|done].
      exfalso. apply Hnew. by eapply get_keys.
Qed.

(** A call is a rejection, a hit or a miss. *)
Lemma fetchVideoData_entry url s :
  (Utils.isValidTikTokUrl url = false
   /\ Api.fetchVideoData env url s = (Thrown Constants.INVALID_URL, s))
  \/ (Utils.isValidTikTokUrl url = true
      /\ exists entry,
           JsMap.get (Api.cleanUrl url) (requestCache s) = Some entry
           /\ clock (world s) - timestamp entry < Api.cacheTimeout
           /\ Api.fetchVideoData env url s = (Returned (data entry), s))
  \/ (Utils.isValidTikTokUrl url = true
      /\ exists s1, Api.getFromCache (Api.cleanUrl url) s = (Returned None, s1)).
Proof.
  destruct (Utils.isValidTikTokUrl url) eqn:Hvalid.
  - right.
    destruct (JsMap.get (Api.cleanUrl url) (requestCache s)) as [entry|] eqn:Hget.
    + destruct (Z.ltb_spec (clock (world s) - timestamp entry) Api.cacheTimeout)
        as [Hfresh|Hold].
      * left. split; [done|]. exists entry. split; [done|]. split; [done|].
        by apply fetchVideoData_hit.
      * right. split; [done|]. unfold Api.getFromCache, Api.cacheLookup.
        rewrite Hget. replace (_ <? _) with false by (symmetry; by apply Z.ltb_ge).
        eauto.
    + right. split; [done|]. unfold Api.getFromCache, Api.cacheLookup.
      rewrite Hget. eauto.
  - left. split; [done|]. unfold Api.fetchVideoData. by rewrite Hvalid.
Qed.
End FetchOutcomes.

(** X5 (the two failures of [fetchVideoData]).  A call fails in two ways
    only.  Either the URL is refused by the validator, with the message of
    [INVALID_URL], and the manager is as it was; or the metadata provider
    has been asked twice and has failed twice, the message is the one of
    [fetchMetadata], and nothing is cached for the URL.  In particular no
    validation error and no [API_ERROR] ever leaves the function. *)
Theorem fetchVideoData_fails_in_two_ways (env : Env) (url : string)
    (s s' : ApiState) (e : string) :
  Api.fetchVideoData env url s = (Thrown e, s') ->
  let c := Api.cleanUrl url in
  (Utils.isValidTikTokUrl url = false /\ e = Constants.INVALID_URL /\ s' = s)
  \/ (Utils.isValidTikTokUrl url = true
      /\ e = "TikWM metadata API failed"
      /\ requestsOf (Trace.since (world s) (world s')) = [ReqTikWM c; ReqTikWM c]
      /\ JsMap.get c (requestCache s') = None).
Proof.
  intros Hrun c.
  destruct (fetchVideoData_entry env url s)
    as [[Hv Heq]|[(Hv & entry & _ & _ & Heq)|(Hv & s1 & Hmiss)]].
  - left. rewrite Heq in Hrun. injection Hrun as <- <-. done.
  - rewrite Heq in Hrun. discriminate.
  - right. split; [done|].
    pose proof (fetchVideoData_miss_cases env url s s1 Hv Hmiss) as H.
    cbv zeta in H. rewrite Hrun in H. cbn [fst snd] in H. fold c in H.
    destruct H as [(_ & d & [=] & _)|(Hreq & [(d & [=] & _)|([= ->] & Hnone)])].
    done.
Qed.

(** X6 (what a returned record cost).  A call that returns a record either
    served it from the cache, asking nobody and leaving the manager as it
    was; or asked the metadata provider and then the download-link provider,
    once each, and the record is tagged hybrid or proxy fallback; or asked
    the metadata provider twice and nobody else, and the record is tagged
    [tikwm_fallback]. *)
Theorem fetchVideoData_asks_twice_or_not_at_all (env : Env) (url : string)
    (s s' : ApiState) (d : MediaRecord) :
  Api.fetchVideoData env url s = (Returned d, s') ->
  let c := Api.cleanUrl url in
  let asked := requestsOf (Trace.since (world s) (world s')) in
  (asked = [] /\ s' = s)
  \/ (asked = [ReqTikWM c; ReqTikVidProxy c]
      /\ (source (metadata d) = "hybrid_tikwm_tikvid"
          \/ source (metadata d) = "tikwm_with_proxy_fallback"))
  \/ (asked = [ReqTikWM c; ReqTikWM c] /\ source (metadata d) = "tikwm_fallback").
Proof.
  intros Hrun c asked.
  destruct (fetchVideoData_entry env url s)
    as [[Hv Heq]|[(Hv & entry & _ & _ & Heq)|(Hv & s1 & Hmiss)]].
  - rewrite Heq in Hrun. discriminate.
  - left. rewrite Heq in Hrun. injection Hrun as <- <-.
    unfold asked. by rewrite since_refl.
  - right.
    pose proof (fetchVideoData_miss_cases env url s s1 Hv Hmiss) as H.
    cbv zeta in H. rewrite Hrun in H. cbn [fst snd] in H. fold c in H.
    destruct H as [(Hreq & d' & [= <-] & _ & Hsrc)
                  |(Hreq & [(d' & [= <-] & _ & Hsrc)|([=] & _)])].
    + by left.
    + by right.
Qed.

(** X7 (what is returned is cached).  After a call that returns a record,
    the cache holds that record under the clean URL with a time stamp less
    than five minutes old; a second call made at once returns the same
    record and leaves the manager as it is, whatever the providers would
    answer. *)
Theorem fetchVideoData_result_is_cached (env env' : Env) (url : string)
    (s s' : ApiState) (d : MediaRecord) :
  Api.fetchVideoData env url s = (Returned d, s') ->
  (exists t, JsMap.get (Api.cleanUrl url) (requestCache s')
             = Some {| data := d; timestamp := t |}
             /\ clock (world s') - t < Api.cacheTimeout)
  /\ Api.fetchVideoData env' url s' = (Returned d, s').
Proof.
  intros Hrun.
  assert (Hv : Utils.isValidTikTokUrl url = true).
  { destruct (fetchVideoData_entry env url s) as [[_ Heq]|[[? _]|[? _]]]; [|done..].
    rewrite Heq in Hrun. discriminate. }
  assert (Hentry : exists t, JsMap.get (Api.cleanUrl url) (requestCache s')
             = Some {| data := d; timestamp := t |}
             /\ clock (world s') - t < Api.cacheTimeout).
  { destruct (fetchVideoData_entry env url s)
      as [[_ Heq]|[(_ & entry & Hget & Hfresh & Heq)|(_ & s1 & Hmiss)]].
    - rewrite Heq in Hrun. discriminate.
    - rewrite Heq in Hrun. injection Hrun as <- <-.
      exists (timestamp entry). by destruct entry.
    - pose proof (fetchVideoData_miss_cases env url s s1 Hv Hmiss) as H.
      cbv zeta in H. rewrite Hrun in H. cbn [fst snd] in H.
      exists (clock (world s')). unfold Api.cacheTimeout.
      destruct H as [(_ & d' & [= <-] & Hst & _)
                    |(_ & [(d' & [= <-] & Hst & _)|([=] & _)])];
        (split; [done|lia]). }
  split; [done|]. destruct Hentry as (t & Hget & Hfresh).
  by rewrite (fetchVideoData_hit env' url s' _ Hv Hget Hfresh).
Qed.

(** X8 (a record that fails validation is served degraded).  When both
    providers answer but the fused record does not pass
    [validateApiResponse], the error is swallowed by the handler of the
    download-link step: the call returns the metadata record tagged as proxy
    fallback, and caches it.  That record is not validated: when the payload
    has no photo list it fails the very check that the fused record
    failed. *)
Theorem fetchVideoData_swallows_validation_errors (env : Env) (url : string)
    (s s1 s2 s3 : ApiState) (m : MediaRecord) (d : TikVidData) (error : string) :
  Utils.isValidTikTokUrl url = true ->
  Api.getFromCache (Api.cleanUrl url) s = (Returned None, s1) ->
  Api.fetchMetadata env (Api.cleanUrl url) s1 = (Returned m, s2) ->
  Api.fetchDownloadLinks env (Api.cleanUrl url) s2 = (Returned d, s3) ->
  Api.validateApiResponse (Api.combineMetadataAndDownloads m d (Api.cleanUrl url))
  = Some error ->
  let '(r, s') := Api.fetchVideoData env url s in
  r = Returned (Api.proxyFallback m)
  /\ JsMap.get (Api.cleanUrl url) (requestCache s')
     = Some {| data := Api.proxyFallback m; timestamp := clock (world s') |}
  /\ (tv_photoList d = [] ->
      Api.validateApiResponse (Api.proxyFallback m) = Some error).
Proof.
  intros Hv Hmiss Hm Hd Hbad.
  rewrite (fetchVideoData_miss env url s s1 Hv Hmiss). cbv zeta.
  rewrite Hm, Hd, Hbad. split; [done|]. split.
  - apply (saved_after_miss (Api.cleanUrl url) _ s1 s3).
    + by eapply getFromCache_miss.
    + pose proof (fetchDownloadLinks_run env (Api.cleanUrl url) s2) as (H3 & _).
      pose proof (fetchMetadata_run env (Api.cleanUrl url) s1) as (H2 & _).
      cbv zeta in H2, H3. rewrite Hm in H2. rewrite Hd in H3. simpl in *. congruence.
  - intros Hphotos. rewrite <- Hbad.
    unfold Api.validateApiResponse, Api.combineMetadataAndDownloads. simpl.
    by rewrite Hphotos.
Qed.

(** ** How long an entry stays in the cache *)

Lemma NoDup_List_filter {A} (f : A -> bool) (l : list A) :
  NoDup l -> NoDup (List.filter f l).
Proof. rewrite !NoDup_ListNoDup. apply List.NoDup_filter. Qed.

Section Survival.
Variable c : string.
Variable entry : CacheEntry.

(** The entry is in the cache, with at most [k] keys after its own. *)
Let kept (k : nat) (cache : JsMap.t string CacheEntry) : Prop :=
  NoDup (JsMap.keys cache) /\ (JsMap.size cache <= 50)%nat
  /\ JsMap.get c cache = Some entry
  /\ exists pre post, JsMap.keys cache = (pre ++ c :: post)%list
                      /\ (List.length post <= k)%nat.

Lemma kept_delete k u cache :
  u <> c -> kept k cache -> kept k (JsMap.delete u cache).
Proof.
  intros Hne (Hnd & Hsize & Hget & pre & post & Hkeys & Hk).
  split; [|split; [|split]].
  - rewrite keys_delete. by apply NoDup_List_filter.
  - rewrite <- keys_length, keys_delete. rewrite <- keys_length in Hsize.
    etrans; [apply List.filter_length_le|done].
  - by rewrite JsMapFacts.get_delete_ne.
  - exists (List.filter (fun k' => negb (bool_decide (k' = u))) pre),
           (List.filter (fun k' => negb (bool_decide (k' = u))) post).
    split.
    + rewrite keys_delete, Hkeys, List.filter_app. cbn [List.filter].
      by rewrite bool_decide_eq_false_2 by congruence.
    + etrans; [apply List.filter_length_le|done].
Qed.

Lemma kept_store k t u v cache :
  u <> c -> (k <= 48)%nat -> kept k cache ->
  kept (S k) (Api.cacheStore t u v cache).
Proof.
  intros Hne Hk48 (Hnd & Hsize & Hget & pre & post & Hkeys & Hk).
  pose proof (cacheStore_keys cache t u v Hnd Hsize) as Hstore.
  assert (Hlen : List.length (JsMap.keys cache) = JsMap.size cache)
    by apply keys_length.
  assert (Hget' : forall m : JsMap.t string CacheEntry,
            JsMap.get c (JsMap.set u {| data := v; timestamp := t |} m)
            = JsMap.get c m).
  { intros m. by apply get_set_ne. }
  case_bool_decide as Hin.
  - (* the key is there already: it is rewritten in place *)
    assert (Heq : Api.cacheStore t u v cache
                  = JsMap.set u {| data := v; timestamp := t |} cache).
    { unfold Api.cacheStore. rewrite JsMapFacts.size_set_old by done.
      by replace (50 <? JsMap.size cache)%nat with false
        by (symmetry; apply Nat.ltb_ge; lia). }
    split; [by rewrite Hstore|]. split; [by rewrite <- keys_length, Hstore, Hlen|].
    split; [by rewrite Heq, Hget'|].
    exists pre, post. split; [by rewrite Hstore|lia].
  - case_bool_decide as Hroom.
    + (* there is room: the key goes last *)
      assert (Heq : Api.cacheStore t u v cache
                    = JsMap.set u {| data := v; timestamp := t |} cache).
      { unfold Api.cacheStore. rewrite JsMapFacts.set_new by done.
        unfold JsMap.size in *. rewrite length_app. simpl.
        by replace (50 <? _)%nat with false by (symmetry; apply Nat.ltb_ge; lia). }
      split; [|split; [|split]].
      * rewrite Hstore. apply NoDup_app. split; [done|].
        split; [|apply NoDup_singleton].
        intros x Hx Hx'. apply list_elem_of_singleton in Hx' as ->. done.
      * rewrite <- keys_length, Hstore, length_app, Hlen. simpl. lia.
      * by rewrite Heq, Hget'.
      * exists pre, (post ++ [u])%list. split.
        -- rewrite Hstore, Hkeys, <- app_assoc. done.
        -- rewrite length_app. simpl. lia.
    + (* the cache is full: the first key goes, and it is not ours *)
      assert (Hfull : JsMap.size cache = 50%nat) by lia.
      destruct pre as [|k0 pre].
      { rewrite Hkeys in Hlen. simpl in Hlen. lia. }
      assert (Hk0 : k0 <> c).
      { rewrite Hkeys in Hnd. simpl in Hnd. apply NoDup_cons in Hnd as [Hk0 _].
        intros ->. apply Hk0. apply elem_of_app. right. left. }
      assert (Heq : Api.cacheStore t u v cache
                    = JsMap.delete k0
                        (JsMap.set u {| data := v; timestamp := t |} cache)).
      { unfold Api.cacheStore. rewrite JsMapFacts.set_new by done.
        unfold JsMap.size in *. rewrite length_app. simpl.
        replace (50 <? _)%nat with true by (symmetry; apply Nat.ltb_lt; lia).
        unfold JsMap.first_key. rewrite JsMapFacts.keys_app, Hkeys. done. }
      split; [|split; [|split]].
      * rewrite Hstore. rewrite Hkeys in *. simpl in *.
        apply NoDup_cons in Hnd as [_ Hnd].
        apply NoDup_app. split; [done|].
        split; [|apply NoDup_singleton].
        intros x Hx Hx'. apply list_elem_of_singleton in Hx' as ->.
        apply Hin. by right.
      * rewrite <- keys_length, Hstore, length_app.
        rewrite Hkeys in *. simpl in *. lia.
      * by rewrite Heq, JsMapFacts.get_delete_ne, Hget'.
      * exists pre, (post ++ [u])%list. split.
        -- rewrite Hstore, Hkeys. simpl. by rewrite <- app_assoc.
        -- rewrite length_app. simpl. lia.
Qed.

Lemma kept_more k k' cache : (k <= k')%nat -> kept k cache -> kept k' cache.
Proof.
  intros Hle (Hnd & Hsize & Hget & pre & post & Hkeys & Hk).
  repeat split; try done. exists pre, post. split; [done|lia].
Qed.

(** What a fetch does to the cache. *)
Lemma fetchVideoData_cache env url s :
  let u := Api.cleanUrl url in
  let after := requestCache (Api.fetchVideoData env url s).2 in
  exists c1,
    (c1 = requestCache s \/ c1 = JsMap.delete u (requestCache s))
    /\ (after = c1 \/ exists t v, after = Api.cacheStore t u v c1).
Proof.
  intros u after. subst after.
  destruct (fetchVideoData_entry env url s)
    as [[_ ->]|[(_ & e & _ & _ & ->)|(Hvalid & s1 & Hmiss)]];
    [exists (requestCache s); split; [by left|by left]..|].
  fold u in Hmiss.
  exists (requestCache s1). split.
  { revert Hmiss. unfold Api.getFromCache, Api.cacheLookup.
    destruct (JsMap.get u (requestCache s)) as [e|];
      [destruct (_ <? _)|]; intros [= <-]; simpl; auto. }
  rewrite (fetchVideoData_miss env url s s1 Hvalid Hmiss). cbv zeta. fold u.
  pose proof (fetchMetadata_run env u s1) as (Hc2 & _ & _). cbv zeta in Hc2.
  destruct (Api.fetchMetadata env u s1) as [[m|e] s2]; simpl in Hc2.
  - pose proof (fetchDownloadLinks_run env u s2) as (Hc3 & _ & _). cbv zeta in Hc3.
    destruct (Api.fetchDownloadLinks env u s2) as [[d|e] s3]; simpl in Hc3;
      [destruct (Api.validateApiResponse _)|];
      right; eexists _, _; simpl; by rewrite Hc3, Hc2.
  - pose proof (fetchMetadata_run env u s2) as (Hc3 & _ & _). cbv zeta in Hc3.
    destruct (Api.fetchMetadata env u s2) as [[m|e'] s3]; simpl in Hc3.
    + right. eexists _, _. simpl. by rewrite Hc3, Hc2.
    + left. simpl. by rewrite Hc3, Hc2.
Qed.

Lemma kept_fetch k env url s :
  Api.cleanUrl url <> c -> (k <= 48)%nat ->
  kept k (requestCache s) ->
  kept (S k) (requestCache (Api.fetchVideoData env url s).2).
Proof.
  intros Hne Hk Hkept.
  destruct (fetchVideoData_cache env url s) as (c1 & Hc1 & Hafter).
  assert (H1 : kept k c1).
  { destruct Hc1 as [->| ->]; [done|by apply kept_delete]. }
  destruct Hafter as [->|(t & v & ->)].
  - apply (kept_more k); [lia|done].
  - by apply kept_store.
Qed.

Lemma kept_fetches others : forall k s,
  (k + List.length others <= 49)%nat ->
  Forall (fun step => Api.cleanUrl step.1.2 <> c) others ->
  kept k (requestCache s) ->
  kept (k + List.length others) (requestCache (fetches others s)).
Proof.
  induction others as [|[[env url] d] rest IH]; intros k s Hk Hall Hkept.
  - simpl. by rewrite Nat.add_0_r.
  - apply Forall_cons in Hall as [Hne Hall]. simpl in *.
    replace (k + S (List.length rest))%nat with (S k + List.length rest)%nat by lia.
    apply IH; [lia|done|].
    apply kept_fetch; [done|lia|done].
Qed.

Lemma kept_newest t v cache :
  NoDup (JsMap.keys cache) -> (JsMap.size cache <= 50)%nat ->
  c ∉ JsMap.keys cache ->
  entry = {| data := v; timestamp := t |} ->
  kept 0 (Api.cacheStore t c v cache).
Proof.
  intros Hnd Hsize Hnew ->.
  pose proof (cacheStore_keys cache t c v Hnd Hsize) as Hstore.
  rewrite bool_decide_eq_false_2 in Hstore by done.
  assert (Hlen : List.length (JsMap.keys cache) = JsMap.size cache)
    by apply keys_length.
  split; [|split; [|split]].
  - rewrite Hstore. case_bool_decide.
    + apply NoDup_app. split; [done|]. split; [|apply NoDup_singleton].
      intros x Hx Hx'. apply list_elem_of_singleton in Hx' as ->. done.
    + destruct (JsMap.keys cache) as [|k0 ks] eqn:E; simpl.
      * apply NoDup_singleton.
      * apply NoDup_cons in Hnd as [_ Hnd].
        apply NoDup_app. split; [done|]. split; [|apply NoDup_singleton].
        intros x Hx Hx'. apply list_elem_of_singleton in Hx' as ->.
        apply Hnew. by right.
  - rewrite <- keys_length, Hstore. case_bool_decide.
    + rewrite length_app, Hlen. simpl. lia.
    + destruct (JsMap.keys cache) as [|k0 ks] eqn:E; simpl in *.
      * lia.
      * rewrite length_app. simpl. lia.
  - by apply cacheStore_get_fresh.
  - case_bool_decide.
    + exists (JsMap.keys cache), []. split; [done|simpl; lia].
    + exists (tl (JsMap.keys cache)), []. split; [done|simpl; lia].
Qed.

Lemma kept_get k cache : kept k cache -> JsMap.get c cache = Some entry.
Proof. by intros (_ & _ & H & _). Qed.
End Survival.

(** C10, as stated: the degraded record is cached, fifty other addresses
    are fetched one after the other, and less than five minutes after the
    record was cached it is gone: the same address is fetched again from
    both providers. *)
Lemma C10_record_is_evicted_within_the_ttl :
  let url := "https://www.tiktok.com/@user/video/123?_r=1" in
  let c := Api.cleanUrl url in
  let first := Api.fetchVideoData Examples.envDegraded url Examples.s0 in
  let others :=
    List.map (fun k => (Examples.envHealthy, k, 0)) (take 50 Examples.manyKeys) in
  let later := fetches others first.2 in
  let again := Api.fetchVideoData Examples.envHealthy url later in
  first.1 = Returned (Api.proxyFallback (Api.normalizeTikwmData Examples.rawX))
  /\ JsMap.get c (requestCache first.2)
     = Some {| data := Api.proxyFallback (Api.normalizeTikwmData Examples.rawX);
               timestamp := clock (world first.2) |}
  /\ clock (world later) - clock (world first.2) < 5 * 60 * 1000
  /\ JsMap.get c (requestCache later) = None
  /\ again.1 <> Returned (Api.proxyFallback (Api.normalizeTikwmData Examples.rawX))
  /\ requestsOf (Trace.since (world later) (world again.2))
     = [ReqTikWM c; ReqTikVidProxy c].
Proof.
  vm_compute. repeat split; try reflexivity. discriminate.
Qed.

(** C10, amended (the degraded record is cached).  In the situation of C2,
    on a manager whose cache is well formed, the degraded record is stored
    in the cache under the cleaned URL, stamped with the current time.  Let
    the manager then make at most 49 fetches of other addresses, in any
    environments and at any times.  If less than five minutes have passed
    since the record was stored, a fetch of the same URL returns the
    degraded record and leaves the state untouched: nothing is requested
    from either provider, whatever the environment [env'] would now
    answer. *)
Theorem C10_degraded_record_is_served_from_the_cache (env env' : Env) (url : string)
    (s s1 s2 s3 : ApiState) (m : MediaRecord) (e : string)
    (others : list (Env * string * Z)) (d : Z) :
  Utils.isValidTikTokUrl url = true ->
  Api.getFromCache (Api.cleanUrl url) s = (Returned None, s1) ->
  Api.fetchMetadata env (Api.cleanUrl url) s1 = (Returned m, s2) ->
  Api.fetchDownloadLinks env (Api.cleanUrl url) s2 = (Thrown e, s3) ->
  NoDup (JsMap.keys (requestCache s)) -> (JsMap.size (requestCache s) <= 50)%nat ->
  (List.length others <= 49)%nat ->
  Forall (fun step => Api.cleanUrl step.1.2 <> Api.cleanUrl url) others ->
  let '(r, s') := Api.fetchVideoData env url s in
  let later := elapse d (fetches others s') in
  clock (world later) - clock (world s') < 5 * 60 * 1000 ->
  r = Returned (Api.proxyFallback m)
  /\ JsMap.get (Api.cleanUrl url) (requestCache s')
     = Some {| data := Api.proxyFallback m; timestamp := clock (world s') |}
  /\ Api.fetchVideoData env' url later = (Returned (Api.proxyFallback m), later).
Proof.
  intros Hvalid Hmiss Hmeta Hlinks Hnd Hsize Hlen Hothers.
  rewrite (fetchVideoData_degraded env url s s1 m s2 e s3) by done.
  intros later Hfresh.
  set (c := Api.cleanUrl url) in *.
  set (entry := {| data := Api.proxyFallback m; timestamp := clock (world s3) |}).
  assert (Hc3 : requestCache s3 = requestCache s1).
  { apply fetchDownloadLinks_cache in Hlinks as ->.
    by apply fetchMetadata_spec in Hmeta as [-> _]. }
  assert (Hs1 : NoDup (JsMap.keys (requestCache s1))
                /\ (JsMap.size (requestCache s1) <= 50)%nat).
  { revert Hmiss. unfold Api.getFromCache, Api.cacheLookup.
    destruct (JsMap.get c (requestCache s)) as [e0|];
      [destruct (_ <? _)|]; intros [= <-]; simpl; [|done].
    split.
    - rewrite keys_delete. by apply NoDup_List_filter.
    - rewrite <- keys_length, keys_delete. rewrite <- keys_length in Hsize.
      etrans; [apply List.filter_length_le|done]. }
  assert (Hkept0 := kept_newest c entry (clock (world s3)) (Api.proxyFallback m)
                      (requestCache s1) (proj1 Hs1) (proj2 Hs1)
                      (getFromCache_miss c s s1 Hmiss) eq_refl).
  rewrite <- Hc3 in Hkept0.
  pose proof (kept_fetches c entry others 0%nat
                (Api.set_cache
                   (Api.cacheStore (clock (world s3)) c (Api.proxyFallback m)) s3)
                Hlen Hothers Hkept0) as Hkept.
  split; [done|]. split; [by apply (kept_get c entry 0%nat)|].
  apply (fetchVideoData_hit env' url later entry Hvalid).
  - by apply (kept_get c entry _ _ Hkept).
  - done.
Qed.

(** ** Choosing and normalizing URLs *)

Lemma truthy_false (u : string) : Js.truthy u = false <-> u = "".
Proof.
  unfold Js.truthy. rewrite negb_false_iff. apply String.eqb_eq.
Qed.

Lemma truthy_true (u : string) : Js.truthy u = true <-> u <> "".
Proof.
  unfold Js.truthy. rewrite negb_true_iff. apply String.eqb_neq.
Qed.

Lemma getBestVideoUrl_none (data : MediaRecord) (preferHD : bool) :
  ApiManager.getBestVideoUrl (Some data) preferHD = None <->
  Js.truthy (play data) = false /\ Js.truthy (wmplay data) = false
  /\ (preferHD = true -> Js.truthy (hdplay data) = false).
Proof.
  unfold ApiManager.getBestVideoUrl. cbv zeta.
  set (other := fun u => Js.truthy u && negb (String.eqb u (play data))).
  fold (other (hdplay data)). fold (other (wmplay data)).
  assert (H1 : forall u, other u = true -> Js.truthy u = true).
  { by intros u [? _]%andb_true_iff. }
  assert (H2 : Js.truthy (play data) = false ->
               forall u, other u = false -> Js.truthy u = false).
  { intros Hp u Hu. unfold other in Hu. apply andb_false_iff in Hu as [|Hu]; [done|].
    apply negb_false_iff, String.eqb_eq in Hu. by rewrite Hu. }
  destruct preferHD, (other (hdplay data)) eqn:Eh, (other (wmplay data)) eqn:Ew,
    (Js.truthy (play data)) eqn:Ep;
    (split; [intros Hu; try discriminate Hu; repeat split; by auto
            |intros (Ha & Hb & Hc); try done;
             try pose proof (H1 _ Eh); try pose proof (H1 _ Ew);
             try specialize (Hc eq_refl); congruence]).
Qed.

(** X9 ([getBestVideoUrl]).  The URL chosen is never empty and is one of the
    record's own: the standard or the watermark-free one, or the HD one when
    HD is preferred; without that preference the HD URL is never chosen
    for being the HD URL.  Nothing is chosen exactly when the record has
    neither a standard nor a watermark-free URL nor, under the HD preference,
    an HD URL. *)
Theorem getBestVideoUrl_chooses_a_url_of_the_record (data : MediaRecord)
    (preferHD : bool) :
  (forall u, ApiManager.getBestVideoUrl (Some data) preferHD = Some u ->
     Js.truthy u = true
     /\ (u = play data \/ u = wmplay data \/ (preferHD = true /\ u = hdplay data)))
  /\ (ApiManager.getBestVideoUrl (Some data) preferHD = None <->
      Js.truthy (play data) = false /\ Js.truthy (wmplay data) = false
      /\ (preferHD = true -> Js.truthy (hdplay data) = false))
  /\ ApiManager.getBestVideoUrl None preferHD = None.
Proof.
  split; [|split; [apply getBestVideoUrl_none|done]].
  unfold ApiManager.getBestVideoUrl. cbv zeta.
  set (other := fun u => Js.truthy u && negb (String.eqb u (play data))).
  fold (other (hdplay data)). fold (other (wmplay data)).
  assert (H1 : forall u, other u = true -> Js.truthy u = true).
  { by intros u [? _]%andb_true_iff. }
  intros u.
  destruct preferHD, (other (hdplay data)) eqn:Eh, (other (wmplay data)) eqn:Ew,
    (Js.truthy (play data)) eqn:Ep; intros Hu; try discriminate;
    injection Hu as <-; (split; [by auto|]); tauto.
Qed.

Lemma or_else_falsy (a b : string) :
  Js.truthy (Js.or_else a b) = false <-> a = "" /\ b = "".
Proof.
  unfold Js.or_else. destruct (Js.truthy a) eqn:Ha.
  - rewrite Ha. apply truthy_true in Ha. split; [done|]. by intros [? _].
  - apply truthy_false in Ha. rewrite truthy_false. split; [done|]. by intros [_ ?].
Qed.

(** X10 (a normalized payload always offers a URL).  On the record that
    [normalizeTikwmData] builds, [getBestVideoUrl] finds nothing only when
    the payload has no video URL at all.  Under the HD preference it returns
    the payload's HD URL when that differs from the standard one; and since
    the watermark-free field falls back on the HD one, it returns the HD URL
    without that preference too when the payload has no watermark-free
    URL. *)
Theorem normalized_payload_offers_a_url (raw : RawTikwm) (preferHD : bool) :
  let record := Api.normalizeTikwmData raw in
  (ApiManager.getBestVideoUrl (Some record) preferHD = None <->
   rw_play raw = "" /\ rw_hdplay raw = "" /\ rw_wmplay raw = "")
  /\ (Js.truthy (rw_hdplay raw) = true -> rw_hdplay raw <> rw_play raw ->
      ApiManager.getBestVideoUrl (Some record) true = Some (rw_hdplay raw)
      /\ (rw_wmplay raw = "" ->
          ApiManager.getBestVideoUrl (Some record) false = Some (rw_hdplay raw))).
Proof.
  intros record. split.
  - rewrite getBestVideoUrl_none. unfold record. simpl.
    rewrite or_else_falsy, truthy_false. split.
    + intros (Hp & (Hw & Hh) & _). split; [done|]. split; [|done].
      apply truthy_false in Hh. by apply or_else_falsy in Hh as [? _].
    + intros (Hp & Hh & Hw). rewrite Hp, Hh, Hw. done.
  - intros Hh Hne. unfold ApiManager.getBestVideoUrl, record. simpl.
    rewrite (truthy_or_else _ _ Hh), Hh.
    apply String.eqb_neq in Hne. rewrite Hne. simpl. split; [done|].
    intros ->. unfold Js.or_else at 1 2. simpl. by rewrite Hh, Hne.
Qed.

Section Organize.
Variables (sel : DownloadUrls -> option string) (kind : Download -> bool).
Hypothesis Hsel : forall q v,
  sel (Api.organize q v) = if kind v then Some (d_url v) else sel q.

Lemma organize_others post : forall q,
  (forall x, x ∈ post -> kind x = false) ->
  sel (List.fold_left Api.organize post q) = sel q.
Proof.
  induction post as [|x r IH]; intros q Hpost; [done|]. simpl.
  rewrite IH by (intros y Hy; apply Hpost; by right).
  rewrite Hsel, Hpost; [done|left].
Qed.

Lemma organize_last downloads q d :
  lastWith (fun d => Api.isVideo d && kind d) downloads d ->
  sel (List.fold_left Api.organize (List.filter Api.isVideo downloads) q)
  = Some (d_url d).
Proof.
  intros (pre & post & -> & [Hv Hd]%andb_true_iff & Hpost).
  rewrite List.filter_app. simpl. rewrite Hv.
  rewrite List.fold_left_app. simpl.
  rewrite organize_others.
  - by rewrite Hsel, Hd.
  - intros x Hx. apply list_elem_of_In, List.filter_In in Hx as [Hx Hvx].
    apply list_elem_of_In, Hpost in Hx. by rewrite Hvx in Hx.
Qed.
End Organize.

(** X11 (the last entry of a kind wins in [videoQualities]).  In the record
    that [normalizeTikVidData] builds, the URL filed under a quality is the
    one of the last video entry of that quality, an entry being HD when its
    label contains HD, standard when it is not HD and its label contains
    [1], watermark-free when it is neither and its label contains [2]; the
    audio URL is the one of the first audio entry. *)
Theorem videoQualities_keep_the_last_entry (raw : RawTikVid) :
  let q := tv_videoQualities (Api.normalizeTikVidData raw) in
  let video kind d := Api.isVideo d && kind d in
  let standard d := negb (Api.isHD d) && Api.isStandard d in
  let watermarkFree d :=
    negb (Api.isHD d) && negb (Api.isStandard d) && Api.isWatermarkFree d in
  (forall d, lastWith (video Api.isHD) (rv_downloads raw) d ->
     dl_hdplay q = Some (d_url d))
  /\ (forall d, lastWith (video standard) (rv_downloads raw) d ->
        dl_play q = Some (d_url d))
  /\ (forall d, lastWith (video watermarkFree) (rv_downloads raw) d ->
        dl_wmplay q = Some (d_url d))
  /\ (forall d, firstWith Api.isAudio (rv_downloads raw) d ->
        tv_audioUrl (Api.normalizeTikVidData raw) = d_url d).
Proof.
  intros q video standard watermarkFree. unfold q. simpl.
  split; [|split; [|split]].
  - intros d. apply organize_last. intros q0 v. unfold Api.organize.
    by destruct (Api.isHD v), (Api.isStandard v), (Api.isWatermarkFree v).
  - intros d. apply (organize_last dl_play standard). intros q0 v.
    unfold Api.organize, standard.
    by destruct (Api.isHD v), (Api.isStandard v), (Api.isWatermarkFree v).
  - intros d. apply (organize_last dl_wmplay watermarkFree). intros q0 v.
    unfold Api.organize, watermarkFree.
    by destruct (Api.isHD v), (Api.isStandard v), (Api.isWatermarkFree v).
  - intros d (pre & post & -> & Hd & Hpre).
    rewrite List.filter_app. simpl. rewrite Hd.
    replace (List.filter Api.isAudio pre) with (@nil Download); [done|].
    symmetry. clear -Hpre. induction pre as [|x r IH]; [done|]. simpl.
    rewrite Hpre by left. apply IH. intros y Hy. apply Hpre. by right.
Qed.

(** ** [retryAsync] *)

Section Retry.
Variable env : Env.
Context {A : Type}.
Variables (fn : M World A) (maxRetries : nat) (baseDelay : Z).
Hypothesis Hquiet : emits fn (fun _ ev => sleepsOf ev = []).

Lemma sleepsOf_app t1 t2 : sleepsOf (t1 ++ t2) = (sleepsOf t1 ++ sleepsOf t2)%list.
Proof. apply omap_app. Qed.

(** From the [i]-th attempt on: the pauses are those of the attempts
    [i], [i + 1], ... that failed, the last attempt excepted. *)
Local Abbreviation pausesFrom i :=
  (fun (r : result A) (ev : list event) =>
     exists k, (k <= maxRetries - 1 - i)%nat
       /\ sleepsOf ev
          = List.map (fun j => baseDelay * 2 ^ Z.of_nat j) (List.seq i k)
       /\ (forall e, r = Thrown e -> k = (maxRetries - 1 - i)%nat)).

Lemma retry_loop_pauses remaining : forall i lastError,
  (i + remaining = maxRetries)%nat ->
  emits (Utils.retry_loop env fn maxRetries baseDelay i remaining lastError)
    (pausesFrom i).
Proof.
  induction remaining as [|rem IH]; intros i lastError Hi; simpl.
  - eapply emits_weaken; [apply emits_throw|]. cbv beta. intros r ev [_ ->].
    exists 0%nat. split; [lia|]. split; [done|]. intros _ _. lia.
  - assert (Hnext : forall e, emits
              (bind (if (i <? maxRetries - 1)%nat
                     then Utils.sleep env (baseDelay * 2 ^ Z.of_nat i) else ret tt)
                 (fun _ => Utils.retry_loop env fn maxRetries baseDelay (S i) rem e))
              (pausesFrom i)).
    { intros e. destruct (i <? maxRetries - 1)%nat eqn:Hlt;
        [apply Nat.ltb_lt in Hlt|apply Nat.ltb_ge in Hlt].
      - eapply emits_weaken.
        { exact (emits_bind _ _ _ (fun _ => pausesFrom (S i)) (emits_sleep env _)
                   (fun _ => IH (S i) e ltac:(lia))). }
        cbv beta.
        intros r ev [(e' & -> & [[=] _])
                    |(a & e1 & e2 & -> & [_ ->] & k & Hk & Hs & Hthrown)].
        exists (S k). split; [lia|]. split.
        + rewrite sleepsOf_app, Hs. done.
        + intros e' He'. specialize (Hthrown e' He'). lia.
      - eapply emits_weaken.
        { exact (emits_bind _ _ _ (fun _ => pausesFrom (S i)) (emits_ret tt)
                   (fun _ => IH (S i) e ltac:(lia))). }
        cbv beta.
        intros r ev [(e' & -> & [[=] _])
                    |(a & e1 & e2 & -> & [_ ->] & k & Hk & Hs & Hthrown)].
        exists 0%nat. split; [lia|]. split.
        + rewrite sleepsOf_app, Hs. simpl. assert (k = 0%nat) as -> by lia. done.
        + intros _ _. lia. }
    eapply emits_weaken.
    { exact (emits_try_catch fn _ _ (fun _ => pausesFrom i) Hquiet Hnext). }
    cbv beta.
    intros r ev [(a & -> & Hs)|(e & e1 & e2 & -> & Hs & k & Hk & Hs2 & Hthrown)].
    + exists 0%nat. split; [lia|]. split; [done|]. intros ? [=].
    + exists k. split; [done|]. split; [|done].
      by rewrite sleepsOf_app, Hs.
Qed.
End Retry.

(** X12 (the back-off of [retryAsync]).  Let [fn] itself never pause.  The
    pauses of [retryAsync(fn, maxRetries, baseDelay)] are [baseDelay],
    twice that, four times that and so on, one after each failed attempt
    but the last; when the call fails, every attempt has failed and there
    are exactly [maxRetries - 1] pauses. *)
Theorem retryAsync_backs_off_exponentially {A : Type} (env : Env)
    (fn : M World A) (maxRetries : nat) (baseDelay : Z) (w : World) :
  emits fn (fun _ ev => sleepsOf ev = []) ->
  let '(r, w') := Utils.retryAsync env fn maxRetries baseDelay w in
  exists k, (k <= maxRetries - 1)%nat
    /\ sleepsOf (Trace.since w w')
       = List.map (fun j => baseDelay * 2 ^ Z.of_nat j) (List.seq 0 k)
    /\ (forall e, r = Thrown e -> k = (maxRetries - 1)%nat).
Proof.
  intros Hquiet.
  pose proof (since_emits _ _ w
                (retry_loop_pauses env fn maxRetries baseDelay Hquiet
                   maxRetries 0%nat "" eq_refl)) as H.
  cbv beta in H. unfold Utils.retryAsync.
  destruct (Utils.retry_loop env fn maxRetries baseDelay 0 maxRetries "" w) as [r w'].
  simpl in H. destruct H as (k & Hk & Hs & Hthrown).
  exists k. split; [lia|]. split; [done|]. intros e He. rewrite (Hthrown e He). lia.
Qed.

(** ** Sanitizing text and file names *)

Section Strings.

Lemma chars_append (a b : string) : chars (a +:+ b) = (chars a ++ chars b)%list.
Proof. unfold chars. induction a as [|c a IH]; simpl; [done|]. by rewrite IH. Qed.

Lemma occurs_append c a b : occurs c (a +:+ b) = occurs c a || occurs c b.
Proof. unfold occurs. by rewrite chars_append, existsb_app. Qed.

Lemma occurs_cons c d s : occurs c (String d s) = Ascii.eqb c d || occurs c s.
Proof. done. Qed.

(** After [replace(/c/g, by)] the character is gone, unless [by] brings
    it back; other characters come from the text or from [by]. *)
Lemma replaceAll_removes c by_ s :
  occurs c by_ = false -> occurs c (Validation.replaceAll c by_ s) = false.
Proof.
  intros Hby. induction s as [|d s IH]; [done|]. simpl.
  destruct (Ascii.eqb_spec d c) as [->|Hne].
  - by rewrite occurs_append, Hby, IH.
  - rewrite occurs_cons, IH, orb_false_r. apply Ascii.eqb_neq. congruence.
Qed.

Lemma replaceAll_keeps_out c by_ d s :
  occurs d by_ = false -> occurs d s = false ->
  occurs d (Validation.replaceAll c by_ s) = false.
Proof.
  intros Hby. induction s as [|x s IH]; [done|]. simpl.
  rewrite occurs_cons. intros [Hx Hs]%orb_false_iff.
  destruct (Ascii.eqb x c).
  - by rewrite occurs_append, Hby, IH.
  - by rewrite occurs_cons, Hx, IH.
Qed.

Lemma replaceAll_absent c by_ s :
  occurs c s = false -> Validation.replaceAll c by_ s = s.
Proof.
  induction s as [|d s IH]; [done|]. simpl.
  rewrite occurs_cons. intros [Hd Hs]%orb_false_iff.
  rewrite Ascii.eqb_sym, Hd. by rewrite IH.
Qed.
End Strings.

(** X13 ([sanitizeText]).  The sanitized text contains none of the five
    characters that are escaped (the two angle brackets, the two quotes and
    the slash), and sanitizing it again does not change it.  The ampersand
    is not escaped: a text that already holds an entity comes out as it
    is. *)
Theorem sanitizeText_leaves_no_markup (text : string) :
  (forall c, c ∈ ["<"; ">"; Utility.doubleQuote; "'"; "/"]%char ->
     occurs c (Validation.sanitizeText text) = false)
  /\ Validation.sanitizeText (Validation.sanitizeText text)
     = Validation.sanitizeText text
  /\ Validation.sanitizeText "&lt;" = Validation.sanitizeText "<".
Proof.
  assert (Hfree : forall c, c ∈ ["<"; ">"; Utility.doubleQuote; "'"; "/"]%char ->
            occurs c (Validation.sanitizeText text) = false).
  { intros c Hc. unfold Validation.sanitizeText.
    repeat (apply elem_of_cons in Hc as [->|Hc]);
      [..|by apply elem_of_nil in Hc];
      repeat first
        [ apply replaceAll_removes; reflexivity
        | apply replaceAll_keeps_out; [reflexivity|] ]. }
  split; [done|]. split; [|reflexivity].
  set (t := Validation.sanitizeText text) in *.
  unfold Validation.sanitizeText at 1.
  rewrite (replaceAll_absent "<") by (apply Hfree; set_solver).
  rewrite (replaceAll_absent ">") by (apply Hfree; set_solver).
  rewrite (replaceAll_absent Utility.doubleQuote) by (apply Hfree; set_solver).
  rewrite (replaceAll_absent "'") by (apply Hfree; set_solver).
  by rewrite (replaceAll_absent "/") by (apply Hfree; set_solver).
Qed.

Section FileNames.
Implicit Types (p : ascii -> bool) (s : string).

Lemma substring0_forallb p n : forall s,
  Url.forallb_string p s = true -> Url.forallb_string p (String.substring 0 n s) = true.
Proof.
  induction n as [|n IH]; intros [|c r]; simpl; try done.
  intros [Hc Hr]%andb_true_iff. by rewrite Hc, IH.
Qed.

Lemma substring0_length n : forall s, (String.length (String.substring 0 n s) <= n)%nat.
Proof.
  induction n as [|n IH]; intros [|c r]; simpl; try lia.
  specialize (IH r). lia.
Qed.

Lemma substring0_nonempty n s :
  s <> "" -> (0 < n)%nat -> String.substring 0 n s <> "".
Proof. destruct n, s; simpl; try done. lia. Qed.

Lemma replaceClass_forallb class by_ s :
  class by_ = false ->
  Url.forallb_string (fun c => negb (class c)) (Utility.replaceClass class by_ s) = true.
Proof.
  intros Hby. induction s as [|c r IH]; [done|]. simpl. rewrite IH, andb_true_r.
  destruct (class c) eqn:Hc; by rewrite ?Hby, ?Hc.
Qed.

Lemma replaceRuns_forallb p by_ s : forall inRun,
  p by_ = true -> Url.forallb_string p s = true ->
  Url.forallb_string p (Utility.replaceRuns by_ inRun s) = true.
Proof.
  intros inRun Hby. revert inRun. induction s as [|c r IH]; intros inRun; [done|].
  simpl. intros [Hc Hr]%andb_true_iff.
  destruct (Js.is_space c), inRun; simpl; rewrite ?Hby, ?Hc, ?IH; done.
Qed.

Lemma replaceRuns_no_space by_ s : forall inRun,
  Js.is_space by_ = false ->
  Url.forallb_string (fun c => negb (Js.is_space c))
    (Utility.replaceRuns by_ inRun s) = true.
Proof.
  intros inRun Hby. revert inRun. induction s as [|c r IH]; intros inRun; [done|].
  simpl. destruct (Js.is_space c) eqn:Hc, inRun; simpl; rewrite ?Hby, ?Hc, ?IH; done.
Qed.

Lemma replaceRuns_nonempty by_ s :
  s <> "" -> Utility.replaceRuns by_ false s <> "".
Proof. destruct s as [|c r]; [done|]. simpl. by destruct (Js.is_space c). Qed.

Lemma trim_no_space s :
  Url.forallb_string (fun c => negb (Js.is_space c)) s = true -> Js.trim s = s.
Proof.
  intros H. unfold Js.trim.
  assert (Hstart : Js.trimStart s = s).
  { destruct s as [|c r]; [done|]. simpl in *.
    apply andb_true_iff in H as [Hc _]. apply negb_true_iff in Hc. by rewrite Hc. }
  rewrite Hstart. clear Hstart.
  induction s as [|c r IH]; [done|]. simpl in *.
  apply andb_true_iff in H as [Hc Hr]. apply negb_true_iff in Hc.
  rewrite (IH Hr). destruct r; [by rewrite Hc|done].
Qed.
End FileNames.

(** X14 ([sanitizeFilename] yields valid file names).  For every file name
    of ASCII characters, the sanitized name passes [isValidFilename]: it is
    not blank, holds none of the characters of [FILENAME_SANITIZE], and has
    at most 100 characters; it holds no white space either. *)
Theorem sanitizeFilename_yields_valid_names (filename : string) :
  Utility.isAscii filename = true ->
  let name := Utility.sanitizeFilename filename in
  Validation.isValidFilename name = true
  /\ (String.length name <= 100)%nat
  /\ Url.forallb_string (fun c => negb (Js.is_space c)) name = true.
Proof.
  intros _ name. unfold name, Utility.sanitizeFilename.
  destruct (Js.truthy filename) eqn:Hne; cbn [negb];
    [|split; [reflexivity|split; [simpl; lia|reflexivity]]].
  apply truthy_true in Hne.
  set (g := Utility.replaceRuns "_" false
              (Utility.replaceClass Utility.FILENAME_SANITIZE "_" filename)).
  assert (Hspace : Url.forallb_string (fun c => negb (Js.is_space c))
                     (String.substring 0 100 g) = true).
  { apply substring0_forallb, replaceRuns_no_space. reflexivity. }
  assert (Hclass : Url.forallb_string (fun c => negb (Utility.FILENAME_SANITIZE c))
                     (String.substring 0 100 g) = true).
  { apply substring0_forallb, replaceRuns_forallb; [reflexivity|].
    apply replaceClass_forallb. reflexivity. }
  assert (Hlen : (String.length (String.substring 0 100 g) <= 100)%nat)
    by apply substring0_length.
  assert (Hfull : String.substring 0 100 g <> "").
  { apply substring0_nonempty; [|lia]. apply replaceRuns_nonempty.
    by destruct filename. }
  split; [|done].
  unfold Validation.isValidFilename, Validators.isNotEmpty.
  rewrite (trim_no_space _ Hspace), (proj2 (truthy_true _) Hfull), Hclass.
  cbn [negb]. replace (255 <? _)%nat with false; [done|].
  symmetry. apply Nat.ltb_ge. lia.
Qed.

(** ** The archive, continued *)

Lemma batches_spec {A} (n : nat) : forall images : list A,
  (List.length images <= n)%nat ->
  concat (ImageDownloader.batches images) = images
  /\ Forall (fun batch => (1 <= List.length batch <= 3)%nat)
       (ImageDownloader.batches images)
  /\ List.length (ImageDownloader.batches images) = ((List.length images + 2) / 3)%nat
  /\ (forall i, (3 * i < List.length images)%nat ->
        ImageDownloader.batches images !! i = Some (take 3 (drop (3 * i) images))).
Proof.
  induction n as [|n IH]; intros images Hn.
  - destruct images; [|simpl in Hn; lia]. simpl. repeat split; try done.
    intros i Hi. lia.
  - destruct images as [|a [|b [|c rest]]].
    + simpl. repeat split; try done. intros i Hi. lia.
    + simpl. split; [done|]. split; [repeat constructor|]. split; [done|].
      intros [|i] Hi; [done|lia].
    + simpl. split; [done|]. split; [repeat constructor|]. split; [done|].
      intros [|i] Hi; [done|lia].
    + destruct (IH rest) as (Hcat & Hall & Hlen & Hslice); [simpl in Hn; lia|].
      change (ImageDownloader.batches (a :: b :: c :: rest))
        with ([a; b; c] :: ImageDownloader.batches rest).
      split; [simpl; by rewrite Hcat|]. split; [constructor; [simpl; lia|done]|].
      split.
      * cbn [List.length]. rewrite Hlen.
        replace (S (S (S (List.length rest))) + 2)%nat
          with (List.length rest + 2 + 1 * 3)%nat by lia.
        rewrite Nat.div_add by done. lia.
      * intros [|i] Hi; [done|].
        replace (3 * S i)%nat with (S (S (S (3 * i)))) by lia.
        simpl in Hi |- *. apply Hslice. lia.
Qed.

(** X15 (the batches of the archive).  The loop of [downloadAllImagesAsZip]
    cuts the list of images into consecutive slices of three, the last one
    possibly shorter: put end to end the batches give the list back, none is
    empty, and there are as many as a third of the images, rounded up.  So
    every image is processed once, in its place. *)
Theorem batches_partition_the_images {A} (images : list A) :
  concat (ImageDownloader.batches images) = images
  /\ Forall (fun batch => (1 <= List.length batch <= 3)%nat)
       (ImageDownloader.batches images)
  /\ List.length (ImageDownloader.batches images) = ((List.length images + 2) / 3)%nat
  /\ (forall i, (3 * i < List.length images)%nat ->
        ImageDownloader.batches images !! i = Some (take 3 (drop (3 * i) images))).
Proof. by apply (batches_spec (List.length images)). Qed.

Section ZipImage.
Variable env : Env.
Variable url : string.

(** An outcome of a computation that yields a blob, as far as the log
    shows it: the requests, the pauses, and whether it failed. *)
Local Abbreviation good :=
  (fun r : result Blob => forall blob, r = Returned blob -> (0 < blob_size blob)%nat).

Local Abbreviation failed :=
  (fun r : result Blob => match r with Thrown _ => true | Returned _ => false end).

Local Abbreviation within L :=
  (fun (r : result Blob) (ev : list event) =>
     good r /\ (requestsOf ev, sleepsOf ev, failed r) ∈ (L : list (list request * list Z * bool))).

Ltac stepZip :=
  match goal with
  | |- context [http env ?w ?r] => destruct (http env w r) as [?|?]
  | |- context [canvas env ?w ?u] => destruct (canvas env w u) as [?|[?|]]
  | |- context [if ?x then _ else _] => destruct x eqn:?
  end; cbn [fst snd trace log tick clock negb andb].

Ltac inList := repeat first [apply list_elem_of_here | apply list_elem_of_further].

Ltac sized :=
  repeat match goal with
         | H : (_ =? 0)%nat = false |- _ => apply Nat.eqb_neq in H
         | H : (0 <? _)%nat = true |- _ => apply Nat.ltb_lt in H
         end; lia.

(** The body of the loop of [processImageForZip]: one request, after a
    pause from the second attempt on. *)
Lemma emits_zipAttempt (pause : M World unit) (pauses : list Z) :
  emits pause (fun r ev => r = Returned tt /\ requestsOf ev = [] /\ sleepsOf ev = pauses) ->
  emits (pause;;;
         response <- Utils.fetch env (ReqCors url);;
         if res_ok response then
           match ImageDownloader.validateImageBlob (res_blob response) with
           | None => ret (res_blob response)
           | Some error => throw error
           end
         else throw ("HTTP " +:+ Js.string_of_nat (res_status response)))
    (fun r ev => good r /\ requestsOf ev = [ReqCors url] /\ sleepsOf ev = pauses).
Proof.
  intros Hpause.
  assert (Hrest : emits
    (response <- Utils.fetch env (ReqCors url);;
     if res_ok response then
       match ImageDownloader.validateImageBlob (res_blob response) with
       | None => ret (res_blob response)
       | Some error => throw error
       end
     else throw ("HTTP " +:+ Js.string_of_nat (res_status response)))
    (fun r ev => good r /\ requestsOf ev = [ReqCors url] /\ sleepsOf ev = [])).
  { intros w.
    unfold ImageDownloader.validateImageBlob, bind, throw, ret, Utils.fetch.
    repeat stepZip; (eexists; split; [reflexivity|]);
      (split; [intros ? [=]; subst; sized|done]). }
  eapply emits_weaken.
  { exact (emits_bind pause _ _
             (fun _ r ev => good r /\ requestsOf ev = [ReqCors url] /\ sleepsOf ev = [])
             Hpause (fun _ => Hrest)). }
  cbv beta.
  intros r ev [(e & -> & [=] & _)
              |(a & e1 & e2 & -> & (_ & Hreq & Hsl) & Hgood & Hreq2 & Hsl2)].
  split; [done|].
  by rewrite requestsOf_app, sleepsOf_app, Hreq, Hsl, Hreq2, Hsl2, app_nil_r.
Qed.

Lemma emits_getImageBlobViaCanvas :
  emits (ImageDownloader.getImageBlobViaCanvas env url)
    (fun r ev => good r /\ requestsOf ev = [ReqCanvas url] /\ sleepsOf ev = []).
Proof.
  intros w.
  unfold ImageDownloader.getImageBlobViaCanvas, ImageDownloader.loadCanvas, bind,
    throw, ret.
  repeat stepZip; (eexists; split; [reflexivity|]);
    (split; [intros ? [=]; subst; sized|done]).
Qed.

(** An attempt, and what follows it when it fails. *)
Lemma emits_zipLevel (body : M World Blob) (next : string -> M World Blob)
    pauses L :
  emits body (fun r ev => good r /\ requestsOf ev = [ReqCors url]
                          /\ sleepsOf ev = pauses) ->
  (forall message, emits (next message) (within L)) ->
  emits (try_catch body next)
    (within (([ReqCors url], pauses, false)
             :: List.map (fun o => (ReqCors url :: o.1.1, (pauses ++ o.1.2)%list, o.2)) L)).
Proof.
  intros Hbody Hnext. eapply emits_weaken.
  { exact (emits_try_catch body next _ (fun _ => within L) Hbody Hnext). }
  cbv beta.
  intros r ev [(b & -> & Hgood & Hreq & Hsl)
              |(e & e1 & e2 & -> & (_ & Hreq & Hsl) & Hgood & Hin)].
  - split; [done|]. rewrite Hreq, Hsl. left.
  - split; [done|]. right. rewrite requestsOf_app, sleepsOf_app, Hreq, Hsl.
    apply (list_elem_of_fmap_2
             (fun o : list request * list Z * bool =>
                (ReqCors url :: o.1.1, (pauses ++ o.1.2)%list, o.2)) _ _ Hin).
Qed.

Lemma emits_pause ms :
  emits (Utils.sleep env ms)
    (fun r ev => r = Returned tt /\ requestsOf ev = [] /\ sleepsOf ev = [ms]).
Proof. intros w. by eexists. Qed.

Lemma emits_no_pause :
  emits (ret tt : M World unit)
    (fun r ev => r = Returned tt /\ requestsOf ev = [] /\ sleepsOf ev = []).
Proof. intros w. exists []. simpl. by rewrite app_nil_r. Qed.

(** What one image costs: at most three requests, a second and two
    seconds apart, then at most one canvas. *)
Lemma emits_processImageForZip index :
  emits (ImageDownloader.processImageForZip env url index)
    (fun r ev =>
       let cors := ReqCors url in
       (forall blob, r = Returned blob ->
          (0 < blob_size blob)%nat
          /\ (requestsOf ev, sleepsOf ev)
             ∈ [ ([cors], []); ([cors; cors], [1000]);
                 ([cors; cors; cors], [1000; 2000]);
                 ([cors; cors; cors; ReqCanvas url], [1000; 2000]) ])
       /\ (forall e, r = Thrown e ->
             sleepsOf ev = [1000; 2000]
             /\ requestsOf ev
                ∈ [ [cors; cors; cors]; [cors; cors; cors; ReqCanvas url] ])).
Proof.
  unfold ImageDownloader.processImageForZip.
  cbn [ImageDownloader.zipAttempts Nat.eqb Nat.sub Nat.ltb Nat.leb andb].
  eapply emits_weaken.
  { apply (emits_zipLevel _ _ []); [apply (emits_zipAttempt _ _ emits_no_pause)|].
    intros m1.
    apply (emits_zipLevel _ _ [1000 * Z.of_nat 1]);
      [apply (emits_zipAttempt _ _ (emits_pause _))|].
    intros m2.
    apply (emits_zipLevel _ _ [1000 * Z.of_nat 2]
             [([], [], true); ([ReqCanvas url], [], false);
              ([ReqCanvas url], [], true)]);
      [apply (emits_zipAttempt _ _ (emits_pause _))|].
    intros m3. destruct (Js.includes m3 "CORS").
    - eapply emits_weaken.
      { exact (emits_try_catch _ _ _
                 (fun _ r ev => r = Thrown m3 /\ ev = [])
                 emits_getImageBlobViaCanvas (fun _ => emits_throw _)). }
      cbv beta.
      intros r ev [(b & -> & Hgood & Hreq & Hsl)
                  |(e & e1 & e2 & -> & (_ & Hreq & Hsl) & -> & ->)].
      + split; [done|]. rewrite Hreq, Hsl. inList.
      + split; [done|]. rewrite app_nil_r, Hreq, Hsl. inList.
    - eapply emits_weaken; [apply emits_throw|]. cbv beta.
      intros r ev [-> ->]. split; [done|]. inList. }
  cbv beta. cbn [List.map fst snd app].
  intros r ev [Hgood Hin]. split.
  - intros blob ->. split; [by apply Hgood|]. cbv beta iota in Hin.
    repeat (apply elem_of_cons in Hin as [Hin|Hin];
            [first [discriminate Hin | injection Hin as -> ->; inList]|]).
    by apply elem_of_nil in Hin.
  - intros e ->. cbv beta iota in Hin.
    repeat (apply elem_of_cons in Hin as [Hin|Hin];
            [first [discriminate Hin | injection Hin as -> ->; split; [done|inList]]|]).
    by apply elem_of_nil in Hin.
Qed.
End ZipImage.

(** X16 (what an image of the archive costs).  [processImageForZip] asks for
    the image at most three times, pausing one second before the second
    request and two seconds before the third, and tries the canvas at most
    once, after the third request.  A blob that it returns is never empty.
    When it fails, the three requests have been made and both pauses
    taken. *)
Theorem processImageForZip_tries_three_times (env : Env) (url : string)
    (index : nat) (w : World) :
  let '(r, w') := ImageDownloader.processImageForZip env url index w in
  let ev := Trace.since w w' in
  let cors := ReqCors url in
  (forall blob, r = Returned blob ->
     (0 < blob_size blob)%nat
     /\ (requestsOf ev, sleepsOf ev)
        ∈ [ ([cors], []); ([cors; cors], [1000]);
            ([cors; cors; cors], [1000; 2000]);
            ([cors; cors; cors; ReqCanvas url], [1000; 2000]) ])
  /\ (forall e, r = Thrown e ->
        sleepsOf ev = [1000; 2000]
        /\ requestsOf ev ∈ [ [cors; cors; cors]; [cors; cors; cors; ReqCanvas url] ]).
Proof.
  pose proof (since_emits _ _ w (emits_processImageForZip env url index)) as H.
  cbv beta zeta in H.
  by destruct (ImageDownloader.processImageForZip env url index w) as [r w'].
Qed.

Section ZipLoader.
Variable env : Env.
Local Abbreviation extends m := (emits m (fun _ ev => omap (fun _ => @None unit) ev = [])).

Lemma extends_any {A} (m : M World A) R : emits m R -> extends m.
Proof. intros H. eapply emits_weaken; [exact H|]. cbv beta. intros _ ev _.
  induction ev; [done|]. done. Qed.

(** The archive opens with the loading message and the start toast, and
    a failure closes with the warning toast. *)
Lemma emits_zip_body images :
  images <> [] ->
  emits (ImageDownloader.downloadAllImagesAsZip env images)
    (fun r ev =>
       exists mid,
         ev = (EvUi (ShowLoading "Đang tạo file ZIP...")
               :: EvUi (Toast ("Bắt đầu tải "
                               +:+ Js.string_of_nat (List.length images)
                               +:+ " ảnh...") "info")
               :: mid ++ [EvUi HideLoading])%list
         /\ (forall e, r = Thrown e ->
               exists mid',
                 mid = (mid' ++ [EvUi (Toast
                                   "Không thể tạo ZIP. Vui lòng sử dụng tải từng ảnh."
                                   "warning")])%list)).
Proof.
  intros Hne. unfold ImageDownloader.downloadAllImagesAsZip.
  destruct images as [|url rest]; [done|]. cbv iota.
  remember (url :: rest) as imgs eqn:Himgs. clear Himgs Hne url rest.
  set (A := ShowLoading "Đang tạo file ZIP...").
  set (B := Toast _ "info").
  set (W := Toast _ "warning").
  match goal with |- emits (try_finally (try_catch (bind _ (fun _ => bind _ (fun _ => ?m))) _) _) _ =>
    set (rest := m) end.
  assert (Hrest : extends rest).
  { unfold rest. apply yields_bind; [apply extends_zipLoop|]. intros z.
    destruct (_ =? _)%nat; [apply yields_throw|].
    apply yields_bind; [apply (extends_any _ _ (emits_generateFilename env _ _))|].
    intros filename.
    apply yields_bind; [apply (extends_any _ _ (emits_dom env _))|]. intros _.
    apply (extends_any _ _ (emits_ui _)). }
  assert (HB : emits (Utils.ui B;;; rest)
                 (fun _ ev => exists mid, ev = EvUi B :: mid)).
  { eapply emits_weaken.
    { exact (emits_bind _ _ _ (fun _ _ _ => True) (emits_ui B)
               (fun _ => emits_weaken _ _ _ Hrest (fun _ _ _ => I))). }
    cbv beta.
    intros r ev [(e & _ & [=] & _)|(a & e1 & e2 & -> & [_ ->] & _)].
    by exists e2. }
  assert (Hbody : emits (Utils.ui A;;; Utils.ui B;;; rest)
                    (fun _ ev => exists mid, ev = EvUi A :: EvUi B :: mid)).
  { eapply emits_weaken.
    { exact (emits_bind _ _ _ (fun _ _ ev => exists mid, ev = EvUi B :: mid)
               (emits_ui A) (fun _ => HB)). }
    cbv beta.
    intros r ev [(e & _ & [=] & _)|(a & e1 & e2 & -> & [_ ->] & mid & ->)].
    by exists mid. }
  assert (Hhandler : forall e, emits (Utils.ui W;;; throw e : M World unit)
                                 (fun r ev => r = Thrown e /\ ev = [EvUi W])).
  { intros e w. by eexists. }
  intros w. unfold try_finally.
  destruct (emits_try_catch _ _ _ _ Hbody Hhandler w) as (ev & Ht & HR).
  cbv beta in HR.
  destruct (try_catch _ _ w) as [r w1]. cbn [fst snd] in *.
  exists (ev ++ [EvUi HideLoading])%list.
  split; [simpl; by rewrite Ht, <- app_assoc|].
  destruct HR as [(a & -> & mid & ->)|(e & e1 & e2 & -> & [mid ->] & -> & ->)].
  - exists mid. split; [done|]. intros ? [=].
  - exists (mid ++ [EvUi W])%list. split; [by rewrite <- !app_assoc|].
    intros _ _. by exists mid.
Qed.
End ZipLoader.


(** ** What is handed to the browser *)

Section NoEmptySave.
Variable env : Env.
Local Abbreviation clean m := (emits m (fun _ ev => omap emptySave ev = [])).

Lemma clean_savesOnly ev :
  omap emptySave ev = [] -> savesOnly (fun _ blob => (0 < blob_size blob)%nat) ev.
Proof.
  intros H filename blob Hin. induction ev as [|e ev IH]; [by apply elem_of_nil in Hin|].
  simpl in H. destruct (emptySave e) eqn:He; [done|].
  apply elem_of_cons in Hin as [<-|Hin]; [|by apply IH].
  simpl in He. destruct (0 <? blob_size blob)%nat eqn:E; [|done].
  by apply Nat.ltb_lt.
Qed.

Lemma clean_retry {A} (m : M World A) n d : forall k i e,
  clean m -> clean (Utils.retry_loop env m n d i k e).
Proof.
  induction k as [|k IH]; intros i e Hm; simpl; [apply yields_throw|].
  apply yields_try_catch; [done|]. intros e'.
  apply yields_bind; [|intros _; by apply IH].
  destruct (i <? n - 1)%nat; [|apply yields_ret].
  eapply emits_weaken; [apply emits_sleep|cbv beta]. by intros ? ? [_ ->].
Qed.

Lemma clean_save blob filename :
  (0 < blob_size blob)%nat -> clean (Utils.dom env (SaveBlob filename blob)).
Proof.
  intros Hsize. eapply emits_weaken; [apply emits_dom|cbv beta].
  intros ? ? ->. simpl. by rewrite (proj2 (Nat.ltb_lt _ _) Hsize).
Qed.

Ltac sized :=
  repeat match goal with
         | H : (_ =? 0)%nat = false |- _ => apply Nat.eqb_neq in H
         | H : (0 <? _)%nat = true |- _ => apply Nat.ltb_lt in H
         end; lia.

Ltac tidy :=
  repeat first
    [ apply yields_ret | apply yields_throw
    | apply yields_bind; [|intros ?] | apply yields_try_catch; [|intros ?]
    | eapply emits_weaken; [apply emits_fetch|cbv beta; by intros ? ? ->]
    | apply clean_save; sized
    | eapply emits_weaken; [apply emits_dom|cbv beta; by intros ? ? ->]
    | eapply emits_weaken; [apply emits_later|cbv beta; by intros ? ? [_ ->]]
    | eapply emits_weaken; [apply emits_ui|cbv beta; by intros ? ? [_ ->]]
    | match goal with |- emits (if ?b then _ else _) _ => destruct b eqn:? end
    | match goal with
      | |- emits (match (if ?b then _ else _) with _ => _ end) _ => destruct b eqn:?
      end
    | match goal with |- emits (match ?b with _ => _ end) _ => destruct b eqn:? end ].

Lemma clean_downloadViaTikVidProxy url fn :
  clean (MediaDownloader.downloadViaTikVidProxy env url fn).
Proof.
  unfold MediaDownloader.downloadViaTikVidProxy, MediaDownloader.checkTikVidProxyHealth,
    MediaDownloader.downloadBlob.
  tidy.
Qed.

Lemma clean_downloadViaFetch url fn :
  clean (MediaDownloader.downloadViaFetch env url fn).
Proof.
  unfold MediaDownloader.downloadViaFetch, MediaDownloader.downloadBlob. tidy.
Qed.

Lemma clean_createDirectDownloadLink url fn :
  clean (MediaDownloader.createDirectDownloadLink env url fn).
Proof. unfold MediaDownloader.createDirectDownloadLink. tidy. Qed.

Lemma clean_tryMethods g methods :
  Forall (fun m => clean m) methods ->
  clean (MediaDownloader.tryMethods env g methods).
Proof.
  induction 1 as [|m rest Hm _ IH]; simpl; [apply yields_throw|].
  apply yields_try_catch; [by apply clean_retry|]. intros e.
  destruct (_ && _); [apply yields_throw|done].
Qed.

Lemma clean_downloadMedia url fn type :
  clean (MediaDownloader.downloadMedia env url fn type).
Proof.
  unfold MediaDownloader.downloadMedia.
  destruct (_ || _); [apply yields_throw|].
  apply yields_try_catch.
  - apply yields_bind; [tidy|]. intros _.
    apply yields_bind; [|intros _; tidy].
    apply clean_tryMethods. repeat constructor.
    + apply clean_downloadViaTikVidProxy.
    + apply clean_downloadViaFetch.
    + apply clean_createDirectDownloadLink.
  - intros e. apply yields_bind; [tidy|]. intros _.
    apply yields_bind; [tidy|]. intros _. apply clean_createDirectDownloadLink.
Qed.

Lemma clean_loadCanvas url :
  emits (ImageDownloader.loadCanvas env url) (fun _ ev => omap emptySave ev = []).
Proof.
  intros w. unfold ImageDownloader.loadCanvas. exists [EvRequest (ReqCanvas url)].
  by destruct (canvas env w url).
Qed.

Lemma clean_downloadSingleImage url index :
  clean (ImageDownloader.downloadSingleImage env url index).
Proof.
  unfold ImageDownloader.downloadSingleImage.
  apply yields_bind.
  { eapply emits_weaken; [apply emits_generateFilename|cbv beta].
    by intros r ev [? ->]. }
  intros fn. apply yields_try_catch; [|intros ?; tidy].
  unfold ImageDownloader.attemptImageDownload, ImageDownloader.tryMethods,
    Utils.retryAsync.
  repeat (apply yields_try_catch; [apply clean_retry|intros _]);
    [| | | |apply yields_throw].
  - unfold ImageDownloader.downloadImageViaProxy, ImageDownloader.downloadBlob. tidy.
  - unfold ImageDownloader.downloadImageViaFetch, ImageDownloader.downloadBlob,
      ImageDownloader.validateImageBlob. tidy.
  - unfold ImageDownloader.createDirectDownload. tidy.
  - unfold ImageDownloader.downloadImageViaCanvas, ImageDownloader.downloadBlob.
    apply yields_bind; [apply clean_loadCanvas|]. intros ?. tidy.
Qed.
End NoEmptySave.

(** X18 ([downloadMedia] never saves an empty file).  Whatever the network
    answers, every blob that [downloadMedia] hands to the browser for saving
    has content: an empty body is an error of the method that received it,
    never a download. *)
Theorem downloadMedia_never_saves_an_empty_file (env : Env)
    (url filename type : string) (w : World) :
  savesOnly (fun _ blob => (0 < blob_size blob)%nat)
    (Trace.since w (MediaDownloader.downloadMedia env url filename type w).2).
Proof.
  apply clean_savesOnly.
  apply (since_emits _ _ w (clean_downloadMedia env url filename type)).
Qed.

(** X19 (a single image is never saved empty).  Whatever the network and
    the canvas answer, every blob that [downloadSingleImage] hands to the
    browser for saving has content. *)
Theorem downloadSingleImage_never_saves_an_empty_file (env : Env) (url : string)
    (index : nat) (w : World) :
  savesOnly (fun _ blob => (0 < blob_size blob)%nat)
    (Trace.since w (ImageDownloader.downloadSingleImage env url index w).2).
Proof.
  apply clean_savesOnly.
  apply (since_emits _ _ w (clean_downloadSingleImage env url index)).
Qed.

(** ** The handlers of download.js *)

Section Handlers.
Variable env : Env.

Lemma trim_empty_truthy url : Js.truthy (Js.trim url) = true -> Js.truthy url = true.
Proof. by destruct url. Qed.

(** What [validateDownloadUrl] accepts passes the guard of
    [downloadMedia]. *)
Lemma validateDownloadUrl_accepts url filename :
  Validation.dv_isValid (Validation.validateDownloadUrl url filename) = true ->
  Js.truthy url = true /\ String.eqb url "#" = false
  /\ Validators.isValidUrl url = true
  /\ Validation.validateDownloadUrl url filename
     = {| Validation.dv_isValid := true; Validation.dv_error := None;
          Validation.dv_type := Some (Validation.determineFileType url filename) |}.
Proof.
  unfold Validation.validateDownloadUrl.
  destruct (Validators.isNotEmpty url) eqn:Hne; [|done]. cbn [negb].
  destruct (String.eqb url "#") eqn:Hhash; [done|]. cbn [orb].
  destruct (_ || _); [done|]. destruct (_ || _); [done|].
  destruct (Validators.isValidUrl url); [|done]. cbn [negb]. intros _.
  split; [by apply trim_empty_truthy|done].
Qed.

Lemma validateDownloadUrl_rejects url filename :
  Validation.dv_isValid (Validation.validateDownloadUrl url filename) = false ->
  exists message,
    Validation.validateDownloadUrl url filename = Validation.rejected message
    /\ Js.truthy message = true.
Proof.
  unfold Validation.validateDownloadUrl.
  destruct (negb _); [eauto|]. destruct (_ || _); [eauto|].
  destruct (_ || _); [eauto|]. destruct (negb _); [eauto|]. done.
Qed.

(** Computations that only add to the log, and computations whose first
    addition is [e]. *)
Local Abbreviation adds m := (emits m (fun _ _ => True)).
Local Abbreviation startsWith e m :=
  (emits m (fun _ ev => exists rest, ev = (e :: rest)%list)).

Lemma adds_of {A} (m : M World A) R : emits m R -> adds m.
Proof. intros H. eapply emits_weaken; [exact H|done]. Qed.

Lemma adds_bind {A B} (m : M World A) (k : A -> M World B) :
  adds m -> (forall a, adds (k a)) -> adds (bind m k).
Proof.
  intros Hm Hk. eapply emits_weaken; [|by intros].
  exact (emits_bind m k _ (fun _ _ _ => True) Hm Hk).
Qed.

Lemma adds_try_catch {A} (m : M World A) h :
  adds m -> (forall e, adds (h e)) -> adds (try_catch m h).
Proof.
  intros Hm Hh. eapply emits_weaken; [|by intros].
  exact (emits_try_catch m h _ (fun _ _ _ => True) Hm Hh).
Qed.

Lemma startsWith_ui {B} u (k : unit -> M World B) :
  (forall a, adds (k a)) -> startsWith (EvUi u) (bind (Utils.ui u) k).
Proof.
  intros Hk. eapply emits_weaken.
  { exact (emits_bind _ k _ (fun _ _ _ => True) (emits_ui u) Hk). }
  cbv beta. intros r ev [(e & _ & [=] & _)|(a & e1 & e2 & -> & [_ ->] & _)].
  by exists e2.
Qed.

Lemma startsWith_try_catch {A} e (m : M World A) h :
  startsWith e m -> (forall x, adds (h x)) -> startsWith e (try_catch m h).
Proof.
  intros Hm Hh. eapply emits_weaken.
  { exact (emits_try_catch m h _ (fun _ _ _ => True) Hm Hh). }
  cbv beta. intros r ev [(a & _ & rest & ->)|(x & e1 & e2 & -> & [rest ->] & _)].
  - by exists rest.
  - by exists (rest ++ e2)%list.
Qed.

(** A valid download starts by showing the loader. *)
Lemma emits_downloadMedia_loader url filename type :
  Js.truthy url = true -> String.eqb url "#" = false ->
  startsWith (EvUi (ShowDownloadLoader filename type))
    (MediaDownloader.downloadMedia env url filename type).
Proof.
  intros Hurl Hhash. unfold MediaDownloader.downloadMedia.
  rewrite Hurl, Hhash. cbn [negb orb].
  apply startsWith_try_catch.
  - apply startsWith_ui. intros _.
    apply adds_bind; [|intros _; apply adds_bind; [|intros _]];
      [|apply (adds_of _ _ (emits_ui _))..].
    eapply adds_of. apply (clean_tryMethods env). repeat constructor.
    + apply clean_downloadViaTikVidProxy.
    + apply clean_downloadViaFetch.
    + apply clean_createDirectDownloadLink.
  - intros e.
    apply adds_bind; [apply (adds_of _ _ (emits_ui _))|intros _].
    apply adds_bind; [apply (adds_of _ _ (emits_ui _))|intros _].
    apply (adds_of _ _ (clean_createDirectDownloadLink env url filename)).
Qed.

Lemma emits_handleMediaDownload url filename :
  emits (DownloadHandlers.handleMediaDownload env url filename)
    (fun r ev =>
       let validation := Validation.validateDownloadUrl url filename in
       r = Returned tt
       /\ (Validation.dv_isValid validation = false ->
           exists message,
             Validation.dv_error validation = Some message
             /\ ev = [EvUi (Toast message "error")])
       /\ (Validation.dv_isValid validation = true ->
           let type :=
             if String.eqb (Validation.determineFileType url filename) "audio"
             then "audio" else "video" in
           exists rest, ev = EvUi (ShowDownloadLoader filename type) :: rest)).
Proof.
  unfold DownloadHandlers.handleMediaDownload. cbv zeta.
  destruct (Validation.dv_isValid (Validation.validateDownloadUrl url filename))
    eqn:Hvalid; cbn [negb].
  - destruct (validateDownloadUrl_accepts url filename Hvalid)
      as (Hurl & Hhash & _ & ->). cbn [Validation.dv_type Api.valueOf default].
    set (type := if String.eqb _ "audio" then "audio" else "video").
    pose proof (emits_downloadMedia_loader url filename type Hurl Hhash) as Hm.
    intros w. destruct (Hm w) as (ev & Ht & rest & ->).
    unfold try_catch.
    destruct (MediaDownloader.downloadMedia env url filename type w)
      as [[[]|e] w1]; cbn [fst snd] in *.
    + exists (EvUi (ShowDownloadLoader filename type) :: rest).
      split; [done|]. split; [done|]. split; [done|]. intros _. by exists rest.
    + eexists. split; [simpl; rewrite Ht, <- app_assoc; reflexivity|].
      split; [done|]. split; [done|]. intros _. eexists. reflexivity.
  - destruct (validateDownloadUrl_rejects url filename Hvalid) as (message & -> & Hm).
    intros w. unfold try_catch, throw. cbn.
    exists [EvUi (Toast (Js.or_else message "Không thể tải xuống. Vui lòng thử lại.")
                    "error")].
    split; [done|]. split; [done|]. split; [|done]. intros _.
    exists message. split; [done|]. by rewrite (truthy_or_else _ _ Hm).
Qed.
End Handlers.

(** X20 ([handleMediaDownload] never throws).  Whatever the URL and the
    network, the handler returns normally.  A URL that [validateDownloadUrl]
    rejects costs one error toast with the message of the validation, and
    nothing else: no request, no download.  A URL that it accepts goes to
    [downloadMedia], whose first act is to show the loader; the type shown
    is audio when the file type is audio, and video otherwise. *)
Theorem handleMediaDownload_never_throws (env : Env) (url filename : string)
    (w : World) :
  let '(r, w') := DownloadHandlers.handleMediaDownload env url filename w in
  let validation := Validation.validateDownloadUrl url filename in
  r = Returned tt
  /\ (Validation.dv_isValid validation = false ->
      exists message,
        Validation.dv_error validation = Some message
        /\ Trace.since w w' = [EvUi (Toast message "error")])
  /\ (Validation.dv_isValid validation = true ->
      let type :=
        if String.eqb (Validation.determineFileType url filename) "audio"
        then "audio" else "video" in
      exists rest, Trace.since w w' = EvUi (ShowDownloadLoader filename type) :: rest).
Proof.
  pose proof (since_emits _ _ w (emits_handleMediaDownload env url filename)) as H.
  cbv beta zeta in H.
  by destruct (DownloadHandlers.handleMediaDownload env url filename w) as [r w'].
Qed.

(** X21 ([downloadAllImages] reports every failure).  The handler of the
    archive button returns normally in every case.  Without images it shows
    one warning toast and does nothing else.  When the archive fails, the
    log ends with the warning toast of the archive, the hiding of the loading
    message, and an error toast that carries the message of the failure. *)
Theorem downloadAllImages_reports_every_failure (env : Env)
    (currentImages : option (list string)) (w : World) :
  let '(r, w') := DownloadHandlers.downloadAllImages env currentImages w in
  r = Returned tt
  /\ match currentImages with
     | None | Some [] =>
         Trace.since w w' = [EvUi (Toast "Không có ảnh để tải xuống" "warning")]
     | Some images =>
         forall e,
           (ImageDownloader.downloadAllImagesAsZip env images w).1 = Thrown e ->
           exists before,
             Trace.since w w'
             = (before
                ++ [ EvUi (Toast "Không thể tạo ZIP. Vui lòng sử dụng tải từng ảnh."
                             "warning");
                     EvUi HideLoading;
                     EvUi (Toast (Js.or_else e "Không thể tạo ZIP. Vui lòng thử lại.")
                             "error") ])%list
     end.
Proof.
  unfold DownloadHandlers.downloadAllImages, try_catch.
  destruct currentImages as [[|url rest]|];
    [cbn; split; [done|by apply since_app]
    | |cbn; split; [done|by apply since_app]].
  pose proof (emits_zip_body env (url :: rest) ltac:(done) w) as (ev & Ht & mid & -> & Hfail).
  destruct (ImageDownloader.downloadAllImagesAsZip env (url :: rest) w)
    as [[[]|e] w1]; cbn [fst snd] in *.
  - split; [done|]. intros ? [=].
  - split; [done|]. intros e' [= <-].
    destruct (Hfail e eq_refl) as [mid' ->].
    exists (EvUi (ShowLoading "Đang tạo file ZIP...")
            :: EvUi (Toast ("Bắt đầu tải "
                            +:+ Js.string_of_nat (List.length (url :: rest))
                            +:+ " ảnh...") "info") :: mid').
    apply since_app. cbn [Utils.ui modify log trace snd]. rewrite Ht.
    rewrite <- (app_assoc (trace w)). f_equal. simpl. do 2 f_equal.
    by rewrite <- !app_assoc.
Qed.

(** ** The validators of blobs *)

Lemma startsWith_exclusive (s p q : string) :
  String.length p = String.length q -> p <> q ->
  Js.startsWith s p = true -> Js.startsWith s q = false.
Proof.
  unfold Js.startsWith. intros Hlen Hne Hp.
  destruct (String.prefix q s) eqn:Hq; [|done].
  apply String.prefix_correct in Hp, Hq. rewrite Hlen in Hp. congruence.
Qed.

(** X22 (the two validators of blobs agree).  [validateMediaBlob] with the
    expected type image accepts exactly the blobs that [validateImageBlob]
    accepts; with the expected type any it accepts exactly the blobs that
    have content; and whatever the expected type, what it accepts has
    content and is reported with its size. *)
Theorem validateMediaBlob_agrees_with_validateImageBlob (blob : Blob) :
  (Validation.mv_isValid (Validation.validateMediaBlob blob "image") = true
   <-> ImageDownloader.validateImageBlob blob = None)
  /\ (Validation.mv_isValid (Validation.validateMediaBlob blob "any") = true
      <-> (0 < blob_size blob)%nat)
  /\ (forall expectedType,
        Validation.mv_isValid (Validation.validateMediaBlob blob expectedType) = true ->
        (0 < blob_size blob)%nat
        /\ Validation.mv_size (Validation.validateMediaBlob blob expectedType)
           = blob_size blob).
Proof.
  unfold Validation.validateMediaBlob, ImageDownloader.validateImageBlob.
  destruct (Nat.eqb_spec (blob_size blob) 0) as [Hz|Hnz].
  - split; [done|]. split; [split; [done|lia]|]. done.
  - split; [|split].
    + destruct (Js.startsWith (blob_type blob) "image/") eqn:Himg.
      * rewrite (startsWith_exclusive _ "image/" "video/") by done.
        by rewrite (startsWith_exclusive _ "image/" "audio/") by done.
      * destruct (Js.startsWith (blob_type blob) "video/"),
          (Js.startsWith (blob_type blob) "audio/"); done.
    + simpl. split; [lia|done].
    + intros expectedType. destruct (_ && _); [done|]. simpl. intros _. lia.
Qed.

(** ** Durations *)

Lemma append_inj_length (a b x y : string) :
  a +:+ x = b +:+ y -> String.length x = String.length y -> a = b /\ x = y.
Proof.
  revert b. induction a as [|c a IH]; intros [|d b] H Hlen.
  - done.
  - apply (f_equal String.length) in H. rewrite !length_append in H. simpl in H. lia.
  - apply (f_equal String.length) in H. rewrite !length_append in H. simpl in H. lia.
  - simpl in H. injection H as -> H. destruct (IH b H Hlen) as [-> ->]. done.
Qed.

(** The seconds are written on two decimal digits. *)
Lemma seconds_field (k1 k2 : nat) :
  (k1 < 60)%nat -> (k2 < 60)%nat ->
  Utility.padStart2 (Js.string_of_nat k1)
  = String (ascii_of_nat (48 + k1 / 10)) (String (ascii_of_nat (48 + k1 mod 10)) "")
  /\ (Utility.padStart2 (Js.string_of_nat k1) = Utility.padStart2 (Js.string_of_nat k2) ->
      k1 = k2).
Proof.
  intros H1 H2.
  assert (Hall : forallb (fun a =>
            String.eqb (Utility.padStart2 (Js.string_of_nat a))
              (String (ascii_of_nat (48 + a / 10))
                 (String (ascii_of_nat (48 + a mod 10)) ""))
            && forallb (fun b =>
                 implb (String.eqb (Utility.padStart2 (Js.string_of_nat a))
                                   (Utility.padStart2 (Js.string_of_nat b)))
                       (a =? b)%nat) (List.seq 0 60)) (List.seq 0 60) = true)
    by (vm_compute; reflexivity).
  rewrite List.forallb_forall in Hall.
  specialize (Hall k1 (proj2 (List.in_seq 60 0 k1) ltac:(lia))).
  apply andb_true_iff in Hall as [Hshape Hinj]. split; [by apply String.eqb_eq|].
  rewrite List.forallb_forall in Hinj.
  specialize (Hinj k2 (proj2 (List.in_seq 60 0 k2) ltac:(lia))).
  intros Heq. rewrite Heq, String.eqb_refl in Hinj. by apply Nat.eqb_eq.
Qed.

(** X23 ([formatDuration] on whole seconds).  A duration that is not
    positive is rendered N/A.  A positive duration below 2^53 seconds is
    rendered as the minutes in decimal, a colon and the seconds as two
    decimal digits, and two different such durations are never rendered
    alike. *)
Theorem formatDuration_tells_durations_apart (a b : Z) :
  (a <= 0 -> Utility.formatDuration a = "N/A")
  /\ (0 < a < 2 ^ 53 ->
      let secs := Z.to_nat (a mod 60) in
      Utility.formatDuration a
      = Js.string_of_nat (Z.to_nat (a / 60)) +:+ ":"
        +:+ String (ascii_of_nat (48 + secs / 10))
              (String (ascii_of_nat (48 + secs mod 10)) ""))
  /\ (0 < a < 2 ^ 53 -> 0 < b < 2 ^ 53 ->
      Utility.formatDuration a = Utility.formatDuration b -> a = b).
Proof.
  assert (Hpos : forall s, 0 < s ->
            Utility.formatDuration s
            = Js.string_of_nat (Z.to_nat (s / 60))
              +:+ (":" +:+ Utility.padStart2 (Js.string_of_nat (Z.to_nat (s mod 60))))).
  { intros s Hs. unfold Utility.formatDuration.
    replace (s =? 0) with false by (symmetry; apply Z.eqb_neq; lia).
    by replace (s <=? 0) with false by (symmetry; apply Z.leb_gt; lia). }
  assert (Hsec : forall s, (Z.to_nat (s mod 60) < 60)%nat).
  { intros s. pose proof (Z.mod_pos_bound s 60). lia. }
  split; [|split].
  - intros Ha. unfold Utility.formatDuration.
    destruct (a =? 0) eqn:E; [done|].
    by replace (a <=? 0) with true by (symmetry; apply Z.leb_le; lia).
  - intros [Ha _] secs. rewrite (Hpos a Ha).
    destruct (seconds_field _ _ (Hsec a) (Hsec a)) as [-> _]. done.
  - intros [Ha _] [Hb _]. rewrite (Hpos a Ha), (Hpos b Hb). intros H.
    destruct (seconds_field _ _ (Hsec a) (Hsec b)) as [Hla Hinj].
    destruct (seconds_field _ _ (Hsec b) (Hsec b)) as [Hlb _].
    apply append_inj_length in H as [Hm Hs];
      [|rewrite !length_append, Hla, Hlb; reflexivity].
    apply string_of_nat_inj in Hm. simpl in Hs. injection Hs as Hs. apply Hinj in Hs.
    pose proof (Z.mod_pos_bound a 60). pose proof (Z.mod_pos_bound b 60).
    pose proof (Z.div_pos a 60). pose proof (Z.div_pos b 60).
    rewrite (Z.div_mod a 60), (Z.div_mod b 60) by lia. lia.
Qed.

(** ** Validated records *)

Lemma no_invalid_images (l : list string) :
  Nat.eqb (List.length (List.filter (fun img => negb (Validators.isValidUrl img)) l)) 0
  = true ->
  Forall (fun img => Validators.isValidUrl img = true) l.
Proof.
  intros Hn. apply Nat.eqb_eq, List.length_zero_iff_nil in Hn.
  apply Forall_forall. intros img Hin. apply list_elem_of_In in Hin.
  destruct (Validators.isValidUrl img) eqn:Hv; [done|].
  assert (Hf : List.In img (List.filter (fun img => negb (Validators.isValidUrl img)) l))
    by (apply List.filter_In; by rewrite Hv).
  by rewrite Hn in Hf.
Qed.

Lemma validateApiResponse_accepts (d : MediaRecord) :
  Api.validateApiResponse d = None ->
  Validators.isNotEmpty (title d) = true
  /\ (Js.truthy (play d) = true -> Validators.isValidUrl (play d) = true)
  /\ (Js.truthy (music d) = true -> Validators.isValidUrl (music d) = true)
  /\ Forall (fun img => Validators.isValidUrl img = true) (images d).
Proof.
  unfold Api.validateApiResponse. intros H.
  destruct (Validators.isNotEmpty (title d)); [|done].
  destruct (Js.truthy (play d)), (Validators.isValidUrl (play d)); try done;
    destruct (Js.truthy (music d)), (Validators.isValidUrl (music d)); try done;
    simpl in H; destruct (Nat.eqb _ 0) eqn:Hn; try done;
    repeat split; try done; by apply no_invalid_images.
Qed.

(** X24 ([validateVideoData] with [getBestVideoUrl]).  A record accepted as
    a video always has a best URL when HD is preferred, as the player asks:
    one of its three video URLs, and a valid URL when it is the standard
    one.  Without the preference the choice is null exactly when the record
    has neither a standard nor a watermark-free URL, as is the case of an
    accepted record with only an HD URL. *)
Theorem accepted_video_has_an_hd_choice (d : MediaRecord) :
  Validation.validateVideoData d = None ->
  (exists u,
      ApiManager.getBestVideoUrl (Some d) true = Some u
      /\ Js.truthy u = true
      /\ (u = hdplay d \/ u = wmplay d \/ u = play d)
      /\ (u = play d -> Validators.isValidUrl u = true))
  /\ (ApiManager.getBestVideoUrl (Some d) false = None
      <-> Js.truthy (play d) = false /\ Js.truthy (wmplay d) = false).
Proof.
  unfold Validation.validateVideoData. intros H.
  destruct (Api.validateApiResponse d) eqn:Hv; [done|].
  apply validateApiResponse_accepts in Hv as (_ & Hplay & _).
  unfold ApiManager.getBestVideoUrl.
  destruct (Js.truthy (play d)) eqn:Hp; simpl in H.
  - split.
    + destruct (Js.truthy (hdplay d) && negb (String.eqb (hdplay d) (play d))) eqn:Hh.
      * apply andb_true_iff in Hh as [Hh Hne]. exists (hdplay d).
        repeat split; [done|by left|]. intros E. rewrite E, String.eqb_refl in Hne. done.
      * destruct (Js.truthy (wmplay d) && negb (String.eqb (wmplay d) (play d))) eqn:Hw.
        -- apply andb_true_iff in Hw as [Hw Hne]. exists (wmplay d).
           repeat split; [done|by right; left|]. intros E.
           rewrite E, String.eqb_refl in Hne. done.
        -- exists (play d). repeat split; [done|by right; right|]. intros _. by apply Hplay.
    + destruct (Js.truthy (wmplay d) && negb (String.eqb (wmplay d) (play d)));
        split; try done; by intros [? ?].
  - destruct (Js.truthy (hdplay d)) eqn:Hh; [|done].
    assert (Hne : String.eqb (hdplay d) (play d) = false).
    { apply String.eqb_neq. intros E. rewrite E in Hh. congruence. }
    rewrite Hne. simpl. split.
    + exists (hdplay d). repeat split; [done|by left|]. intros E.
      apply String.eqb_neq in Hne. done.
    + destruct (Js.truthy (wmplay d)) eqn:Hw.
      * assert (Hnw : String.eqb (wmplay d) (play d) = false).
        { apply String.eqb_neq. intros E. rewrite E in Hw. congruence. }
        rewrite Hnw. simpl. split; [done|]. by intros [_ ?].
      * simpl. done.
Qed.

(** X25 ([validateImageData]).  A record accepted as a slideshow has a
    title that is not blank and at least one image, and each of its images
    is a valid URL. *)
Theorem accepted_slideshow_has_valid_images (d : MediaRecord) :
  Validation.validateImageData d = None ->
  Validators.isNotEmpty (title d) = true
  /\ images d <> []
  /\ Forall (fun img => Validators.isValidUrl img = true) (images d).
Proof.
  unfold Validation.validateImageData. intros H.
  destruct (Api.validateApiResponse d) eqn:Hv; [done|].
  apply validateApiResponse_accepts in Hv as (Ht & _ & _ & Himgs).
  repeat split; [done| |done]. by destruct (images d).
Qed.

(** ** The properties of the second part on the sample data *)

(** X1 on three acquisitions, the second 500 ms after the first returned. *)
Lemma request_times_witness :
  let l := acquisitions Examples.envDegraded [0; 500; 0] Examples.s0 in
  let a := (Api.waitForRateLimit Examples.envDegraded (elapse 0 Examples.s0)).2 in
  let b := default a (l !! 2%nat) in
  l !! 0%nat = Some a /\ l !! 2%nat = Some b
  /\ lastRequestTime a + 2000 * 2 <= lastRequestTime b.
Proof.
  intros l a b.
  assert (Ha : l !! 0%nat = Some a) by reflexivity.
  assert (Hb : l !! (0 + 2)%nat = Some b) by (vm_compute; reflexivity).
  split; [exact Ha|]. split; [exact Hb|].
  exact (proj1 (request_times_are_spaced Examples.envDegraded [0; 500; 0] Examples.s0
                  0 2 a b Ha Hb)).
Defined.

(** X2 on the same three acquisitions. *)
Lemma timestamps_witness :
  Forall (fun a => (List.length (requestTimestamps a) <= 31)%nat
                   /\ last (requestTimestamps a) = Some (lastRequestTime a))
    (acquisitions Examples.envDegraded [0; 500; 0] Examples.s0).
Proof.
  apply (timestamps_stay_bounded Examples.envDegraded [0; 500; 0] Examples.s0).
  - reflexivity.
  - simpl. lia.
  - repeat constructor; lia.
Defined.

(** X3 on a cache at its capacity and a new address. *)
Lemma cache_capacity_witness :
  let c' := Api.cacheStore 7 "https://www.tiktok.com/@user/video/99"
              (Api.normalizeTikwmData Examples.rawX) Samples.fullCache in
  NoDup (JsMap.keys c') /\ (JsMap.size c' <= 50)%nat.
Proof.
  intros c'.
  destruct (cache_keeps_to_its_capacity Samples.fullCache 7
              "https://www.tiktok.com/@user/video/99"
              (Api.normalizeTikwmData Examples.rawX)) as (Hnodup & Hsize & _).
  - apply (bool_decide_unpack _). vm_compute. reflexivity.
  - vm_compute. lia.
  - split; [exact Hnodup|exact Hsize].
Defined.

(** X4 on the same cache: its oldest address is saved again, then a new
    one arrives. *)
Lemma refreshed_entry_witness :
  let oldest := "https://www.tiktok.com/@user/video/1" in
  let fresh := "https://www.tiktok.com/@user/video/99" in
  let v := Api.normalizeTikwmData Examples.rawX in
  JsMap.get oldest
    (Api.cacheStore 9 fresh v (Api.cacheStore 8 oldest v Samples.fullCache))
  = None.
Proof.
  intros oldest fresh v.
  destruct (refreshed_entry_keeps_its_turn Samples.fullCache 8 9 oldest fresh v v)
    as (_ & _ & _ & Hgone).
  - apply (bool_decide_unpack _). vm_compute. reflexivity.
  - vm_compute. reflexivity.
  - vm_compute. reflexivity.
  - apply (bool_decide_unpack _). vm_compute. reflexivity.
  - exact Hgone.
Defined.

(** X5 with nothing reachable: the metadata provider is asked twice and
    the error is the one of the second attempt. *)
Lemma fetchVideoData_failure_witness :
  let url := "https://www.tiktok.com/@user/video/123?_r=1" in
  let s' := (Api.fetchVideoData Examples.envOffline url Examples.s0).2 in
  Api.fetchVideoData Examples.envOffline url Examples.s0
  = (Thrown "TikWM metadata API failed", s')
  /\ requestsOf (Trace.since (world Examples.s0) (world s'))
     = [ReqTikWM (Api.cleanUrl url); ReqTikWM (Api.cleanUrl url)].
Proof.
  intros url s'.
  assert (H : Api.fetchVideoData Examples.envOffline url Examples.s0
              = (Thrown "TikWM metadata API failed", s'))
    by (vm_compute; reflexivity).
  split; [exact H|].
  destruct (fetchVideoData_fails_in_two_ways Examples.envOffline url Examples.s0 s'
              "TikWM metadata API failed" H) as [(Hbad & _)|(_ & _ & Hasked & _)].
  - vm_compute in Hbad. discriminate.
  - exact Hasked.
Defined.

(** X6 when the download-link provider is down: one request to each
    provider, and the record says that it is the fallback. *)
Lemma fetchVideoData_requests_witness :
  let url := "https://www.tiktok.com/@user/video/123?_r=1" in
  let d := Api.proxyFallback (Api.normalizeTikwmData Examples.rawX) in
  let s' := (Api.fetchVideoData Examples.envDegraded url Examples.s0).2 in
  Api.fetchVideoData Examples.envDegraded url Examples.s0 = (Returned d, s')
  /\ requestsOf (Trace.since (world Examples.s0) (world s'))
     = [ReqTikWM (Api.cleanUrl url); ReqTikVidProxy (Api.cleanUrl url)].
Proof.
  intros url d s'.
  assert (H : Api.fetchVideoData Examples.envDegraded url Examples.s0 = (Returned d, s'))
    by (vm_compute; reflexivity).
  split; [exact H|].
  destruct (fetchVideoData_asks_twice_or_not_at_all Examples.envDegraded url
              Examples.s0 s' d H) as [(_ & Hsame)|[(Hasked & _)|(_ & Hsource)]].
  - vm_compute in Hsame. discriminate.
  - exact Hasked.
  - vm_compute in Hsource. discriminate.
Defined.

(** X7: the record fetched while the download-link provider is down is
    what a second call returns once the provider is back. *)
Lemma fetchVideoData_cached_witness :
  let url := "https://www.tiktok.com/@user/video/123?_r=1" in
  let d := Api.proxyFallback (Api.normalizeTikwmData Examples.rawX) in
  let s' := (Api.fetchVideoData Examples.envDegraded url Examples.s0).2 in
  Api.fetchVideoData Examples.envDegraded url Examples.s0 = (Returned d, s')
  /\ Api.fetchVideoData Examples.envHealthy url s' = (Returned d, s').
Proof.
  intros url d s'.
  assert (H : Api.fetchVideoData Examples.envDegraded url Examples.s0 = (Returned d, s'))
    by (vm_compute; reflexivity).
  split; [exact H|].
  exact (proj2 (fetchVideoData_result_is_cached Examples.envDegraded Examples.envHealthy
                  url Examples.s0 s' d H)).
Defined.

(** X8 on a payload whose play URL does not parse: both providers answer,
    the fused record is refused, and the caller receives the fallback
    record, which the validator refuses as well. *)
Lemma fetchVideoData_unvalidated_witness :
  let url := "https://www.tiktok.com/@user/video/123?_r=1" in
  let m := Api.normalizeTikwmData Samples.rawUnplayable in
  (Api.fetchVideoData Samples.envUnplayable url Examples.s0).1
  = Returned (Api.proxyFallback m)
  /\ Api.validateApiResponse (Api.proxyFallback m) = Some "Link video không hợp lệ".
Proof.
  intros url m.
  pose (c := Api.cleanUrl url).
  pose (s2 := (Api.fetchMetadata Samples.envUnplayable c Examples.s0).2).
  pose (s3 := (Api.fetchDownloadLinks Samples.envUnplayable c s2).2).
  pose proof (fetchVideoData_swallows_validation_errors Samples.envUnplayable url
                Examples.s0 Examples.s0 s2 s3 m
                (Api.normalizeTikVidData Examples.rawLinks)
                "Link video không hợp lệ") as H.
  destruct (Api.fetchVideoData Samples.envUnplayable url Examples.s0) as [r s'].
  destruct H as (Hr & _ & Hv).
  - vm_compute. reflexivity.
  - vm_compute. reflexivity.
  - vm_compute. reflexivity.
  - vm_compute. reflexivity.
  - vm_compute. reflexivity.
  - split; [exact Hr|]. apply Hv. reflexivity.
Defined.

(** X12 on a request that cannot be made, retried three times from one
    second: it waits one second, then two. *)
Lemma retryAsync_witness :
  let '(r, w') := Utils.retryAsync Examples.envOffline
                    (Utils.fetch Examples.envOffline (ReqCors "https://p16.tiktokcdn.com/1.jpg"))
                    3 1000 Examples.w0 in
  exists k, (k <= 3 - 1)%nat
    /\ sleepsOf (Trace.since Examples.w0 w')
       = List.map (fun j => 1000 * 2 ^ Z.of_nat j) (List.seq 0 k)
    /\ (forall e, r = Thrown e -> k = (3 - 1)%nat).
Proof.
  apply (retryAsync_backs_off_exponentially Examples.envOffline
           (Utils.fetch Examples.envOffline (ReqCors "https://p16.tiktokcdn.com/1.jpg"))
           3 1000 Examples.w0).
  intros w. exists [EvRequest (ReqCors "https://p16.tiktokcdn.com/1.jpg")].
  split; reflexivity.
Defined.

(** X14 on a name with a colon, a slash, a question mark and spaces. *)
Lemma sanitizeFilename_witness :
  Utility.sanitizeFilename "my video: part 1/2?  final.mp4"
  = "my_video__part_1_2__final.mp4"
  /\ Validation.isValidFilename
       (Utility.sanitizeFilename "my video: part 1/2?  final.mp4") = true.
Proof.
  split; [vm_compute; reflexivity|].
  apply (sanitizeFilename_yields_valid_names "my video: part 1/2?  final.mp4").
  reflexivity.
Defined.

(** X24 on the sample payload of the metadata provider. *)
Lemma accepted_video_witness :
  exists u,
    ApiManager.getBestVideoUrl (Some (Api.normalizeTikwmData Examples.rawX)) true = Some u
    /\ Js.truthy u = true.
Proof.
  destruct (accepted_video_has_an_hd_choice (Api.normalizeTikwmData Examples.rawX))
    as ((u & Hu & Ht & _) & _).
  - vm_compute. reflexivity.
  - exists u. split; [exact Hu|exact Ht].
Defined.

(** X25 on the sample slideshow. *)
Lemma accepted_slideshow_witness :
  Forall (fun img => Validators.isValidUrl img = true)
    (images (Api.normalizeTikwmData Samples.rawSlideshow)).
Proof.
  apply (accepted_slideshow_has_valid_images (Api.normalizeTikwmData Samples.rawSlideshow)).
  vm_compute. reflexivity.
Defined.

(** C10: the degraded record, two other addresses fetched in between, and
    the same address fetched again 250 seconds later from a provider that
    has recovered. *)
Lemma C10_witness :
  let url := "https://www.tiktok.com/@user/video/123?_r=1" in
  let others :=
    List.map (fun k => (Examples.envHealthy, k, 0)) (take 2 Examples.manyKeys) in
  let first := Api.fetchVideoData Examples.envDegraded url Examples.s0 in
  let later := elapse 250000 (fetches others first.2) in
  first.1 = Returned (Api.proxyFallback (Api.normalizeTikwmData Examples.rawX))
  /\ Api.fetchVideoData Examples.envHealthy url later
     = (Returned (Api.proxyFallback (Api.normalizeTikwmData Examples.rawX)), later).
Proof.
  intros url others first later.
  pose proof
    (C10_degraded_record_is_served_from_the_cache Examples.envDegraded Examples.envHealthy
      url Examples.s0 Examples.s0
      (Api.fetchMetadata Examples.envDegraded
         "https://www.tiktok.com/@user/video/123" Examples.s0).2
      (Api.fetchDownloadLinks Examples.envDegraded
         "https://www.tiktok.com/@user/video/123"
         (Api.fetchMetadata Examples.envDegraded
            "https://www.tiktok.com/@user/video/123" Examples.s0).2).2
      (Api.normalizeTikwmData Examples.rawX)
      "TikVid download API failed" others 250000
      ltac:(vm_compute; reflexivity) ltac:(vm_compute; reflexivity)
      ltac:(vm_compute; reflexivity) ltac:(vm_compute; reflexivity)
      ltac:(apply NoDup_nil_2) ltac:(simpl; lia) ltac:(simpl; lia)
      ltac:(repeat constructor; vm_compute; discriminate)) as H.
  subst later first.
  remember (Api.fetchVideoData Examples.envDegraded url Examples.s0) as p eqn:E.
  destruct p as [r s']. cbn [fst snd].
  assert (Hs : s' = (Api.fetchVideoData Examples.envDegraded url Examples.s0).2)
    by (by rewrite <- E).
  destruct H as (Hr & _ & Hhit).
  - rewrite Hs. vm_compute. reflexivity.
  - split; [exact Hr|exact Hhit].
Defined.
